(** * Offline-first task synchronisation: the sync engine

    A shallow embedding of [src/services/syncService.ts] and of the part of
    [src/services/taskService.ts] it calls ([TaskService.getTask]).

    - The SQLite tables [tasks] and [sync_queue] are lists of rows, in
      insertion order.  [UPDATE ... WHERE] rewrites every matching row,
      [DELETE ... WHERE] drops every matching row, [db.get] returns the first
      matching row.
    - Dates are integers (milliseconds, what [Date.getTime] returns).
    - The wall clock and the remote authority are oracles: [clock n] is the
      value of the [n]-th reading of the clock, [remote k req] is what the
      [k]-th call of [axios.post] yields for the request [req] (a thrown
      error, or the response body).
    - [async] methods are computations in a state monad over the [World]
      (database, number of clock readings, log of protocol exchanges).
    - The [for] loop of [sync] is driven by fuel, since it does not terminate
      when the configured batch size is 0. *)

From Stdlib Require Import List String ZArith Bool Arith Lia.
From Stdlib Require Import Permutation Sorted.
Import ListNotations.

Local Open Scope list_scope.

(** ** Data model (the shapes used from [src/types]) *)

Inductive SyncStatus : Type := st_pending | st_synced | st_error.

Inductive Operation : Type := op_create | op_update | op_delete.

Inductive ItemStatus : Type := r_success | r_conflict | r_error.

Module Task.
Record t : Type := mk {
  id : string;
  title : string;
  description : option string;
  completed : bool;
  created_at : Z;
  updated_at : Z;
  is_deleted : bool;
  sync_status : SyncStatus;
  server_id : option string;
  last_synced_at : option Z
}.
End Task.

Module SyncQueueItem.
Record t : Type := mk {
  id : string;
  task_id : string;
  operation : Operation;
  data : string;
  created_at : Z;
  retry_count : nat;
  error_message : option string
}.
End SyncQueueItem.

Module ProcessedItem.
Record t : Type := mk {
  client_id : string;
  server_id : option string;
  status : ItemStatus;
  resolved_data : option Task.t;
  error : option string
}.
End ProcessedItem.

Module BatchSyncRequest.
Record t : Type := mk {
  items : list SyncQueueItem.t;
  client_timestamp : Z
}.
End BatchSyncRequest.

Module BatchSyncResponse.
Record t : Type := mk {
  processed_items : list ProcessedItem.t
}.
End BatchSyncResponse.

Module SyncError.
Record t : Type := mk {
  task_id : string;
  operation : Operation;
  error : string;
  timestamp : Z
}.
End SyncError.

Module SyncResult.
Record t : Type := mk {
  success : bool;
  synced_items : nat;
  failed_items : nat;
  errors : list SyncError.t
}.
End SyncResult.

(** What one call of [axios.post] yields: the message of the error it
    throws, or the body of the response. *)
Definition ExchangeResult : Type := (string + BatchSyncResponse.t)%type.

(** ** The database and the world *)

Record Database : Type := mkDatabase {
  tasks : list Task.t;
  sync_queue : list SyncQueueItem.t
}.

Record World : Type := mkWorld {
  db : Database;
  ticks : nat;
  sent : list (BatchSyncRequest.t * ExchangeResult)
}.

(** ** JavaScript operators on optional values *)

(** [a ?? b] *)
Definition nullish {A : Type} (a b : option A) : option A :=
  match a with
  | Some x => Some x
  | None => b
  end.

(** [s || d] for an optional string: the empty string is falsy. *)
Definition or_else (s : option string) (d : string) : string :=
  match s with
  | Some EmptyString => d
  | Some x => x
  | None => d
  end.

(** [s || undefined] *)
Definition or_undefined (s : option string) : option string :=
  match s with
  | Some EmptyString => None
  | other => other
  end.

(** [Array.prototype.slice(i, j)] for [0 <= i]. *)
Definition slice {A : Type} (l : list A) (i j : nat) : list A :=
  firstn (j - i) (skipn i l).

(** ** SQL statements *)

(** [UPDATE table SET ... WHERE p] *)
Definition sql_update {A : Type} (p : A -> bool) (f : A -> A) (rows : list A) : list A :=
  map (fun r => if p r then f r else r) rows.

(** [DELETE FROM table WHERE p] *)
Definition sql_delete {A : Type} (p : A -> bool) (rows : list A) : list A :=
  filter (fun r => negb (p r)) rows.

(** [WHERE id = ?] on [tasks] *)
Definition task_has_id (id : string) (row : Task.t) : bool :=
  String.eqb (Task.id row) id.

(** [WHERE id = ?] on [sync_queue] *)
Definition entry_has_id (id : string) (q : SyncQueueItem.t) : bool :=
  String.eqb (SyncQueueItem.id q) id.

(** [WHERE task_id = ?] on [sync_queue]; also [b.task_id === processed.client_id] *)
Definition entry_of_task (taskId : string) (q : SyncQueueItem.t) : bool :=
  String.eqb (SyncQueueItem.task_id q) taskId.

(** [ORDER BY created_at]: a stable insertion sort. Rows with equal keys
    keep their insertion order, as SQLite returns them for this query. *)
Fixpoint insert_by_created_at (r : SyncQueueItem.t) (rows : list SyncQueueItem.t)
  : list SyncQueueItem.t :=
  match rows with
  | [] => [r]
  | x :: rest =>
      if (SyncQueueItem.created_at r <=? SyncQueueItem.created_at x)%Z
      then r :: x :: rest
      else x :: insert_by_created_at r rest
  end.

Definition order_by_created_at (rows : list SyncQueueItem.t) : list SyncQueueItem.t :=
  fold_right insert_by_created_at [] rows.

(** The row-to-item mapping at the top of [sync]. [JSON.parse] is the inverse
    of the [JSON.stringify] every writer of the queue applies, so the payload
    is kept as stored. *)
Definition item_of_row (row : SyncQueueItem.t) : SyncQueueItem.t :=
  SyncQueueItem.mk
    (SyncQueueItem.id row)
    (SyncQueueItem.task_id row)
    (SyncQueueItem.operation row)
    (SyncQueueItem.data row)
    (SyncQueueItem.created_at row)
    (SyncQueueItem.retry_count row)
    (or_undefined (SyncQueueItem.error_message row)).

(** The full drain: [SELECT * FROM sync_queue ORDER BY created_at], mapped. *)
Definition drain (d : Database) : list SyncQueueItem.t :=
  map item_of_row (order_by_created_at (sync_queue d)).

(** Row updates *)

Definition set_sync_error (r : Task.t) : Task.t :=
  Task.mk (Task.id r) (Task.title r) (Task.description r) (Task.completed r)
    (Task.created_at r) (Task.updated_at r) (Task.is_deleted r)
    st_error (Task.server_id r) (Task.last_synced_at r).

(** [sync_status = 'synced', server_id = COALESCE(?, server_id), last_synced_at = ?] *)
Definition set_synced (serverId : option string) (nowIso : Z) (r : Task.t) : Task.t :=
  Task.mk (Task.id r) (Task.title r) (Task.description r) (Task.completed r)
    (Task.created_at r) (Task.updated_at r) (Task.is_deleted r)
    st_synced (nullish serverId (Task.server_id r)) (Some nowIso).

(** [title = ?, description = ?, completed = ?, updated_at = ?,
     sync_status = 'synced', server_id = ?, last_synced_at = CURRENT_TIMESTAMP] *)
Definition set_resolved (winner : Task.t) (nowIso : Z) (serverId : option string)
    (current_timestamp : Z) (r : Task.t) : Task.t :=
  Task.mk (Task.id r) (Task.title winner) (Task.description winner)
    (Task.completed winner) (Task.created_at r) nowIso (Task.is_deleted r)
    st_synced serverId (Some current_timestamp).

(** [retry_count = ?, error_message = ?] *)
Definition set_failed (newRetry : nat) (message : string) (r : SyncQueueItem.t)
  : SyncQueueItem.t :=
  SyncQueueItem.mk (SyncQueueItem.id r) (SyncQueueItem.task_id r)
    (SyncQueueItem.operation r) (SyncQueueItem.data r)
    (SyncQueueItem.created_at r) newRetry (Some message).

(** ** The state monad of the service *)

Definition M (A : Type) : Type := World -> A * World.

Definition ret {A : Type} (a : A) : M A := fun w => (a, w).

Definition bind {A B : Type} (m : M A) (k : A -> M B) : M B :=
  fun w => let (a, w') := m w in k a w'.

Notation "x <- m ;; k" := (bind m (fun x => k))
  (at level 61, m at next level, right associativity).
Notation "m ;; k" := (bind m (fun _ => k))
  (at level 61, right associativity).

(** [for (const x of xs) { acc = body(x, acc) }] *)
Fixpoint for_each {A S : Type} (xs : list A) (body : A -> S -> M S) (acc : S) : M S :=
  match xs with
  | [] => ret acc
  | x :: rest => acc' <- body x acc ;; for_each rest body acc'
  end.

Definition run_tasks (f : list Task.t -> list Task.t) : M unit :=
  fun w => (tt, mkWorld (mkDatabase (f (tasks (db w))) (sync_queue (db w)))
                        (ticks w) (sent w)).

Definition run_queue (f : list SyncQueueItem.t -> list SyncQueueItem.t) : M unit :=
  fun w => (tt, mkWorld (mkDatabase (tasks (db w)) (f (sync_queue (db w))))
                        (ticks w) (sent w)).

Definition get_task (p : Task.t -> bool) : M (option Task.t) :=
  fun w => (find p (tasks (db w)), w).

Definition all_queue : M (list SyncQueueItem.t) :=
  fun w => (order_by_created_at (sync_queue (db w)), w).

(** The local accumulators of [sync]: [synced], [failed] and [errors]. *)
Record Tally : Type := mkTally {
  synced : nat;
  failed : nat;
  errors : list SyncError.t
}.

Section Service.

(** [clock n]: the [n]-th reading of the clock ([new Date()],
    [CURRENT_TIMESTAMP]). *)
Variable clock : nat -> Z.

(** [remote k req]: the outcome of the [k]-th [axios.post] of the world. *)
Variable remote : nat -> BatchSyncRequest.t -> ExchangeResult.

Definition now : M Z :=
  fun w => (clock (ticks w), mkWorld (db w) (S (ticks w)) (sent w)).

Definition post (req : BatchSyncRequest.t) : M ExchangeResult :=
  fun w => let r := remote (List.length (sent w)) req in
           (r, mkWorld (db w) (ticks w) (sent w ++ [(req, r)])).

(** *** [TaskService.getTask] *)
Definition getTask (id : string) : M (option Task.t) :=
  get_task (fun row => task_has_id id row && negb (Task.is_deleted row)).

(** *** [SyncService.resolveConflict] *)
Definition resolveConflict (localTask serverTask : Task.t) : M Task.t :=
  let localUpdated := Task.updated_at localTask in
  let serverUpdated := Task.updated_at serverTask in
  ret (if (localUpdated >=? serverUpdated)%Z then localTask else serverTask).

(** *** [SyncService.updateSyncStatus]
    [serverData] is [None] when the argument is omitted and
    [Some sid] for the object [{ server_id: sid }]. *)
Definition updateSyncStatus (taskId : string) (status : SyncStatus)
    (serverData : option (option string)) : M unit :=
  nowIso <- now ;;
  let serverId := match serverData with Some sid => sid | None => None end in
  match status with
  | st_synced =>
      run_tasks (sql_update (task_has_id taskId) (set_synced serverId nowIso)) ;;
      run_queue (sql_delete (entry_of_task taskId))
  | _ =>
      run_tasks (sql_update (task_has_id taskId) set_sync_error)
  end.

(** *** [SyncService.handleSyncError]; [message] is [error.message]. *)
Definition handleSyncError (item : SyncQueueItem.t) (message : string) : M unit :=
  let newRetry := SyncQueueItem.retry_count item + 1 in
  run_queue (sql_update (entry_has_id (SyncQueueItem.id item))
               (set_failed newRetry message)) ;;
  if 3 <=? newRetry
  then updateSyncStatus (SyncQueueItem.task_id item) st_error None
  else ret tt.

(** *** [SyncService.processBatch] *)
Definition processBatch (items : list SyncQueueItem.t) : M ExchangeResult :=
  client_timestamp <- now ;;
  post (BatchSyncRequest.mk items client_timestamp).

(** *** The body of [for (const processed of response.processed_items)] *)
Definition record_failure (item : SyncQueueItem.t) (text : string) (acc : Tally)
  : M Tally :=
  timestamp <- now ;;
  ret (mkTally (synced acc) (failed acc + 1)
         (errors acc ++ [SyncError.mk (SyncQueueItem.task_id item)
                           (SyncQueueItem.operation item) text timestamp])).

Definition process_item (batch : list SyncQueueItem.t)
    (processed : ProcessedItem.t) (acc : Tally) : M Tally :=
  match find (entry_of_task (ProcessedItem.client_id processed)) batch with
  | None => ret acc
  | Some item =>
      match ProcessedItem.status processed with
      | r_success =>
          updateSyncStatus (SyncQueueItem.task_id item) st_synced
            (Some (ProcessedItem.server_id processed)) ;;
          ret (mkTally (synced acc + 1) (failed acc) (errors acc))
      | r_conflict =>
          local <- getTask (SyncQueueItem.task_id item) ;;
          match local, ProcessedItem.resolved_data processed with
          | Some local, Some serverTask =>
              winner <- resolveConflict local serverTask ;;
              nowIso <- now ;;
              current_timestamp <- now ;;
              run_tasks (sql_update (task_has_id (Task.id local))
                           (set_resolved winner nowIso
                              (nullish (Task.server_id serverTask)
                                 (ProcessedItem.server_id processed))
                              current_timestamp)) ;;
              run_queue (sql_delete (entry_of_task (Task.id local))) ;;
              ret (mkTally (synced acc + 1) (failed acc) (errors acc))
          | _, _ =>
              handleSyncError item "Conflict without resolvable data" ;;
              record_failure item "Conflict" acc
          end
      | r_error =>
          handleSyncError item (or_else (ProcessedItem.error processed) "Sync error") ;;
          record_failure item (or_else (ProcessedItem.error processed) "error") acc
      end
  end.

(** *** The body of the [catch] block: [for (const item of batch)] *)
Definition fail_item (message : string) (item : SyncQueueItem.t) (acc : Tally)
  : M Tally :=
  handleSyncError item message ;;
  record_failure item (or_else (Some message) "error") acc.

(** *** One iteration of the batch loop: [try { ... } catch (err) { ... }] *)
Definition run_batch (batch : list SyncQueueItem.t) (acc : Tally) : M Tally :=
  response <- processBatch batch ;;
  match response with
  | inr response =>
      for_each (BatchSyncResponse.processed_items response) (process_item batch) acc
  | inl message =>
      for_each batch (fail_item message) acc
  end.

(** *** [for (let i = 0; i < allItems.length; i += batchSize)]
    [None] when the fuel runs out before the loop condition fails. *)
Fixpoint sync_loop (fuel batchSize : nat) (allItems : list SyncQueueItem.t)
    (i : nat) (acc : Tally) : M (option Tally) :=
  match fuel with
  | O => ret None
  | S fuel' =>
      if i <? List.length allItems
      then
        let batch := slice allItems i (i + batchSize) in
        acc' <- run_batch batch acc ;;
        sync_loop fuel' batchSize allItems (i + batchSize) acc'
      else ret (Some acc)
  end.

Definition result_of (acc : Tally) : SyncResult.t :=
  SyncResult.mk (failed acc =? 0) (synced acc) (failed acc) (errors acc).

(** *** [SyncService.sync]; [batchSize] is [Number(process.env.SYNC_BATCH_SIZE || 50)]. *)
Definition sync (fuel batchSize : nat) : M (option SyncResult.t) :=
  rows <- all_queue ;;
  let allItems := map item_of_row rows in
  final <- sync_loop fuel batchSize allItems 0 (mkTally 0 0 []) ;;
  ret (option_map result_of final).

(** The failure path as a whole: [handleSyncError], then [failed += 1] and
    [errors.push] with [text]. *)
Definition after_failure (item : SyncQueueItem.t) (message text : string)
    (acc : Tally) (w : World) : Tally * World :=
  let w' := snd (handleSyncError item message w) in
  (mkTally (synced acc) (failed acc + 1)
     (errors acc ++ [SyncError.mk (SyncQueueItem.task_id item)
                       (SyncQueueItem.operation item) text (clock (ticks w'))]),
   mkWorld (db w') (S (ticks w')) (sent w')).

(** The request of a batch and the answer it gets in the world [w]. *)
Definition request_of (batch : list SyncQueueItem.t) (w : World) : BatchSyncRequest.t :=
  BatchSyncRequest.mk batch (clock (ticks w)).

Definition answer_of (batch : list SyncQueueItem.t) (w : World) : ExchangeResult :=
  remote (List.length (sent w)) (request_of batch w).

End Service.

(** ** Vocabulary of the statements *)

(** The retry threshold of [handleSyncError]. *)
Definition escalates (item : SyncQueueItem.t) : bool :=
  3 <=? SyncQueueItem.retry_count item + 1.

(** The rows of the record [t] in the Record Store. *)
Definition tasks_of (t : string) (d : Database) : list Task.t :=
  filter (task_has_id t) (tasks d).

(** The Change Log holds no entry of the record [t]. *)
Definition no_entries (t : string) (d : Database) : Prop :=
  forall q, In q (sync_queue d) -> SyncQueueItem.task_id q <> t.

(** The world after the success branch of [process_item]. *)
Definition after_success (clock : nat -> Z) (taskId : string)
    (serverId : option string) (w : World) : World :=
  mkWorld
    (mkDatabase
       (sql_update (task_has_id taskId) (set_synced serverId (clock (ticks w)))
          (tasks (db w)))
       (sql_delete (entry_of_task taskId) (sync_queue (db w))))
    (S (ticks w)) (sent w).

(** The world after the resolving branch of [process_item]. *)
Definition after_resolution (clock : nat -> Z) (local winner : Task.t)
    (serverId : option string) (w : World) : World :=
  mkWorld
    (mkDatabase
       (sql_update (task_has_id (Task.id local))
          (set_resolved winner (clock (ticks w)) serverId (clock (S (ticks w))))
          (tasks (db w)))
       (sql_delete (entry_of_task (Task.id local)) (sync_queue (db w))))
    (S (S (ticks w))) (sent w).

(** Every way [process_item] can go. *)
Inductive item_outcome (clock : nat -> Z) (batch : list SyncQueueItem.t)
    (processed : ProcessedItem.t) (acc : Tally) (w : World)
  : Tally * World -> Prop :=
| out_skipped :
    find (entry_of_task (ProcessedItem.client_id processed)) batch = None ->
    item_outcome clock batch processed acc w (acc, w)
| out_synced item :
    find (entry_of_task (ProcessedItem.client_id processed)) batch = Some item ->
    ProcessedItem.status processed = r_success ->
    item_outcome clock batch processed acc w
      (mkTally (synced acc + 1) (failed acc) (errors acc),
       after_success clock (SyncQueueItem.task_id item)
         (ProcessedItem.server_id processed) w)
| out_resolved item local serverTask :
    find (entry_of_task (ProcessedItem.client_id processed)) batch = Some item ->
    ProcessedItem.status processed = r_conflict ->
    fst (getTask (SyncQueueItem.task_id item) w) = Some local ->
    ProcessedItem.resolved_data processed = Some serverTask ->
    item_outcome clock batch processed acc w
      (mkTally (synced acc + 1) (failed acc) (errors acc),
       after_resolution clock local (fst (resolveConflict local serverTask w))
         (nullish (Task.server_id serverTask) (ProcessedItem.server_id processed)) w)
| out_failed item message text :
    find (entry_of_task (ProcessedItem.client_id processed)) batch = Some item ->
    item_outcome clock batch processed acc w
      (after_failure clock item message text acc w).

(** Every recorded failure has its entry in [errors]. *)
Definition tally_ok (acc : Tally) : Prop :=
  List.length (errors acc) = failed acc.

(** [ceil(n / b)] *)
Definition ceil_div (n b : nat) : nat := (n + b - 1) / b.

(** The batches exchanged with the remote authority between two worlds, in
    the order of the exchanges. *)
Definition exchanged (w w' : World) : list (list SyncQueueItem.t) :=
  map (fun x => BatchSyncRequest.items (fst x)) (skipn (List.length (sent w)) (sent w')).

(** The database after [handleSyncError]. *)
Definition failure_db (item : SyncQueueItem.t) (message : string) (d : Database)
  : Database :=
  mkDatabase
    (if escalates item
     then sql_update (task_has_id (SyncQueueItem.task_id item)) set_sync_error (tasks d)
     else tasks d)
    (sql_update (entry_has_id (SyncQueueItem.id item))
       (set_failed (SyncQueueItem.retry_count item + 1) message) (sync_queue d)).

(** One Change Log row through the failures of a whole batch, entry by entry. *)
Definition retried (message : string) (batch : list SyncQueueItem.t)
    (row : SyncQueueItem.t) : SyncQueueItem.t :=
  fold_left
    (fun r item =>
       if entry_has_id (SyncQueueItem.id item) r
       then set_failed (SyncQueueItem.retry_count item + 1) message r
       else r)
    batch row.

(** A Change Log row after one more failure: [retry_count] one higher, the
    message stored, nothing else touched. *)
Definition marked_failed (message : string) (row : SyncQueueItem.t) : SyncQueueItem.t :=
  SyncQueueItem.mk (SyncQueueItem.id row) (SyncQueueItem.task_id row)
    (SyncQueueItem.operation row) (SyncQueueItem.data row)
    (SyncQueueItem.created_at row) (SyncQueueItem.retry_count row + 1) (Some message).

(** Two versions of a Record Store row that differ at most in [sync_status]. *)
Definition same_payload (a b : Task.t) : Prop :=
  Task.id a = Task.id b /\ Task.title a = Task.title b /\
  Task.description a = Task.description b /\ Task.completed a = Task.completed b /\
  Task.created_at a = Task.created_at b /\ Task.updated_at a = Task.updated_at b /\
  Task.is_deleted a = Task.is_deleted b /\ Task.server_id a = Task.server_id b /\
  Task.last_synced_at a = Task.last_synced_at b.

(** What an entry of [errors] says, its timestamp apart. *)
Definition report (e : SyncError.t) : string * Operation * string :=
  (SyncError.task_id e, SyncError.operation e, SyncError.error e).

(** Creation-time order. *)
Definition created_le (a b : SyncQueueItem.t) : Prop :=
  (SyncQueueItem.created_at a <= SyncQueueItem.created_at b)%Z.

(** ** Scenarios *)

Definition ex_clock (n : nat) : Z := 1000 + Z.of_nat n.

(** A record created locally and never synchronised. *)
Definition task_milk : Task.t :=
  Task.mk "t1" "Buy milk" None false 10 10 false st_pending None None.

(** Its [create] entry and the entry of a later [update]. *)
Definition entry_create : SyncQueueItem.t :=
  SyncQueueItem.mk "q1" "t1" op_create "{}" 10 0 None.

Definition entry_update : SyncQueueItem.t :=
  SyncQueueItem.mk "q2" "t1" op_update "{}" 20 0 None.

Definition world_two_entries : World :=
  mkWorld (mkDatabase [task_milk] [entry_create; entry_update]) 0 [].

Definition world_one_entry : World :=
  mkWorld (mkDatabase [task_milk] [entry_create]) 0 [].

Definition world_empty : World := mkWorld (mkDatabase [task_milk] []) 0 [].

(** The remote authority cannot be reached. *)
Definition remote_down (k : nat) (req : BatchSyncRequest.t) : ExchangeResult :=
  inl "Network Error"%string.

(** The remote authority answers its [n]-th call with the one outcome
    [outcome]; every other call fails in transport. *)
Definition remote_up_at (n : nat) (outcome : ProcessedItem.t)
    (k : nat) (req : BatchSyncRequest.t) : ExchangeResult :=
  if k =? n then inr (BatchSyncResponse.mk [outcome]) else inl "Network Error"%string.

(** The world two passes with batch size 1 leave behind when the remote
    authority cannot be reached: both entries have failed twice. *)
Definition world_after_two_outages : World :=
  snd (sync ex_clock remote_down 3 1
         (snd (sync ex_clock remote_down 3 1 world_two_entries))).

(** The drained copy of the [create] entry in that world. *)
Definition entry_create_failed_twice : SyncQueueItem.t :=
  marked_failed "Network Error" (marked_failed "Network Error" entry_create).

Definition success_srv_1 : ProcessedItem.t :=
  ProcessedItem.mk "t1" (Some "srv_1"%string) r_success None None.

(** A conflict reported without [resolved_data]. *)
Definition conflict_without_data : ProcessedItem.t :=
  ProcessedItem.mk "t1" None r_conflict None None.

(** The remote version of the record, newer than [task_milk], and a conflict
    that carries it. *)
Definition task_oat_milk : Task.t :=
  Task.mk "t1" "Buy oat milk" (Some "2 l"%string) true 10 50 false st_synced None None.

Definition conflict_with_snapshot : ProcessedItem.t :=
  ProcessedItem.mk "t1" (Some "srv_9"%string) r_conflict (Some task_oat_milk) None.

(** The record after a local soft delete. *)
Definition task_milk_deleted : Task.t :=
  Task.mk "t1" "Buy milk" None false 10 30 true st_pending None None.

Definition world_deleted : World :=
  mkWorld (mkDatabase [task_milk_deleted] [entry_create]) 0 [].

(** ** [TaskService]: the local mutations, and the remaining methods of
    [SyncService] *)

(** The fields the service reads from a [Partial<Task>]. [description] is
    [None] for [undefined] and [Some None] for [null]. *)
Module TaskData.
Record t : Type := mk {
  title : option string;
  description : option (option string);
  completed : option bool
}.
End TaskData.

(** The objects handed to [JSON.stringify]: the snapshot queued by
    [createTask] (a [null] description is kept), the one queued by
    [updateTask] (an absent description is dropped) and the one queued by
    [deleteTask]. *)
Inductive Payload : Type :=
| payload_create (id title : string) (description : option string) (completed : bool)
| payload_update (id title : string) (description : option string) (completed : bool)
| payload_delete (id : string).

(** [INSERT INTO table ... VALUES ...] *)
Definition sql_insert {A : Type} (row : A) (rows : list A) : list A :=
  rows ++ [row].

(** Modelled from the spec: the column defaults of [sync_queue], whose schema
    ([src/db/database]) is not among the sources. An entry inserted with
    [(id, task_id, operation, data)] gets the enqueue time as [created_at],
    [retry_count = 0] and no [error_message]. *)
Definition new_queue_row (id task_id : string) (operation : Operation)
    (data : string) (current_timestamp : Z) : SyncQueueItem.t :=
  SyncQueueItem.mk id task_id operation data current_timestamp 0 None.

(** [x ?? null] on a field that may be [undefined] or [null] *)
Definition or_null {A : Type} (x : option (option A)) : option A :=
  match x with
  | Some v => v
  | None => None
  end.

(** [x !== undefined ? x : d] *)
Definition if_defined {A : Type} (x : option A) (d : A) : A :=
  match x with
  | Some v => v
  | None => d
  end.

(** [b ? 1 : 0] on an optional flag *)
Definition truthy (b : option bool) : bool :=
  match b with
  | Some true => true
  | _ => false
  end.

(** [title = ?, description = ?, completed = ?, updated_at = ?,
     sync_status = 'pending'] *)
Definition set_edited (newTitle : string) (newDescription : option string)
    (newCompleted : bool) (nowIso : Z) (r : Task.t) : Task.t :=
  Task.mk (Task.id r) newTitle newDescription newCompleted (Task.created_at r)
    nowIso (Task.is_deleted r) st_pending (Task.server_id r) (Task.last_synced_at r).

(** [is_deleted = 1, updated_at = ?, sync_status = 'pending'] *)
Definition set_deleted (nowIso : Z) (r : Task.t) : Task.t :=
  Task.mk (Task.id r) (Task.title r) (Task.description r) (Task.completed r)
    (Task.created_at r) nowIso true st_pending (Task.server_id r)
    (Task.last_synced_at r).

(** [WHERE sync_status IN ('pending','error')] *)
Definition needs_sync (row : Task.t) : bool :=
  match Task.sync_status row with
  | st_synced => false
  | _ => true
  end.

Section Mutations.

Variable clock : nat -> Z.

(** [String.prototype.trim] *)
Variable trim : string -> string.

Variable JSON_stringify : Payload -> string.

(** *** [TaskService.createTask]; [id] and [queueId] are the values of its
    two calls of [uuidv4()]. The result is [inl message] when it throws. *)
Definition createTask (id queueId : string) (taskData : TaskData.t)
  : M (string + Task.t) :=
  nowIso <- now clock ;;
  let title := trim (or_else (TaskData.title taskData) "") in
  if String.eqb title ""
  then ret (inl "Title is required"%string)
  else
    let description := or_null (TaskData.description taskData) in
    let completed := truthy (TaskData.completed taskData) in
    let created :=
      Task.mk id title description completed nowIso nowIso false st_pending
        None None in
    run_tasks (sql_insert created) ;;
    current_timestamp <- now clock ;;
    run_queue (sql_insert
                 (new_queue_row queueId id op_create
                    (JSON_stringify (payload_create id title description completed))
                    current_timestamp)) ;;
    ret (inr created).

(** *** [TaskService.updateTask]; [queueId] is the value of [uuidv4()]. *)
Definition updateTask (queueId id : string) (updates : TaskData.t)
  : M (option Task.t) :=
  existing <- get_task (task_has_id id) ;;
  match existing with
  | None => ret None
  | Some existing =>
      nowIso <- now clock ;;
      let newTitle := if_defined (TaskData.title updates) (Task.title existing) in
      let newDescription :=
        if_defined (TaskData.description updates) (Task.description existing) in
      let newCompleted :=
        if_defined (TaskData.completed updates) (Task.completed existing) in
      run_tasks (sql_update (task_has_id id)
                   (set_edited newTitle newDescription newCompleted nowIso)) ;;
      current_timestamp <- now clock ;;
      run_queue (sql_insert
                   (new_queue_row queueId id op_update
                      (JSON_stringify
                         (payload_update id newTitle newDescription newCompleted))
                      current_timestamp)) ;;
      getTask id
  end.

(** *** [TaskService.deleteTask]; [queueId] is the value of [uuidv4()]. *)
Definition deleteTask (queueId id : string) : M bool :=
  existing <- get_task (task_has_id id) ;;
  match existing with
  | None => ret false
  | Some _ =>
      nowIso <- now clock ;;
      run_tasks (sql_update (task_has_id id) (set_deleted nowIso)) ;;
      current_timestamp <- now clock ;;
      run_queue (sql_insert
                   (new_queue_row queueId id op_delete
                      (JSON_stringify (payload_delete id)) current_timestamp)) ;;
      ret true
  end.

(** *** [TaskService.getAllTasks] *)
Definition getAllTasks : M (list Task.t) :=
  fun w => (filter (fun row => negb (Task.is_deleted row)) (tasks (db w)), w).

(** *** [TaskService.getTasksNeedingSync] *)
Definition getTasksNeedingSync : M (list Task.t) :=
  fun w => (filter needs_sync (tasks (db w)), w).

(** *** [SyncService.addToSyncQueue]; [itemId] is the value of [uuidv4()]. *)
Definition addToSyncQueue (itemId taskId : string) (operation : Operation)
    (data : Payload) : M unit :=
  current_timestamp <- now clock ;;
  run_queue (sql_insert
               (new_queue_row itemId taskId operation (JSON_stringify data)
                  current_timestamp)).

End Mutations.

(** ** The [/batch] route: the echo endpoint the repository ships *)

Section BatchRoute.

(** [it.data?.server_id]: the [server_id] field of a queued payload. *)
Variable data_server_id : string -> option string.

(** [Math.random().toString(36).slice(2, 8)] for the [j]-th item of the
    [k]-th request. *)
Variable random_suffix : nat -> nat -> string.

(** [items.map((it) => ({ client_id, server_id, status: 'success' }))] *)
Fixpoint echo_items (k j : nat) (items : list SyncQueueItem.t)
  : list ProcessedItem.t :=
  match items with
  | [] => []
  | it :: rest =>
      ProcessedItem.mk (SyncQueueItem.task_id it)
        (Some (or_else (data_server_id (SyncQueueItem.data it))
                 (String.append "srv_" (random_suffix k j))))
        r_success None None
      :: echo_items k (S j) rest
  end.

(** The handler of [POST /batch], as the [k]-th call sees it. *)
Definition batch_route (k : nat) (req : BatchSyncRequest.t) : ExchangeResult :=
  inr (BatchSyncResponse.mk (echo_items k 0 (BatchSyncRequest.items req))).

End BatchRoute.

(** Vocabulary of the further properties *)

(** Two versions of a Record Store row for the same record: the fields a
    pass never writes. *)
Definition same_identity (a b : Task.t) : Prop :=
  Task.id a = Task.id b /\ Task.created_at a = Task.created_at b /\
  Task.is_deleted a = Task.is_deleted b.

(** Two versions of a Change Log row that differ at most in [retry_count]
    and [error_message]. *)
Definition same_entry (a b : SyncQueueItem.t) : Prop :=
  SyncQueueItem.id a = SyncQueueItem.id b /\
  SyncQueueItem.task_id a = SyncQueueItem.task_id b /\
  SyncQueueItem.operation a = SyncQueueItem.operation b /\
  SyncQueueItem.data a = SyncQueueItem.data b /\
  SyncQueueItem.created_at a = SyncQueueItem.created_at b.

(** What the success path does to a row [a], giving [b]: only sync metadata
    is written, and only on the rows of the record [taskId]. *)
Definition only_sync_metadata (taskId : string) (serverId : option string)
    (a b : Task.t) : Prop :=
  Task.id a = Task.id b /\ Task.title a = Task.title b /\
  Task.description a = Task.description b /\
  Task.completed a = Task.completed b /\
  Task.created_at a = Task.created_at b /\
  Task.updated_at a = Task.updated_at b /\
  Task.is_deleted a = Task.is_deleted b /\
  (Task.id a = taskId ->
   Task.sync_status b = st_synced /\
   Task.server_id b = nullish serverId (Task.server_id a)) /\
  (Task.id a <> taskId -> b = a).

(** The tables of a database [d] as a pass may have left them from [d0]. *)
Definition carried_over (d0 : Database) (acc : Tally) (d : Database) : Prop :=
  Forall2 same_identity (tasks d0) (tasks d) /\
  (forall q', In q' (sync_queue d) ->
     exists q, In q (sync_queue d0) /\ same_entry q q') /\
  List.length (sync_queue d) <= List.length (sync_queue d0).

(** A record the remote authority has acknowledged. *)
Definition acknowledged (row : Task.t) : Prop :=
  Task.sync_status row = st_synced /\
  (exists sid, Task.server_id row = Some sid) /\
  (exists at_time, Task.last_synced_at row = Some at_time).

(** Two versions of a Record Store row with the same content: all the
    fields but the sync metadata ([sync_status], [server_id],
    [last_synced_at]). *)
Definition same_content (a b : Task.t) : Prop :=
  Task.id a = Task.id b /\ Task.title a = Task.title b /\
  Task.description a = Task.description b /\
  Task.completed a = Task.completed b /\
  Task.created_at a = Task.created_at b /\
  Task.updated_at a = Task.updated_at b /\
  Task.is_deleted a = Task.is_deleted b.

(** Every row of a record that has an entry among [handled] is
    acknowledged. *)
Definition acknowledged_for (handled : list SyncQueueItem.t) (d : Database) : Prop :=
  forall row e, In row (tasks d) -> In e handled ->
    SyncQueueItem.task_id e = Task.id row -> acknowledged row.

(** Every row of the Change Log belongs to a record that still has an entry
    among [remaining]. *)
Definition covered_by (remaining : list SyncQueueItem.t) (d : Database) : Prop :=
  forall q, In q (sync_queue d) ->
    exists e, In e remaining /\ SyncQueueItem.task_id e = SyncQueueItem.task_id q.

(** Scenarios of the further properties *)

(** A stand-in for [trim] on titles that have no surrounding blanks. *)
Definition ex_trim (s : string) : string := s.

(** A stand-in for [JSON.stringify]. *)
Definition ex_stringify (p : Payload) : string :=
  match p with
  | payload_create id _ _ _ => String.append "create " id
  | payload_update id _ _ _ => String.append "update " id
  | payload_delete id => String.append "delete " id
  end.

Definition data_buy_milk : TaskData.t :=
  TaskData.mk (Some "Buy milk"%string) None None.

Definition data_untitled : TaskData.t := TaskData.mk None None None.

Definition data_done : TaskData.t := TaskData.mk None None (Some true).

(** Two error outcomes for the same record, as a remote authority that
    answers per entry gives for two entries of one record. *)
Definition error_rejected : ProcessedItem.t :=
  ProcessedItem.mk "t1" None r_error None (Some "rejected"%string).

Definition error_unexplained : ProcessedItem.t :=
  ProcessedItem.mk "t1" None r_error None None.

(** The record once synchronised, then edited locally at time 60; and a
    conflict whose snapshot is older and carries no [server_id]. *)
Definition task_milk_edited : Task.t :=
  Task.mk "t1" "Buy milk today" None false 10 60 false st_pending
    (Some "srv_1"%string) (Some 40%Z).

Definition conflict_bare : ProcessedItem.t :=
  ProcessedItem.mk "t1" None r_conflict (Some task_oat_milk) None.

Definition world_edited : World :=
  mkWorld (mkDatabase [task_milk_edited] [entry_update]) 0 [].

Definition success_bare : ProcessedItem.t :=
  ProcessedItem.mk "t1" None r_success None None.

(** Stand-ins for the payload lookup and the random suffix of the echo
    endpoint. *)
Definition ex_data_server_id (data : string) : option string := None.

Definition ex_random_suffix (k j : nat) : string := "a1b2c3".

(** Vocabulary of the failure paths *)

(** What one failure of the drained copy [item] does to a Change Log row:
    the row with the id of [item] gets the [retry_count] of the copy plus
    one and the message; every other row is left as it is. *)
Definition failed_by (item : SyncQueueItem.t) (message : string)
    (row row' : SyncQueueItem.t) : Prop :=
  (SyncQueueItem.id row = SyncQueueItem.id item /\
   row' = set_failed (SyncQueueItem.retry_count item + 1) message row) \/
  (SyncQueueItem.id row <> SyncQueueItem.id item /\ row' = row).

(** What the failure of every entry of [batch] does to a Change Log row: a
    row whose id an entry of the batch has gets the [retry_count] of such an
    entry plus one and the message; a row of no entry of the batch is left as
    it is. *)
Definition failed_by_batch (batch : list SyncQueueItem.t) (message : string)
    (row row' : SyncQueueItem.t) : Prop :=
  (exists item, In item batch /\
     SyncQueueItem.id item = SyncQueueItem.id row /\
     row' = set_failed (SyncQueueItem.retry_count item + 1) message row) \/
  ((forall item, In item batch -> SyncQueueItem.id item <> SyncQueueItem.id row) /\
   row' = row).

Definition is_some {A : Type} (o : option A) : bool :=
  match o with
  | Some _ => true
  | None => false
  end.

(** The Record Store has a row of the record [t] that is not soft-deleted:
    what the lookup of [getTask] needs. *)
Definition has_live_record (t : string) (d : Database) : bool :=
  existsb (fun row => task_has_id t row && negb (Task.is_deleted row)) (tasks d).

(** The failures among the outcomes of a pass, read off its exchanges; [d]
    is the database at the start of the pass. An outcome of a response is a
    failure when it matches an entry of its batch and is an [error], or a
    [conflict] without [resolved_data] or for a record with no live row; it
    is reported with the text of the branch. *)
Definition failures_of_outcome (d : Database) (batch : list SyncQueueItem.t)
    (processed : ProcessedItem.t) : list (string * Operation * string) :=
  match find (entry_of_task (ProcessedItem.client_id processed)) batch with
  | None => []
  | Some item =>
      match ProcessedItem.status processed with
      | r_success => []
      | r_conflict =>
          if has_live_record (SyncQueueItem.task_id item) d
             && is_some (ProcessedItem.resolved_data processed)
          then []
          else [(SyncQueueItem.task_id item, SyncQueueItem.operation item,
                 "Conflict"%string)]
      | r_error =>
          [(SyncQueueItem.task_id item, SyncQueueItem.operation item,
            or_else (ProcessedItem.error processed) "error")]
      end
  end.

(** The outcomes of a response that count as synced. *)
Definition successes_of_outcome (d : Database) (batch : list SyncQueueItem.t)
    (processed : ProcessedItem.t) : nat :=
  match find (entry_of_task (ProcessedItem.client_id processed)) batch with
  | None => 0
  | Some item =>
      match ProcessedItem.status processed with
      | r_success => 1
      | r_conflict =>
          if has_live_record (SyncQueueItem.task_id item) d
             && is_some (ProcessedItem.resolved_data processed)
          then 1
          else 0
      | r_error => 0
      end
  end.

(** The failures of one exchange: every entry of the batch when the exchange
    threw, the failed outcomes of the response otherwise. *)
Definition failures_of_exchange (d : Database)
    (x : BatchSyncRequest.t * ExchangeResult) : list (string * Operation * string) :=
  match snd x with
  | inl message =>
      map (fun item => (SyncQueueItem.task_id item, SyncQueueItem.operation item,
                        or_else (Some message) "error"))
        (BatchSyncRequest.items (fst x))
  | inr response =>
      flat_map (failures_of_outcome d (BatchSyncRequest.items (fst x)))
        (BatchSyncResponse.processed_items response)
  end.

Definition successes_of_exchange (d : Database)
    (x : BatchSyncRequest.t * ExchangeResult) : nat :=
  match snd x with
  | inl _ => 0
  | inr response =>
      list_sum (map (successes_of_outcome d (BatchSyncRequest.items (fst x)))
                  (BatchSyncResponse.processed_items response))
  end.

(** The exchanges between two worlds, requests and answers. *)
Definition exchanges (w w' : World) : list (BatchSyncRequest.t * ExchangeResult) :=
  skipn (List.length (sent w)) (sent w').

Definition failures_of_pass (w w' : World) : list (string * Operation * string) :=
  flat_map (failures_of_exchange (db w)) (exchanges w w').

Definition successes_of_pass (w w' : World) : nat :=
  list_sum (map (successes_of_exchange (db w)) (exchanges w w')).

(** Every exchange between the two worlds got the answer of the remote
    authority to its request. *)
Definition answered_by (remote : nat -> BatchSyncRequest.t -> ExchangeResult)
    (w w' : World) : Prop :=
  forall k x, nth_error (exchanges w w') k = Some x ->
    snd x = remote (List.length (sent w) + k) (fst x).

(** The world [w] of a pass that began with the database [d0]: the records
    with a live row are those of [d0]. *)
Definition live_as_at (d0 : Database) (w : World) : Prop :=
  forall t, has_live_record t (db w) = has_live_record t d0.

(** Scenarios of the failure paths *)

(** The entry of a local delete. *)
Definition entry_delete : SyncQueueItem.t :=
  SyncQueueItem.mk "q3" "t1" op_delete "{}" 30 0 None.

(** The record created and then soft-deleted before any pass. *)
Definition world_created_then_deleted : World :=
  mkWorld (mkDatabase [task_milk_deleted] [entry_create; entry_delete]) 0 [].

(** The remote authority answers every call with the outcomes [outcomes]. *)
Definition remote_answering (outcomes : list ProcessedItem.t)
    (k : nat) (req : BatchSyncRequest.t) : ExchangeResult :=
  inr (BatchSyncResponse.mk outcomes).

(** ** Basic facts about the SQL statements and the JavaScript operators *)

Lemma find_none_iff {A : Type} (p : A -> bool) (l : list A) :
  find p l = None <-> (forall x, In x l -> p x = false).
Proof.
  split.
  - intros H x Hx. exact (find_none p l H x Hx).
  - induction l as [|a l IH]; intros H; simpl.
    + reflexivity.
    + rewrite (H a (or_introl eq_refl)). apply IH.
      intros x Hx. apply H. now right.
Qed.

Lemma sql_update_length {A : Type} (p : A -> bool) (f : A -> A) (rows : list A) :
  List.length (sql_update p f rows) = List.length rows.
Proof. unfold sql_update. apply length_map. Qed.

Lemma sql_update_In {A : Type} (p : A -> bool) (f : A -> A) (rows : list A) r' :
  In r' (sql_update p f rows) <->
  exists r, In r rows /\ r' = (if p r then f r else r).
Proof.
  unfold sql_update. rewrite in_map_iff. split; intros [r [H1 H2]]; exists r; auto.
Qed.

Lemma sql_delete_In {A : Type} (p : A -> bool) (rows : list A) r :
  In r (sql_delete p rows) <-> In r rows /\ p r = false.
Proof.
  unfold sql_delete. rewrite filter_In, negb_true_iff. tauto.
Qed.

(** ** The drain is the whole Change Log, in creation-time order *)

Lemma insert_by_created_at_perm r rows :
  Permutation (r :: rows) (insert_by_created_at r rows).
Proof.
  induction rows as [|x rest IH]; simpl.
  - apply Permutation_refl.
  - destruct (SyncQueueItem.created_at r <=? SyncQueueItem.created_at x)%Z.
    + apply Permutation_refl.
    + eapply perm_trans; [apply perm_swap|]. now apply perm_skip.
Qed.

Lemma order_by_created_at_perm rows :
  Permutation rows (order_by_created_at rows).
Proof.
  induction rows as [|x rest IH]; simpl.
  - constructor.
  - eapply perm_trans; [|apply insert_by_created_at_perm]. now apply perm_skip.
Qed.

Lemma insert_by_created_at_sorted r rows :
  Sorted created_le rows -> Sorted created_le (insert_by_created_at r rows).
Proof.
  induction rows as [|x rest IH]; simpl; intros Hs.
  - repeat constructor.
  - destruct (SyncQueueItem.created_at r <=? SyncQueueItem.created_at x)%Z eqn:E.
    + constructor; [assumption|]. constructor. unfold created_le.
      apply Z.leb_le in E. exact E.
    + apply Z.leb_gt in E. inversion Hs as [|? ? Hrest Hhd]; subst.
      assert (Hxr : created_le x r) by (unfold created_le; lia).
      constructor; [now apply IH|].
      destruct rest as [|y rest']; simpl.
      * constructor. exact Hxr.
      * destruct (SyncQueueItem.created_at r <=? SyncQueueItem.created_at y)%Z.
        -- constructor. exact Hxr.
        -- inversion Hhd; subst. now constructor.
Qed.

Lemma order_by_created_at_sorted rows :
  Sorted created_le (order_by_created_at rows).
Proof.
  induction rows as [|x rest IH]; simpl.
  - constructor.
  - now apply insert_by_created_at_sorted.
Qed.

Lemma created_le_trans : Relations_1.Transitive created_le.
Proof. intros a b c; unfold created_le; lia. Qed.

Lemma item_of_row_created_at row :
  SyncQueueItem.created_at (item_of_row row) = SyncQueueItem.created_at row.
Proof. reflexivity. Qed.

Lemma map_item_of_row_sorted rows :
  StronglySorted created_le rows -> StronglySorted created_le (map item_of_row rows).
Proof.
  induction 1 as [|a l Hs IH Hall]; simpl; constructor; auto.
  rewrite Forall_forall in *. intros x Hx.
  apply in_map_iff in Hx. destruct Hx as [y [<- Hy]].
  unfold created_le. rewrite !item_of_row_created_at. now apply Hall.
Qed.

Lemma drain_sorted d : StronglySorted created_le (drain d).
Proof.
  unfold drain. apply map_item_of_row_sorted.
  apply Sorted_StronglySorted; [exact created_le_trans|].
  apply order_by_created_at_sorted.
Qed.

Lemma drain_perm d : Permutation (map item_of_row (sync_queue d)) (drain d).
Proof. unfold drain. apply Permutation_map. apply order_by_created_at_perm. Qed.

Lemma drain_every_row d row :
  In row (sync_queue d) -> In (item_of_row row) (drain d).
Proof.
  intros H. eapply Permutation_in; [apply drain_perm|]. now apply in_map.
Qed.

Lemma drain_empty d : sync_queue d = [] -> drain d = [].
Proof. unfold drain. now intros ->. Qed.

(** ** What each method does to the world *)

Lemma bind_run {A B : Type} (m : M A) (k : A -> M B) (w : World) :
  bind m k w = k (fst (m w)) (snd (m w)).
Proof. unfold bind. now destruct (m w). Qed.

Lemma for_each_app {A S : Type} (xs ys : list A) (body : A -> S -> M S) acc w :
  for_each (xs ++ ys) body acc w =
  for_each ys body (fst (for_each xs body acc w)) (snd (for_each xs body acc w)).
Proof.
  revert acc w. induction xs as [|x xs IH]; intros acc w; simpl.
  - reflexivity.
  - rewrite !bind_run. apply IH.
Qed.

(** An invariant of the loop body is an invariant of the loop. *)
Lemma for_each_invariant {A S : Type} (P : S -> World -> Prop)
    (xs : list A) (body : A -> S -> M S) :
  (forall x acc w, In x xs -> P acc w ->
     P (fst (body x acc w)) (snd (body x acc w))) ->
  forall acc w, P acc w ->
    P (fst (for_each xs body acc w)) (snd (for_each xs body acc w)).
Proof.
  induction xs as [|x xs IH]; intros Hbody acc w HP; simpl.
  - exact HP.
  - rewrite bind_run. apply IH.
    + intros y acc' w' Hy. apply Hbody. now right.
    + apply Hbody; [now left|exact HP].
Qed.

Section Runs.

Variable clock : nat -> Z.
Variable remote : nat -> BatchSyncRequest.t -> ExchangeResult.

Lemma updateSyncStatus_synced_run taskId sid w :
  updateSyncStatus clock taskId st_synced (Some sid) w =
  (tt, after_success clock taskId sid w).
Proof. reflexivity. Qed.

Lemma handleSyncError_run item message w :
  handleSyncError clock item message w =
  (tt, mkWorld
         (mkDatabase
            (if escalates item
             then sql_update (task_has_id (SyncQueueItem.task_id item))
                    set_sync_error (tasks (db w))
             else tasks (db w))
            (sql_update (entry_has_id (SyncQueueItem.id item))
               (set_failed (SyncQueueItem.retry_count item + 1) message)
               (sync_queue (db w))))
         (if escalates item then S (ticks w) else ticks w)
         (sent w)).
Proof.
  unfold handleSyncError, escalates, bind, run_queue.
  destruct (3 <=? SyncQueueItem.retry_count item + 1); reflexivity.
Qed.

Lemma failure_run item message text acc w :
  (handleSyncError clock item message ;; record_failure clock item text acc) w =
  after_failure clock item message text acc w.
Proof.
  rewrite bind_run. unfold after_failure.
  rewrite handleSyncError_run. reflexivity.
Qed.

Lemma fail_item_run message item acc w :
  fail_item clock message item acc w =
  after_failure clock item message (or_else (Some message) "error") acc w.
Proof. unfold fail_item. apply failure_run. Qed.

Lemma after_failure_db item message text acc w :
  db (snd (after_failure clock item message text acc w)) = failure_db item message (db w).
Proof. unfold after_failure. rewrite handleSyncError_run. reflexivity. Qed.


Lemma after_failure_sent item message text acc w :
  sent (snd (after_failure clock item message text acc w)) = sent w.
Proof. unfold after_failure. rewrite handleSyncError_run. reflexivity. Qed.

(** [process_item], case by case. *)

Lemma process_item_unmatched batch processed acc w :
  find (entry_of_task (ProcessedItem.client_id processed)) batch = None ->
  process_item clock batch processed acc w = (acc, w).
Proof. intros H. unfold process_item. now rewrite H. Qed.

Lemma process_item_success batch processed item acc w :
  find (entry_of_task (ProcessedItem.client_id processed)) batch = Some item ->
  ProcessedItem.status processed = r_success ->
  process_item clock batch processed acc w =
  (mkTally (synced acc + 1) (failed acc) (errors acc),
   after_success clock (SyncQueueItem.task_id item)
     (ProcessedItem.server_id processed) w).
Proof. intros Hf Hs. unfold process_item. rewrite Hf, Hs. reflexivity. Qed.

Lemma process_item_error batch processed item acc w :
  find (entry_of_task (ProcessedItem.client_id processed)) batch = Some item ->
  ProcessedItem.status processed = r_error ->
  process_item clock batch processed acc w =
  after_failure clock item (or_else (ProcessedItem.error processed) "Sync error")
    (or_else (ProcessedItem.error processed) "error") acc w.
Proof.
  intros Hf Hs. unfold process_item. rewrite Hf, Hs. apply failure_run.
Qed.

Lemma process_item_conflict_unresolvable batch processed item acc w :
  find (entry_of_task (ProcessedItem.client_id processed)) batch = Some item ->
  ProcessedItem.status processed = r_conflict ->
  fst (getTask (SyncQueueItem.task_id item) w) = None \/
  ProcessedItem.resolved_data processed = None ->
  process_item clock batch processed acc w =
  after_failure clock item "Conflict without resolvable data" "Conflict" acc w.
Proof.
  intros Hf Hs Hno. unfold process_item. rewrite Hf, Hs.
  rewrite bind_run. unfold getTask, get_task in *. simpl in *.
  destruct Hno as [-> | ->].
  - apply failure_run.
  - destruct (find _ (tasks (db w))); apply failure_run.
Qed.

Lemma process_item_conflict_resolved batch processed item local serverTask acc w :
  find (entry_of_task (ProcessedItem.client_id processed)) batch = Some item ->
  ProcessedItem.status processed = r_conflict ->
  fst (getTask (SyncQueueItem.task_id item) w) = Some local ->
  ProcessedItem.resolved_data processed = Some serverTask ->
  process_item clock batch processed acc w =
  (mkTally (synced acc + 1) (failed acc) (errors acc),
   after_resolution clock local (fst (resolveConflict local serverTask w))
     (nullish (Task.server_id serverTask) (ProcessedItem.server_id processed)) w).
Proof.
  intros Hf Hs Hl Hr. unfold process_item. rewrite Hf, Hs.
  rewrite bind_run. unfold getTask, get_task in *. simpl in *.
  rewrite Hl, Hr. reflexivity.
Qed.

Lemma process_item_outcome batch processed acc w :
  item_outcome clock batch processed acc w (process_item clock batch processed acc w).
Proof.
  destruct (find (entry_of_task (ProcessedItem.client_id processed)) batch)
    as [item|] eqn:Hf.
  - destruct (ProcessedItem.status processed) eqn:Hs.
    + rewrite (process_item_success _ _ _ _ _ Hf Hs). eapply out_synced; eassumption.
    + destruct (fst (getTask (SyncQueueItem.task_id item) w)) as [local|] eqn:Hl.
      * destruct (ProcessedItem.resolved_data processed) as [serverTask|] eqn:Hr.
        -- rewrite (process_item_conflict_resolved _ _ _ _ _ _ _ Hf Hs Hl Hr).
           eapply out_resolved; eassumption.
        -- rewrite (process_item_conflict_unresolvable _ _ _ _ _ Hf Hs (or_intror Hr)).
           eapply out_failed; exact Hf.
      * rewrite (process_item_conflict_unresolvable _ _ _ _ _ Hf Hs (or_introl Hl)).
        eapply out_failed; exact Hf.
    + rewrite (process_item_error _ _ _ _ _ Hf Hs). eapply out_failed; exact Hf.
  - rewrite (process_item_unmatched _ _ _ _ Hf). now apply out_skipped.
Qed.

End Runs.

(** ** Lookups *)

Lemma task_has_id_true id row : task_has_id id row = true <-> Task.id row = id.
Proof. unfold task_has_id. apply String.eqb_eq. Qed.

Lemma task_has_id_false id row : task_has_id id row = false <-> Task.id row <> id.
Proof. unfold task_has_id. apply String.eqb_neq. Qed.

Lemma entry_has_id_true id q : entry_has_id id q = true <-> SyncQueueItem.id q = id.
Proof. unfold entry_has_id. apply String.eqb_eq. Qed.

Lemma entry_of_task_true t q : entry_of_task t q = true <-> SyncQueueItem.task_id q = t.
Proof. unfold entry_of_task. apply String.eqb_eq. Qed.

Lemma entry_of_task_false t q : entry_of_task t q = false <-> SyncQueueItem.task_id q <> t.
Proof. unfold entry_of_task. apply String.eqb_neq. Qed.

Lemma find_entry_some t batch item :
  find (entry_of_task t) batch = Some item ->
  In item batch /\ SyncQueueItem.task_id item = t.
Proof.
  intros H. apply find_some in H. now rewrite entry_of_task_true in H.
Qed.

Lemma find_entry_none t batch :
  find (entry_of_task t) batch = None <->
  (forall b, In b batch -> SyncQueueItem.task_id b <> t).
Proof.
  rewrite find_none_iff. split; intros H b Hb.
  - apply entry_of_task_false. now apply H.
  - apply entry_of_task_false. now apply H.
Qed.

Lemma getTask_some id w local :
  fst (getTask id w) = Some local ->
  In local (tasks (db w)) /\ Task.id local = id /\ Task.is_deleted local = false.
Proof.
  unfold getTask, get_task. simpl. intros H. apply find_some in H.
  destruct H as [Hin H]. apply andb_true_iff in H. destruct H as [H1 H2].
  apply task_has_id_true in H1. apply negb_true_iff in H2. auto.
Qed.

Lemma getTask_none id w :
  fst (getTask id w) = None <->
  (forall row, In row (tasks (db w)) -> Task.id row = id -> Task.is_deleted row = true).
Proof.
  unfold getTask, get_task. simpl. rewrite find_none_iff.
  split; intros H row Hrow.
  - intros Hid. specialize (H row Hrow).
    apply andb_false_iff in H. destruct H as [H|H].
    + apply task_has_id_false in H. contradiction.
    + now apply negb_false_iff in H.
  - destruct (task_has_id id row) eqn:E; simpl; [|reflexivity].
    apply task_has_id_true in E. now rewrite (H row Hrow E).
Qed.

(** ** The pass as a whole: counters, exchanges, termination *)

Lemma ceil_div_spec n b :
  0 < b -> n <= ceil_div n b * b /\ (forall k, n <= k * b -> ceil_div n b <= k).
Proof.
  intros Hb. unfold ceil_div. split.
  - pose proof (Nat.div_mod_eq (n + b - 1) b) as E.
    assert (U : (n + b - 1) mod b < b) by (apply Nat.mod_upper_bound; lia).
    revert E U. generalize ((n + b - 1) / b), ((n + b - 1) mod b).
    intros q r E U. nia.
  - intros k Hk. apply Nat.lt_succ_r. apply Nat.Div0.div_lt_upper_bound. nia.
Qed.

Lemma ceil_div_zero b : 0 < b -> ceil_div 0 b = 0.
Proof. intros Hb. unfold ceil_div. apply Nat.div_small. lia. Qed.

Lemma ceil_div_step n b :
  0 < b -> 0 < n -> ceil_div n b = S (ceil_div (n - b) b).
Proof.
  intros Hb Hn.
  destruct (ceil_div_spec n b Hb) as [U1 L1].
  destruct (ceil_div_spec (n - b) b Hb) as [U2 L2].
  apply Nat.le_antisymm.
  - apply L1. simpl. lia.
  - destruct (ceil_div n b) as [|k] eqn:E; [simpl in U1; lia|].
    apply le_n_S. apply L2. simpl in U1. lia.
Qed.

Section Pass.

Variable clock : nat -> Z.
Variable remote : nat -> BatchSyncRequest.t -> ExchangeResult.

Lemma process_item_sent batch processed acc w :
  sent (snd (process_item clock batch processed acc w)) = sent w.
Proof.
  pose proof (process_item_outcome clock batch processed acc w) as H.
  remember (process_item clock batch processed acc w) as r eqn:E.
  destruct H; try reflexivity. apply after_failure_sent.
Qed.

Lemma process_item_tally_ok batch processed acc w :
  tally_ok acc -> tally_ok (fst (process_item clock batch processed acc w)).
Proof.
  intros Hok.
  pose proof (process_item_outcome clock batch processed acc w) as H.
  remember (process_item clock batch processed acc w) as r eqn:E.
  destruct H; try exact Hok.
  unfold tally_ok in *. simpl. rewrite length_app. simpl. lia.
Qed.

Lemma fail_item_sent message item acc w :
  sent (snd (fail_item clock message item acc w)) = sent w.
Proof. rewrite fail_item_run. apply after_failure_sent. Qed.

Lemma fail_item_tally_ok message item acc w :
  tally_ok acc -> tally_ok (fst (fail_item clock message item acc w)).
Proof.
  intros Hok. rewrite fail_item_run.
  unfold tally_ok in *. simpl. rewrite length_app. simpl. lia.
Qed.

Lemma handle_response_sent batch items acc w :
  sent (snd (for_each items (process_item clock batch) acc w)) = sent w.
Proof.
  apply (for_each_invariant (fun _ w' => sent w' = sent w)); [|reflexivity].
  intros x acc' w' _ H. now rewrite process_item_sent.
Qed.

Lemma fail_batch_sent message batch acc w :
  sent (snd (for_each batch (fail_item clock message) acc w)) = sent w.
Proof.
  apply (for_each_invariant (fun _ w' => sent w' = sent w)); [|reflexivity].
  intros x acc' w' _ H. now rewrite fail_item_sent.
Qed.

Lemma processBatch_run batch w :
  processBatch clock remote batch w =
  (answer_of clock remote batch w,
   mkWorld (db w) (S (ticks w))
     (sent w ++ [(request_of clock batch w, answer_of clock remote batch w)])).
Proof. reflexivity. Qed.

Lemma run_batch_run batch acc w :
  run_batch clock remote batch acc w =
  let w1 := mkWorld (db w) (S (ticks w))
              (sent w ++ [(request_of clock batch w, answer_of clock remote batch w)]) in
  match answer_of clock remote batch w with
  | inr response =>
      for_each (BatchSyncResponse.processed_items response)
        (process_item clock batch) acc w1
  | inl message => for_each batch (fail_item clock message) acc w1
  end.
Proof.
  unfold run_batch. rewrite bind_run, processBatch_run. cbn [fst snd].
  now destruct (answer_of clock remote batch w).
Qed.

Lemma run_batch_sent batch acc w :
  sent (snd (run_batch clock remote batch acc w)) =
  sent w ++ [(request_of clock batch w, answer_of clock remote batch w)].
Proof.
  rewrite run_batch_run. cbv zeta.
  destruct (answer_of clock remote batch w) as [message|response].
  - now rewrite fail_batch_sent.
  - now rewrite handle_response_sent.
Qed.

Lemma run_batch_tally_ok batch acc w :
  tally_ok acc -> tally_ok (fst (run_batch clock remote batch acc w)).
Proof.
  intros Hok. rewrite run_batch_run. cbv zeta.
  destruct (answer_of clock remote batch w) as [message|response].
  - apply (for_each_invariant (fun a _ => tally_ok a)); [|exact Hok].
    intros x a w' _. apply fail_item_tally_ok.
  - apply (for_each_invariant (fun a _ => tally_ok a)); [|exact Hok].
    intros x a w' _. apply process_item_tally_ok.
Qed.

Lemma sync_loop_step fuel batchSize allItems i acc w :
  sync_loop clock remote (S fuel) batchSize allItems i acc w =
  if i <? List.length allItems
  then sync_loop clock remote fuel batchSize allItems (i + batchSize)
         (fst (run_batch clock remote (slice allItems i (i + batchSize)) acc w))
         (snd (run_batch clock remote (slice allItems i (i + batchSize)) acc w))
  else (Some acc, w).
Proof.
  simpl. destruct (i <? List.length allItems); [|reflexivity].
  now rewrite bind_run.
Qed.

Lemma slice_batch {A : Type} (l : list A) i b :
  slice l i (i + b) = firstn b (skipn i l).
Proof. unfold slice. f_equal. lia. Qed.

(** With a positive batch size the loop ends, and keeps the counters and the
    error list in step. *)
Lemma sync_loop_returns batchSize allItems :
  0 < batchSize ->
  forall fuel i acc w,
    List.length allItems - i < fuel -> tally_ok acc ->
    exists acc' w',
      sync_loop clock remote fuel batchSize allItems i acc w = (Some acc', w') /\
      tally_ok acc'.
Proof.
  intros Hb. induction fuel as [|fuel IH]; intros i acc w Hfuel Hok; [lia|].
  rewrite sync_loop_step. destruct (i <? List.length allItems) eqn:E.
  - apply Nat.ltb_lt in E. apply IH; [lia|]. now apply run_batch_tally_ok.
  - eauto.
Qed.

(** The exchanges of the loop: consecutive chunks of the remaining items. *)
Lemma sync_loop_exchanges batchSize allItems :
  0 < batchSize ->
  forall fuel i acc w acc' w',
    sync_loop clock remote fuel batchSize allItems i acc w = (Some acc', w') ->
    exists log,
      sent w' = sent w ++ log /\
      List.concat (map (fun x => BatchSyncRequest.items (fst x)) log) = skipn i allItems /\
      Forall (fun x => List.length (BatchSyncRequest.items (fst x)) <= batchSize) log /\
      List.length log = ceil_div (List.length allItems - i) batchSize.
Proof.
  intros Hb. induction fuel as [|fuel IH]; intros i acc w acc' w' Hrun;
    [discriminate|].
  rewrite sync_loop_step in Hrun. destruct (i <? List.length allItems) eqn:E.
  - apply Nat.ltb_lt in E. apply IH in Hrun.
    destruct Hrun as [log [Hsent [Hcat [Hall Hlen]]]].
    rewrite run_batch_sent in Hsent.
    exists ((request_of clock (slice allItems i (i + batchSize)) w,
             answer_of clock remote (slice allItems i (i + batchSize)) w) :: log).
    split; [now rewrite Hsent, <- app_assoc|]. split; [|split].
    + simpl. rewrite Hcat, slice_batch.
      replace (i + batchSize) with (batchSize + i) by lia.
      rewrite <- skipn_skipn. apply firstn_skipn.
    + constructor; [|exact Hall]. simpl. rewrite slice_batch.
      rewrite length_firstn. lia.
    + simpl. rewrite Hlen.
      rewrite (ceil_div_step (List.length allItems - i) batchSize) by lia.
      do 2 f_equal. lia.
  - apply Nat.ltb_ge in E. inversion Hrun; subst. exists []. repeat split.
    + now rewrite app_nil_r.
    + simpl. symmetry. now apply skipn_all2.
    + constructor.
    + simpl. replace (List.length allItems - i) with 0 by lia.
      symmetry. now apply ceil_div_zero.
Qed.

End Pass.

Lemma drain_length d : List.length (drain d) = List.length (sync_queue d).
Proof.
  rewrite <- (Permutation_length (drain_perm d)). apply length_map.
Qed.

Lemma sync_run clock remote fuel batchSize w :
  sync clock remote fuel batchSize w =
  (option_map result_of
     (fst (sync_loop clock remote fuel batchSize (drain (db w)) 0 (mkTally 0 0 []) w)),
   snd (sync_loop clock remote fuel batchSize (drain (db w)) 0 (mkTally 0 0 []) w)).
Proof.
  unfold sync. rewrite bind_run. unfold all_queue. cbn [fst snd].
  rewrite bind_run. reflexivity.
Qed.

Lemma exchanged_app w w' log :
  sent w' = sent w ++ log ->
  exchanged w w' = map (fun x => BatchSyncRequest.items (fst x)) log.
Proof.
  intros H. unfold exchanged. rewrite H, skipn_app, Nat.sub_diag, skipn_all.
  reflexivity.
Qed.

(** With batch size 0 the index never moves: over a non-empty Change Log
    the loop does not end, whatever the fuel. *)
Lemma sync_loop_zero_batch_size clock remote allItems :
  allItems <> [] ->
  forall fuel acc w,
    fst (sync_loop clock remote fuel 0 allItems 0 acc w) = None.
Proof.
  intros Hne. induction fuel as [|fuel IH]; intros acc w; [reflexivity|].
  rewrite sync_loop_step.
  destruct allItems as [|x rest]; [contradiction|]. simpl Nat.ltb.
  apply IH.
Qed.

(** A pass with a positive batch size and enough fuel: it returns, and its
    exchanges are the chunks of the drain. *)
Lemma sync_pass_exchanges clock remote fuel batchSize w :
  0 < batchSize ->
  List.length (sync_queue (db w)) < fuel ->
  exists result w',
    sync clock remote fuel batchSize w = (Some result, w') /\
    List.length (exchanged w w') =
      ceil_div (List.length (sync_queue (db w))) batchSize /\
    Forall (fun batch => List.length batch <= batchSize) (exchanged w w') /\
    List.concat (exchanged w w') = drain (db w).
Proof.
  intros Hb Hfuel.
  destruct (sync_loop_returns clock remote batchSize (drain (db w)) Hb fuel 0
              (mkTally 0 0 []) w) as [acc' [w' [Hrun _]]].
  { rewrite drain_length. lia. }
  { reflexivity. }
  exists (result_of acc'), w'.
  rewrite sync_run, Hrun. split; [reflexivity|].
  destruct (sync_loop_exchanges clock remote batchSize (drain (db w)) Hb
              _ _ _ _ _ _ Hrun) as [log [Hsent [Hcat [Hall Hlen]]]].
  rewrite (exchanged_app _ _ _ Hsent).
  rewrite length_map, Hlen, Nat.sub_0_r, drain_length.
  split; [reflexivity|]. split; [|exact Hcat].
  rewrite Forall_map. exact Hall.
Qed.

(** ** The failure path *)

Lemma set_failed_marked item message row :
  SyncQueueItem.retry_count row = SyncQueueItem.retry_count item ->
  set_failed (SyncQueueItem.retry_count item + 1) message row = marked_failed message row.
Proof. intros H. unfold set_failed, marked_failed. now rewrite H. Qed.

Lemma failure_db_marks item message d row :
  In row (sync_queue d) ->
  SyncQueueItem.id row = SyncQueueItem.id item ->
  SyncQueueItem.retry_count row = SyncQueueItem.retry_count item ->
  In (marked_failed message row) (sync_queue (failure_db item message d)).
Proof.
  intros Hin Hid Hretry. simpl. apply sql_update_In. exists row. split; [exact Hin|].
  apply entry_has_id_true in Hid. rewrite Hid. symmetry.
  now apply set_failed_marked.
Qed.

Lemma failure_db_other_rows item message d row :
  In row (sync_queue d) ->
  SyncQueueItem.id row <> SyncQueueItem.id item ->
  In row (sync_queue (failure_db item message d)).
Proof.
  intros Hin Hid. simpl. apply sql_update_In. exists row. split; [exact Hin|].
  unfold entry_has_id. apply String.eqb_neq in Hid. now rewrite Hid.
Qed.

Lemma failure_db_queue_length item message d :
  List.length (sync_queue (failure_db item message d)) = List.length (sync_queue d).
Proof. simpl. apply sql_update_length. Qed.

Lemma same_payload_refl a : same_payload a a.
Proof. unfold same_payload. repeat split. Qed.

Lemma same_payload_trans a b c : same_payload a b -> same_payload b c -> same_payload a c.
Proof.
  unfold same_payload. intros H1 H2.
  destruct H1 as (?&?&?&?&?&?&?&?&?). destruct H2 as (?&?&?&?&?&?&?&?&?).
  repeat split; congruence.
Qed.

Lemma same_payload_error a : same_payload a (set_sync_error a).
Proof. unfold same_payload. repeat split. Qed.

Lemma sql_update_Forall2 {A : Type} (R : A -> A -> Prop) (p : A -> bool) (f : A -> A) rows :
  (forall r, R r r) -> (forall r, R r (f r)) -> Forall2 R rows (sql_update p f rows).
Proof.
  intros Hrefl Hf. induction rows as [|r rows IH]; simpl; constructor; auto.
  destruct (p r); auto.
Qed.

Lemma Forall2_same_payload_refl rows : Forall2 same_payload rows rows.
Proof. induction rows; constructor; auto using same_payload_refl. Qed.

Lemma Forall2_same_payload_trans l1 l2 l3 :
  Forall2 same_payload l1 l2 -> Forall2 same_payload l2 l3 -> Forall2 same_payload l1 l3.
Proof.
  intros H. revert l3. induction H; intros l3 H3; inversion H3; subst; constructor.
  - eapply same_payload_trans; eassumption.
  - auto.
Qed.

(** A failure writes no field of a record but, on escalation, [sync_status]. *)
Lemma failure_db_payload item message d :
  Forall2 same_payload (tasks d) (tasks (failure_db item message d)).
Proof.
  simpl. destruct (escalates item).
  - apply sql_update_Forall2; auto using same_payload_refl, same_payload_error.
  - apply Forall2_same_payload_refl.
Qed.

Lemma failure_db_escalation item message d row :
  3 <= SyncQueueItem.retry_count item + 1 ->
  In row (tasks (failure_db item message d)) ->
  Task.id row = SyncQueueItem.task_id item ->
  Task.sync_status row = st_error.
Proof.
  intros H3 Hin Hid. simpl in Hin. unfold escalates in Hin.
  apply Nat.leb_le in H3. rewrite H3 in Hin.
  apply sql_update_In in Hin. destruct Hin as [r [_ ->]].
  destruct (task_has_id (SyncQueueItem.task_id item) r) eqn:E; [reflexivity|].
  apply task_has_id_false in E. contradiction.
Qed.


(** ** A batch that fails as a whole *)

Lemma NoDup_map_inj {A B : Type} (f : A -> B) (l : list A) a b :
  NoDup (map f l) -> In a l -> In b l -> f a = f b -> a = b.
Proof.
  induction l as [|x l IH]; simpl; intros Hnd Ha Hb Hf; [contradiction|].
  inversion Hnd as [|? ? Hnotin Hnd']; subst.
  destruct Ha as [->|Ha]; destruct Hb as [->|Hb]; auto.
  - exfalso. apply Hnotin. rewrite Hf. now apply in_map.
  - exfalso. apply Hnotin. rewrite <- Hf. now apply in_map.
Qed.

Lemma fold_failure_queue message batch d :
  sync_queue (fold_left (fun d item => failure_db item message d) batch d) =
  map (retried message batch) (sync_queue d).
Proof.
  revert d. induction batch as [|item batch IH]; intros d; simpl.
  - symmetry. apply map_id.
  - rewrite IH. simpl. unfold sql_update. rewrite map_map. reflexivity.
Qed.

Lemma fold_failure_payload message batch d :
  Forall2 same_payload (tasks d)
    (tasks (fold_left (fun d item => failure_db item message d) batch d)).
Proof.
  revert d. induction batch as [|item batch IH]; intros d; simpl.
  - apply Forall2_same_payload_refl.
  - eapply Forall2_same_payload_trans; [apply (failure_db_payload item message)|].
    apply IH.
Qed.

Lemma retried_cons message item batch r :
  retried message (item :: batch) r =
  retried message batch
    (if String.eqb (SyncQueueItem.id r) (SyncQueueItem.id item)
     then set_failed (SyncQueueItem.retry_count item + 1) message r
     else r).
Proof. reflexivity. Qed.

Lemma retried_stable message batch row r :
  r = row \/ r = marked_failed message row ->
  (forall item, In item batch ->
     SyncQueueItem.id item = SyncQueueItem.id row ->
     SyncQueueItem.retry_count item = SyncQueueItem.retry_count row) ->
  retried message batch r =
  if existsb (fun item => String.eqb (SyncQueueItem.id row) (SyncQueueItem.id item)) batch
  then marked_failed message row
  else r.
Proof.
  revert r. induction batch as [|item batch IH]; intros r Hr Hsame.
  - reflexivity.
  - assert (Hid : SyncQueueItem.id r = SyncQueueItem.id row)
      by (destruct Hr as [->| ->]; reflexivity).
    rewrite retried_cons, Hid. simpl existsb.
    destruct (String.eqb (SyncQueueItem.id row) (SyncQueueItem.id item)) eqn:E.
    + apply String.eqb_eq in E.
      assert (Hrc : SyncQueueItem.retry_count item = SyncQueueItem.retry_count row)
        by (apply Hsame; [now left|now symmetry]).
      assert (Hset : set_failed (SyncQueueItem.retry_count item + 1) message r =
                     marked_failed message row).
      { rewrite Hrc. destruct Hr as [->| ->]; reflexivity. }
      rewrite Hset, IH.
      * simpl. now destruct (existsb _ batch).
      * now right.
      * intros it Hit. apply Hsame. now right.
    + simpl. apply IH; [exact Hr|]. intros it Hit. apply Hsame. now right.
Qed.

Section BatchFailure.

Variable clock : nat -> Z.

Lemma fail_batch_db message batch acc w :
  db (snd (for_each batch (fail_item clock message) acc w)) =
  fold_left (fun d item => failure_db item message d) batch (db w).
Proof.
  revert acc w. induction batch as [|item batch IH]; intros acc w; simpl.
  - reflexivity.
  - rewrite bind_run, IH, fail_item_run, after_failure_db. reflexivity.
Qed.

Lemma fail_batch_tally message batch acc w :
  let acc' := fst (for_each batch (fail_item clock message) acc w) in
  synced acc' = synced acc /\
  failed acc' = failed acc + List.length batch /\
  map report (errors acc') =
    map report (errors acc) ++
    map (fun item => (SyncQueueItem.task_id item, SyncQueueItem.operation item,
                      or_else (Some message) "error")) batch.
Proof.
  revert acc w. induction batch as [|item batch IH]; intros acc w; simpl.
  - repeat split; try lia. now rewrite app_nil_r.
  - rewrite bind_run, fail_item_run.
    destruct (IH (fst (after_failure clock item message
                         (or_else (Some message) "error") acc w))
                 (snd (after_failure clock item message
                         (or_else (Some message) "error") acc w)))
      as [H1 [H2 H3]].
    rewrite H1, H2, H3. simpl. repeat split; try lia.
    rewrite map_app, <- app_assoc. reflexivity.
Qed.

End BatchFailure.

(** ** Conflicts that cannot be resolved *)

Section Unresolvable.

Variable clock : nat -> Z.

(** What any failure of one entry leaves behind, in terms of the stored
    [message] and the reported [text]. *)
Lemma after_failure_effect item message text acc w :
  let r := after_failure clock item message text acc w in
  synced (fst r) = synced acc /\
  failed (fst r) = failed acc + 1 /\
  map report (errors (fst r)) =
    map report (errors acc) ++
    [(SyncQueueItem.task_id item, SyncQueueItem.operation item, text)] /\
  (forall row, In row (sync_queue (db w)) ->
     SyncQueueItem.id row = SyncQueueItem.id item ->
     SyncQueueItem.retry_count row = SyncQueueItem.retry_count item ->
     In (marked_failed message row) (sync_queue (db (snd r)))) /\
  List.length (sync_queue (db (snd r))) = List.length (sync_queue (db w)) /\
  Forall2 same_payload (tasks (db w)) (tasks (db (snd r))).
Proof.
  intros r. subst r. rewrite after_failure_db.
  split; [reflexivity|]. split; [reflexivity|]. split.
  { simpl. rewrite map_app. reflexivity. }
  split; [|split].
  - intros row H1 H2 H3. now apply failure_db_marks.
  - apply failure_db_queue_length.
  - apply failure_db_payload.
Qed.

End Unresolvable.

(** ** Frames: what handling one record leaves of another *)

Lemma In_firstn {A : Type} n (l : list A) x : In x (firstn n l) -> In x l.
Proof.
  intros H. rewrite <- (firstn_skipn n l). apply in_or_app. now left.
Qed.

Lemma In_skipn {A : Type} n (l : list A) x : In x (skipn n l) -> In x l.
Proof.
  intros H. rewrite <- (firstn_skipn n l). apply in_or_app. now right.
Qed.

Lemma filter_sql_update_other {A : Type} (p q : A -> bool) (f : A -> A) rows :
  (forall r, q r = true -> p r = false /\ p (f r) = false) ->
  filter p (sql_update q f rows) = filter p rows.
Proof.
  intros H. induction rows as [|r rows IH]; simpl; [reflexivity|].
  destruct (q r) eqn:E.
  - destruct (H r E) as [H1 H2]. now rewrite H1, H2.
  - now rewrite IH.
Qed.

Lemma tasks_of_In t d row :
  In row (tasks_of t d) <-> In row (tasks d) /\ Task.id row = t.
Proof. unfold tasks_of. rewrite filter_In, task_has_id_true. tauto. Qed.

Lemma tasks_of_update_other t t' f d q :
  t' <> t -> (forall r, Task.id (f r) = Task.id r) ->
  tasks_of t (mkDatabase (sql_update (task_has_id t') f (tasks d)) q) = tasks_of t d.
Proof.
  intros Hne Hid. unfold tasks_of. simpl. apply filter_sql_update_other.
  intros r Hr. apply task_has_id_true in Hr.
  split; apply task_has_id_false; [|rewrite Hid]; congruence.
Qed.

Lemma getTask_tasks_of t w :
  fst (getTask t w) = find (fun row => negb (Task.is_deleted row)) (tasks_of t (db w)).
Proof.
  unfold getTask, get_task, tasks_of. simpl.
  induction (tasks (db w)) as [|r rows IH]; simpl; [reflexivity|].
  destruct (task_has_id t r); simpl.
  - destruct (negb (Task.is_deleted r)); [reflexivity|exact IH].
  - exact IH.
Qed.

Lemma no_entries_delete t t' d ts :
  no_entries t d ->
  no_entries t (mkDatabase ts (sql_delete (entry_of_task t') (sync_queue d))).
Proof.
  intros H q Hq. simpl in Hq. apply sql_delete_In in Hq. now apply H.
Qed.

Lemma no_entries_after_delete t d ts :
  no_entries t (mkDatabase ts (sql_delete (entry_of_task t) (sync_queue d))).
Proof.
  intros q Hq. simpl in Hq. apply sql_delete_In in Hq.
  now apply entry_of_task_false.
Qed.

Lemma no_entries_failure t item message d :
  no_entries t d -> no_entries t (failure_db item message d).
Proof.
  intros H q Hq. simpl in Hq. apply sql_update_In in Hq.
  destruct Hq as [q0 [Hq0 ->]].
  destruct (entry_has_id (SyncQueueItem.id item) q0); simpl; now apply H.
Qed.

Lemma tasks_of_failure t item message d :
  SyncQueueItem.task_id item <> t ->
  tasks_of t (failure_db item message d) = tasks_of t d.
Proof.
  intros Hne. unfold failure_db. destruct (escalates item).
  - now apply tasks_of_update_other.
  - reflexivity.
Qed.

Section Frames.

Variable clock : nat -> Z.
Variable remote : nat -> BatchSyncRequest.t -> ExchangeResult.
Variable t : string.

Lemma process_item_no_entries batch processed acc w :
  no_entries t (db w) ->
  no_entries t (db (snd (process_item clock batch processed acc w))).
Proof.
  intros Hno.
  pose proof (process_item_outcome clock batch processed acc w) as H.
  remember (process_item clock batch processed acc w) as r eqn:E.
  destruct H; cbn [snd].
  - exact Hno.
  - unfold after_success. cbn [db]. now apply no_entries_delete.
  - unfold after_resolution. cbn [db]. now apply no_entries_delete.
  - rewrite after_failure_db. now apply no_entries_failure.
Qed.

Lemma process_item_frame batch processed acc w :
  (forall item,
      find (entry_of_task (ProcessedItem.client_id processed)) batch = Some item ->
      SyncQueueItem.task_id item <> t) ->
  tasks_of t (db (snd (process_item clock batch processed acc w))) = tasks_of t (db w).
Proof.
  intros Hother.
  pose proof (process_item_outcome clock batch processed acc w) as H.
  remember (process_item clock batch processed acc w) as r eqn:E.
  destruct H as [Hf|item Hf Hs|item local serverTask Hf Hs Hl Hr|item message text Hf];
    cbn [snd].
  - reflexivity.
  - unfold after_success. cbn [db].
    apply tasks_of_update_other; [now apply Hother|reflexivity].
  - unfold after_resolution. cbn [db].
    apply tasks_of_update_other; [|reflexivity].
    apply getTask_some in Hl. destruct Hl as [_ [-> _]]. now apply Hother.
  - rewrite after_failure_db. apply tasks_of_failure. now apply Hother.
Qed.

Lemma fail_item_no_entries message item acc w :
  no_entries t (db w) ->
  no_entries t (db (snd (fail_item clock message item acc w))).
Proof.
  intros Hno. rewrite fail_item_run, after_failure_db. now apply no_entries_failure.
Qed.

Lemma fail_item_frame message item acc w :
  SyncQueueItem.task_id item <> t ->
  tasks_of t (db (snd (fail_item clock message item acc w))) = tasks_of t (db w).
Proof.
  intros Hne. rewrite fail_item_run, after_failure_db. now apply tasks_of_failure.
Qed.

(** The outcomes of a response that concern other records. *)
Lemma handle_response_frame batch items acc w :
  (forall p, In p items -> ProcessedItem.client_id p <> t) ->
  tasks_of t (db (snd (for_each items (process_item clock batch) acc w))) =
  tasks_of t (db w).
Proof.
  intros Hother.
  apply (for_each_invariant
           (fun _ w' => tasks_of t (db w') = tasks_of t (db w))); [|reflexivity].
  intros p acc' w' Hp H. rewrite process_item_frame; [exact H|].
  intros item Hf. apply find_entry_some in Hf. destruct Hf as [_ ->].
  now apply Hother.
Qed.

Lemma handle_response_no_entries batch items acc w :
  no_entries t (db w) ->
  no_entries t (db (snd (for_each items (process_item clock batch) acc w))).
Proof.
  intros Hno.
  apply (for_each_invariant (fun _ w' => no_entries t (db w'))); [|exact Hno].
  intros p acc' w' _. apply process_item_no_entries.
Qed.

(** A batch none of whose entries belongs to the record. *)
Lemma run_batch_frame batch acc w :
  (forall e, In e batch -> SyncQueueItem.task_id e <> t) ->
  tasks_of t (db (snd (run_batch clock remote batch acc w))) = tasks_of t (db w).
Proof.
  intros Hother. rewrite run_batch_run. cbv zeta.
  destruct (answer_of clock remote batch w) as [message|response].
  - apply (for_each_invariant
             (fun _ w' => tasks_of t (db w') = tasks_of t (db w))); [|reflexivity].
    intros e acc' w' He H. rewrite fail_item_frame; [exact H|now apply Hother].
  - apply (for_each_invariant
             (fun _ w' => tasks_of t (db w') = tasks_of t (db w))); [|reflexivity].
    intros p acc' w' _ H. rewrite process_item_frame; [exact H|].
    intros item Hf. apply find_entry_some in Hf. apply Hother. tauto.
Qed.

Lemma run_batch_no_entries batch acc w :
  no_entries t (db w) ->
  no_entries t (db (snd (run_batch clock remote batch acc w))).
Proof.
  intros Hno. rewrite run_batch_run. cbv zeta.
  destruct (answer_of clock remote batch w) as [message|response].
  - apply (for_each_invariant (fun _ w' => no_entries t (db w'))); [|exact Hno].
    intros e acc' w' _. apply fail_item_no_entries.
  - now apply handle_response_no_entries.
Qed.

Lemma slice_In {A : Type} (l : list A) i b x :
  In x (slice l i (i + b)) -> In x (skipn i l).
Proof. rewrite slice_batch. apply In_firstn. Qed.

(** The rest of the loop, when no remaining entry belongs to the record. *)
Lemma sync_loop_frame batchSize allItems :
  forall fuel i acc w acc' w',
    sync_loop clock remote fuel batchSize allItems i acc w = (Some acc', w') ->
    (forall e, In e (skipn i allItems) -> SyncQueueItem.task_id e <> t) ->
    tasks_of t (db w') = tasks_of t (db w) /\
    (no_entries t (db w) -> no_entries t (db w')).
Proof.
  induction fuel as [|fuel IH]; intros i acc w acc' w' Hrun Hother; [discriminate|].
  rewrite sync_loop_step in Hrun. destruct (i <? List.length allItems).
  - apply IH in Hrun.
    + destruct Hrun as [H1 H2]. split.
      * rewrite H1. apply run_batch_frame. intros e He. apply Hother.
        eapply slice_In; eassumption.
      * intros Hno. apply H2. now apply run_batch_no_entries.
    + intros e He. apply Hother.
      replace (i + batchSize) with (batchSize + i) in He by lia.
      rewrite <- skipn_skipn in He. eapply In_skipn. eassumption.
  - inversion Hrun; subst. auto.
Qed.

End Frames.

(** ** Locating one outcome in a pass *)

Lemma nth_error_middle {A : Type} (l l' : list A) x :
  nth_error (l ++ x :: l') (List.length l) = Some x.
Proof. rewrite nth_error_app2 by lia. now rewrite Nat.sub_diag. Qed.

Lemma for_each_cons {A S : Type} (x : A) (xs : list A) (body : A -> S -> M S) acc w :
  for_each (x :: xs) body acc w =
  for_each xs body (fst (body x acc w)) (snd (body x acc w)).
Proof. simpl. now rewrite bind_run. Qed.

Section Locate.

Variable clock : nat -> Z.
Variable remote : nat -> BatchSyncRequest.t -> ExchangeResult.
Variable t : string.
Variable batchSize : nat.
Variable allItems : list SyncQueueItem.t.

Lemma sync_loop_sent_extends :
  forall fuel i acc w r w',
    sync_loop clock remote fuel batchSize allItems i acc w = (r, w') ->
    exists log, sent w' = sent w ++ log.
Proof.
  induction fuel as [|fuel IH]; intros i acc w r w' Hrun.
  - inversion Hrun; subst. exists []. now rewrite app_nil_r.
  - rewrite sync_loop_step in Hrun. destruct (i <? List.length allItems).
    + apply IH in Hrun. destruct Hrun as [log Hlog].
      rewrite run_batch_sent in Hlog. rewrite Hlog, <- app_assoc. eauto.
    + inversion Hrun; subst. exists []. now rewrite app_nil_r.
Qed.

(** The outcome [p] of the [k]-th exchange of the loop: the record [t] is at
    the end of the loop as [p] left it when nothing later concerns it, and
    was before [p] as at the start of the loop when nothing earlier does. *)
Lemma sync_loop_locate :
  forall fuel i acc w acc' w',
    sync_loop clock remote fuel batchSize allItems i acc w = (Some acc', w') ->
    forall k req resp pre p post,
      nth_error (sent w') (List.length (sent w) + k) = Some (req, inr resp) ->
      BatchSyncResponse.processed_items resp = pre ++ p :: post ->
      (forall p', In p' post -> ProcessedItem.client_id p' <> t) ->
      (forall e, In e (skipn (i + (k + 1) * batchSize) allItems) ->
                 SyncQueueItem.task_id e <> t) ->
      exists acc1 w1,
        let r := process_item clock (BatchSyncRequest.items req) p acc1 w1 in
        tasks_of t (db w') = tasks_of t (db (snd r)) /\
        (no_entries t (db (snd r)) -> no_entries t (db w')) /\
        ((forall p', In p' pre -> ProcessedItem.client_id p' <> t) ->
         (forall e, In e (firstn (k * batchSize) (skipn i allItems)) ->
                    SyncQueueItem.task_id e <> t) ->
         tasks_of t (db w1) = tasks_of t (db w)).
Proof.
  induction fuel as [|fuel IH]; intros i acc w acc' w' Hrun k req resp pre p post
    Hnth Hitems Hpost Hlater; [discriminate|].
  rewrite sync_loop_step in Hrun.
  destruct (i <? List.length allItems).
  2:{ inversion Hrun; subst. exfalso.
      assert (Hnone : nth_error (sent w') (List.length (sent w') + k) = None)
        by (apply nth_error_None; lia).
      congruence. }
  set (batch := slice allItems i (i + batchSize)) in *.
  pose proof (run_batch_sent clock remote batch acc w) as Hsent1.
  destruct k as [|k].
  - (* the exchange of this iteration *)
    destruct (sync_loop_sent_extends _ _ _ _ _ _ Hrun) as [log Hlog].
    rewrite Hsent1, <- app_assoc in Hlog. simpl in Hlog.
    rewrite Nat.add_0_r, Hlog, nth_error_middle in Hnth.
    inversion Hnth as [[Hreq Hanswer]]. clear Hnth.
    destruct (sync_loop_frame clock remote t batchSize allItems _ _ _ _ _ _ Hrun)
      as [Hrest1 Hrest2].
    { intros e He. apply Hlater. now replace (i + (0 + 1) * batchSize)
        with (i + batchSize) by lia. }
    rewrite run_batch_run in Hrest1, Hrest2. cbv zeta in Hrest1, Hrest2.
    rewrite Hanswer, Hitems, for_each_app, for_each_cons in Hrest1, Hrest2.
    set (w0 := mkWorld (db w) (S (ticks w))
                 (sent w ++ [(request_of clock batch w, inr resp)])) in *.
    exists (fst (for_each pre (process_item clock batch) acc w0)),
           (snd (for_each pre (process_item clock batch) acc w0)).
    cbv zeta. cbn [BatchSyncRequest.items request_of].
    split; [|split].
    + rewrite Hrest1. now apply handle_response_frame.
    + intros Hno. apply Hrest2. now apply handle_response_no_entries.
    + intros Hpre _. now rewrite handle_response_frame.
  - (* a later exchange *)
    assert (Hlen : List.length (sent w) + S k =
                   List.length (sent (snd (run_batch clock remote batch acc w))) + k).
    { rewrite Hsent1, length_app. simpl. lia. }
    rewrite Hlen in Hnth.
    destruct (IH _ _ _ _ _ Hrun k req resp pre p post Hnth Hitems Hpost)
      as [acc1 [w1 [H1 [H2 H3]]]].
    { intros e He. apply Hlater.
      now replace (i + (S k + 1) * batchSize)
        with (i + batchSize + (k + 1) * batchSize) by lia. }
    exists acc1, w1. cbv zeta in *. split; [exact H1|]. split; [exact H2|].
    intros Hpre Hbefore. rewrite H3; [|exact Hpre|].
    + apply run_batch_frame. intros e He. apply Hbefore.
      unfold batch in He. rewrite slice_batch in He.
      replace (S k * batchSize) with (batchSize + k * batchSize) by lia.
      rewrite <- (firstn_skipn batchSize (skipn i allItems)) at 1.
      rewrite firstn_app. apply in_or_app. left.
      rewrite firstn_firstn.
      now replace (Nat.min (batchSize + k * batchSize) batchSize)
        with batchSize by lia.
    + intros e He. apply Hbefore.
      replace (S k * batchSize) with (batchSize + k * batchSize) by lia.
      replace (i + batchSize) with (batchSize + i) in He by lia.
      rewrite <- skipn_skipn in He.
      apply In_skipn with (n := batchSize).
      rewrite firstn_skipn_comm in He. exact He.
Qed.

End Locate.

(** ** A success outcome *)

Lemma after_success_record clock t rid w row :
  In row (tasks (db (after_success clock t (Some rid) w))) ->
  Task.id row = t ->
  Task.server_id row = Some rid /\ Task.sync_status row = st_synced /\
  Task.last_synced_at row = Some (clock (ticks w)).
Proof.
  unfold after_success. cbn [db tasks]. intros Hin Hid.
  apply sql_update_In in Hin. destruct Hin as [r [_ ->]].
  destruct (task_has_id t r) eqn:E.
  - repeat split.
  - apply task_has_id_false in E. contradiction.
Qed.

Lemma sync_some clock remote fuel batchSize w result w' :
  sync clock remote fuel batchSize w = (Some result, w') ->
  exists acc',
    sync_loop clock remote fuel batchSize (drain (db w)) 0 (mkTally 0 0 []) w =
      (Some acc', w') /\ result = result_of acc'.
Proof.
  rewrite sync_run. intros H.
  destruct (sync_loop clock remote fuel batchSize (drain (db w)) 0 (mkTally 0 0 []) w)
    as [[acc'|] w1]; simpl in H; inversion H; subst. eauto.
Qed.

Section SuccessOutcome.

Variable clock : nat -> Z.
Variable remote : nat -> BatchSyncRequest.t -> ExchangeResult.

Lemma success_step batch processed item rid acc w :
  find (entry_of_task (ProcessedItem.client_id processed)) batch = Some item ->
  ProcessedItem.status processed = r_success ->
  ProcessedItem.server_id processed = Some rid ->
  let r := process_item clock batch processed acc w in
  synced (fst r) = synced acc + 1 /\
  failed (fst r) = failed acc /\
  errors (fst r) = errors acc /\
  (forall row, In row (tasks (db (snd r))) ->
     Task.id row = SyncQueueItem.task_id item ->
     Task.server_id row = Some rid /\ Task.sync_status row = st_synced /\
     Task.last_synced_at row = Some (clock (ticks w))) /\
  no_entries (SyncQueueItem.task_id item) (db (snd r)).
Proof.
  intros Hf Hs Hrid r. subst r.
  rewrite (process_item_success clock _ _ _ _ _ Hf Hs), Hrid. cbn [fst snd].
  split; [reflexivity|]. split; [reflexivity|]. split; [reflexivity|]. split.
  - intros row Hin Hid. eapply after_success_record; eassumption.
  - unfold after_success. cbn [db]. apply no_entries_after_delete.
Qed.

Lemma success_lasts fuel batchSize w result w' k req resp pre processed post item rid :
  sync clock remote fuel batchSize w = (Some result, w') ->
  nth_error (sent w') (List.length (sent w) + k) = Some (req, inr resp) ->
  BatchSyncResponse.processed_items resp = pre ++ processed :: post ->
  find (entry_of_task (ProcessedItem.client_id processed))
    (BatchSyncRequest.items req) = Some item ->
  ProcessedItem.status processed = r_success ->
  ProcessedItem.server_id processed = Some rid ->
  (forall p', In p' post ->
     ProcessedItem.client_id p' <> SyncQueueItem.task_id item) ->
  (forall e, In e (skipn ((k + 1) * batchSize) (drain (db w))) ->
     SyncQueueItem.task_id e <> SyncQueueItem.task_id item) ->
  (forall row, In row (tasks (db w')) ->
     Task.id row = SyncQueueItem.task_id item ->
     Task.server_id row = Some rid /\ Task.sync_status row = st_synced /\
     exists at_time, Task.last_synced_at row = Some at_time) /\
  no_entries (SyncQueueItem.task_id item) (db w').
Proof.
  intros Hsync Hnth Hitems Hf Hs Hrid Hpost Hlater.
  destruct (sync_some _ _ _ _ _ _ _ Hsync) as [acc' [Hrun _]].
  destruct (sync_loop_locate clock remote (SyncQueueItem.task_id item) batchSize
              (drain (db w)) _ _ _ _ _ _ Hrun k req resp pre processed post
              Hnth Hitems Hpost Hlater) as [acc1 [w1 [H1 [H2 _]]]].
  cbv zeta in H1, H2.
  destruct (success_step _ _ _ _ acc1 w1 Hf Hs Hrid) as [_ [_ [_ [Hrec Hno]]]].
  cbv zeta in Hrec, Hno.
  split; [|now apply H2].
  intros row Hin Hid.
  assert (Hin' : In row (tasks_of (SyncQueueItem.task_id item) (db w')))
    by now apply tasks_of_In.
  rewrite H1 in Hin'. apply tasks_of_In in Hin'. destruct Hin' as [Hin' _].
  destruct (Hrec row Hin' Hid) as [Ha [Hb Hc]]. eauto.
Qed.

End SuccessOutcome.

(** ** A conflict outcome that is resolved *)

Lemma after_resolution_record clock local winner sid w row :
  In row (tasks (db (after_resolution clock local winner sid w))) ->
  Task.id row = Task.id local ->
  Task.title row = Task.title winner /\
  Task.description row = Task.description winner /\
  Task.completed row = Task.completed winner /\
  Task.updated_at row = clock (ticks w) /\
  Task.sync_status row = st_synced /\
  Task.server_id row = sid /\
  Task.last_synced_at row = Some (clock (S (ticks w))).
Proof.
  unfold after_resolution. cbn [db tasks]. intros Hin Hid.
  apply sql_update_In in Hin. destruct Hin as [r [_ ->]].
  destruct (task_has_id (Task.id local) r) eqn:E.
  - repeat split.
  - apply task_has_id_false in E. contradiction.
Qed.

Lemma resolveConflict_remote_newer local remote_version w :
  (Task.updated_at local < Task.updated_at remote_version)%Z ->
  fst (resolveConflict local remote_version w) = remote_version.
Proof.
  intros H. unfold resolveConflict, ret. simpl.
  destruct (Task.updated_at local >=? Task.updated_at remote_version)%Z eqn:E;
    [apply Z.geb_ge in E; lia|reflexivity].
Qed.

Section ResolvedConflict.

Variable clock : nat -> Z.
Variable remote : nat -> BatchSyncRequest.t -> ExchangeResult.

Lemma resolution_step batch processed item local snapshot acc w :
  find (entry_of_task (ProcessedItem.client_id processed)) batch = Some item ->
  ProcessedItem.status processed = r_conflict ->
  ProcessedItem.resolved_data processed = Some snapshot ->
  fst (getTask (SyncQueueItem.task_id item) w) = Some local ->
  (Task.updated_at local < Task.updated_at snapshot)%Z ->
  let r := process_item clock batch processed acc w in
  synced (fst r) = synced acc + 1 /\
  failed (fst r) = failed acc /\
  errors (fst r) = errors acc /\
  (forall row, In row (tasks (db (snd r))) ->
     Task.id row = SyncQueueItem.task_id item ->
     Task.title row = Task.title snapshot /\
     Task.description row = Task.description snapshot /\
     Task.completed row = Task.completed snapshot /\
     Task.updated_at row = clock (ticks w) /\
     Task.sync_status row = st_synced /\
     Task.server_id row =
       nullish (Task.server_id snapshot) (ProcessedItem.server_id processed) /\
     Task.last_synced_at row = Some (clock (S (ticks w)))) /\
  no_entries (SyncQueueItem.task_id item) (db (snd r)).
Proof.
  intros Hf Hs Hr Hl Hnewer r. subst r.
  rewrite (process_item_conflict_resolved clock _ _ _ _ _ _ _ Hf Hs Hl Hr).
  rewrite (resolveConflict_remote_newer _ _ _ Hnewer). cbn [fst snd].
  destruct (getTask_some _ _ _ Hl) as [_ [Hid _]].
  split; [reflexivity|]. split; [reflexivity|]. split; [reflexivity|]. split.
  - intros row Hin Hrow. eapply after_resolution_record; [eassumption|congruence].
  - unfold after_resolution. cbn [db]. rewrite Hid. apply no_entries_after_delete.
Qed.

Lemma resolution_lasts fuel batchSize w result w' k req resp pre processed post
    item local snapshot :
  sync clock remote fuel batchSize w = (Some result, w') ->
  nth_error (sent w') (List.length (sent w) + k) = Some (req, inr resp) ->
  BatchSyncResponse.processed_items resp = pre ++ processed :: post ->
  find (entry_of_task (ProcessedItem.client_id processed))
    (BatchSyncRequest.items req) = Some item ->
  ProcessedItem.status processed = r_conflict ->
  ProcessedItem.resolved_data processed = Some snapshot ->
  fst (getTask (SyncQueueItem.task_id item) w) = Some local ->
  (Task.updated_at local < Task.updated_at snapshot)%Z ->
  (forall p', In p' (pre ++ post) ->
     ProcessedItem.client_id p' <> SyncQueueItem.task_id item) ->
  (forall e, In e (firstn (k * batchSize) (drain (db w)) ++
                   skipn ((k + 1) * batchSize) (drain (db w))) ->
     SyncQueueItem.task_id e <> SyncQueueItem.task_id item) ->
  (forall row, In row (tasks (db w')) ->
     Task.id row = SyncQueueItem.task_id item ->
     Task.title row = Task.title snapshot /\
     Task.description row = Task.description snapshot /\
     Task.completed row = Task.completed snapshot /\
     Task.sync_status row = st_synced /\
     Task.server_id row =
       nullish (Task.server_id snapshot) (ProcessedItem.server_id processed)) /\
  no_entries (SyncQueueItem.task_id item) (db w').
Proof.
  intros Hsync Hnth Hitems Hf Hs Hr Hl Hnewer Hothers Hbatches.
  destruct (sync_some _ _ _ _ _ _ _ Hsync) as [acc' [Hrun _]].
  destruct (sync_loop_locate clock remote (SyncQueueItem.task_id item) batchSize
              (drain (db w)) _ _ _ _ _ _ Hrun k req resp pre processed post
              Hnth Hitems) as [acc1 [w1 [H1 [H2 H3]]]].
  { intros p' Hp'. apply Hothers. apply in_or_app. now right. }
  { intros e He. apply Hbatches. apply in_or_app. now right. }
  cbv zeta in H1, H2.
  assert (Hsame : tasks_of (SyncQueueItem.task_id item) (db w1) =
                  tasks_of (SyncQueueItem.task_id item) (db w)).
  { apply H3.
    - intros p' Hp'. apply Hothers. apply in_or_app. now left.
    - intros e He. apply Hbatches. apply in_or_app. now left. }
  assert (Hl1 : fst (getTask (SyncQueueItem.task_id item) w1) = Some local)
    by (rewrite getTask_tasks_of, Hsame, <- getTask_tasks_of; exact Hl).
  destruct (resolution_step _ _ _ _ _ acc1 w1 Hf Hs Hr Hl1 Hnewer)
    as [_ [_ [_ [Hrec Hno]]]].
  cbv zeta in Hrec, Hno.
  split; [|now apply H2].
  intros row Hin Hid.
  assert (Hin' : In row (tasks_of (SyncQueueItem.task_id item) (db w')))
    by now apply tasks_of_In.
  rewrite H1 in Hin'. apply tasks_of_In in Hin'. destruct Hin' as [Hin' _].
  destruct (Hrec row Hin' Hid) as (Ha & Hb & Hc & _ & Hd & He & _).
  repeat split; assumption.
Qed.

End ResolvedConflict.

Lemma sync_loop_empty clock remote fuel batchSize acc w :
  sync_loop clock remote (S fuel) batchSize [] 0 acc w = (Some acc, w).
Proof. reflexivity. Qed.

(** ** Failures of stale copies, and the failures of a pass read off its
    exchanges *)

Lemma Forall2_map_r {A : Type} (R : A -> A -> Prop) (f : A -> A) rows :
  (forall r, R r (f r)) -> Forall2 R rows (map f rows).
Proof. intros H. induction rows; constructor; auto. Qed.

Lemma failed_by_sql_update item message rows :
  Forall2 (failed_by item message) rows
    (sql_update (entry_has_id (SyncQueueItem.id item))
       (set_failed (SyncQueueItem.retry_count item + 1) message) rows).
Proof.
  unfold sql_update. apply Forall2_map_r. intros r. unfold failed_by, entry_has_id.
  destruct (String.eqb (SyncQueueItem.id r) (SyncQueueItem.id item)) eqn:E.
  - apply String.eqb_eq in E. left. split; [exact E|reflexivity].
  - apply String.eqb_neq in E. right. split; [exact E|reflexivity].
Qed.

Lemma failure_db_failed_by item message d :
  Forall2 (failed_by item message) (sync_queue d)
    (sync_queue (failure_db item message d)).
Proof. apply failed_by_sql_update. Qed.

Lemma failed_by_In item message rows rows' row :
  Forall2 (failed_by item message) rows rows' ->
  In row rows -> SyncQueueItem.id row = SyncQueueItem.id item ->
  In (set_failed (SyncQueueItem.retry_count item + 1) message row) rows'.
Proof.
  intros H. induction H as [|r r' rows rows' Hr _ IH]; intros Hin Hid; [contradiction|].
  destruct Hin as [->|Hin]; [|right; now apply IH].
  left. destruct Hr as [[_ ->]|[Hne _]]; [reflexivity|contradiction].
Qed.

Lemma failed_by_absent item message rows rows' :
  Forall2 (failed_by item message) rows rows' ->
  (forall row, In row rows -> SyncQueueItem.id row <> SyncQueueItem.id item) ->
  rows' = rows.
Proof.
  intros H. induction H as [|r r' rows rows' Hr _ IH]; intros Hno; [reflexivity|].
  f_equal.
  - destruct Hr as [[Hid _]|[_ ->]]; [|reflexivity].
    exfalso. apply (Hno r); [now left|exact Hid].
  - apply IH. intros row Hin. apply Hno. now right.
Qed.

Lemma retried_failed_by_batch message batch :
  forall row, failed_by_batch batch message row (retried message batch row).
Proof.
  induction batch as [|item batch IH]; intros row.
  - right. split; [intros item []|reflexivity].
  - rewrite retried_cons.
    destruct (String.eqb (SyncQueueItem.id row) (SyncQueueItem.id item)) eqn:E.
    + apply String.eqb_eq in E.
      destruct (IH (set_failed (SyncQueueItem.retry_count item + 1) message row))
        as [[item' [Hin [Hid ->]]]|[Hno ->]].
      * left. exists item'. split; [now right|]. split; [exact Hid|reflexivity].
      * left. exists item. split; [now left|]. split; [now symmetry|reflexivity].
    + apply String.eqb_neq in E.
      destruct (IH row) as [[item' [Hin [Hid ->]]]|[Hno ->]].
      * left. exists item'. split; [now right|]. split; [exact Hid|reflexivity].
      * right. split; [|reflexivity].
        intros it [<-|Hin]; [congruence|now apply Hno].
Qed.

Lemma existsb_sql_update {A : Type} (g p : A -> bool) (f : A -> A) rows :
  (forall r, g (f r) = g r) -> existsb g (sql_update p f rows) = existsb g rows.
Proof.
  intros H. unfold sql_update. induction rows as [|r rows IH]; [reflexivity|].
  cbn [map existsb]. rewrite IH. destruct (p r); [rewrite H|]; reflexivity.
Qed.

Lemma has_live_record_getTask t w :
  has_live_record t (db w) = is_some (fst (getTask t w)).
Proof.
  unfold has_live_record, getTask, get_task. cbn [fst].
  induction (tasks (db w)) as [|r rows IH]; [reflexivity|].
  cbn [existsb find].
  destruct (task_has_id t r && negb (Task.is_deleted r)); [reflexivity|exact IH].
Qed.

Lemma live_after_success clock t sid w u :
  has_live_record u (db (after_success clock t sid w)) = has_live_record u (db w).
Proof.
  unfold has_live_record, after_success. cbn [db tasks].
  apply existsb_sql_update. intros r. reflexivity.
Qed.

Lemma live_after_resolution clock local winner sid w u :
  has_live_record u (db (after_resolution clock local winner sid w)) =
  has_live_record u (db w).
Proof.
  unfold has_live_record, after_resolution. cbn [db tasks].
  apply existsb_sql_update. intros r. reflexivity.
Qed.

Lemma live_failure_db item message d u :
  has_live_record u (failure_db item message d) = has_live_record u d.
Proof.
  unfold has_live_record, failure_db. cbn [tasks].
  destruct (escalates item); [|reflexivity].
  apply existsb_sql_update. intros r. reflexivity.
Qed.

Lemma live_fold_failure message batch u :
  forall d,
    has_live_record u (fold_left (fun d item => failure_db item message d) batch d) =
    has_live_record u d.
Proof.
  induction batch as [|item batch IH]; intros d; [reflexivity|].
  cbn [fold_left]. rewrite IH. apply live_failure_db.
Qed.

Lemma list_sum_cons (a : nat) (l : list nat) : list_sum (a :: l) = a + list_sum l.
Proof. reflexivity. Qed.

Lemma skipn_length_app {A : Type} (l log : list A) :
  skipn (List.length l) (l ++ log) = log.
Proof.
  rewrite skipn_app, skipn_all, Nat.sub_diag. reflexivity.
Qed.

Section FailureReports.

Variable clock : nat -> Z.
Variable remote : nat -> BatchSyncRequest.t -> ExchangeResult.

(** The database at the start of the pass. *)
Variable d0 : Database.

Lemma after_failure_reports item message text acc w :
  live_as_at d0 w ->
  let r := after_failure clock item message text acc w in
  map report (errors (fst r)) =
    map report (errors acc) ++
    [(SyncQueueItem.task_id item, SyncQueueItem.operation item, text)] /\
  failed (fst r) = failed acc + 1 /\
  synced (fst r) = synced acc + 0 /\
  live_as_at d0 (snd r).
Proof.
  intros Hlive r. subst r.
  destruct (after_failure_effect clock item message text acc w)
    as [H1 [H2 [H3 _]]].
  split; [exact H3|]. split; [exact H2|]. split; [rewrite H1; lia|].
  intros t. rewrite after_failure_db, live_failure_db. apply Hlive.
Qed.

Lemma process_item_reports batch processed acc w :
  live_as_at d0 w ->
  let r := process_item clock batch processed acc w in
  map report (errors (fst r)) =
    map report (errors acc) ++ failures_of_outcome d0 batch processed /\
  failed (fst r) = failed acc + List.length (failures_of_outcome d0 batch processed) /\
  synced (fst r) = synced acc + successes_of_outcome d0 batch processed /\
  live_as_at d0 (snd r).
Proof.
  intros Hlive r. subst r. unfold failures_of_outcome, successes_of_outcome.
  destruct (find (entry_of_task (ProcessedItem.client_id processed)) batch)
    as [item|] eqn:Hf.
  2:{ rewrite (process_item_unmatched clock _ _ _ _ Hf). cbn [fst snd List.length].
      rewrite app_nil_r. repeat split; try lia. exact Hlive. }
  destruct (ProcessedItem.status processed) eqn:Hs.
  - rewrite (process_item_success clock _ _ _ _ _ Hf Hs).
    cbn [fst snd synced failed errors List.length]. rewrite app_nil_r.
    repeat split; try lia. intros t. rewrite live_after_success. apply Hlive.
  - rewrite <- (Hlive (SyncQueueItem.task_id item)), has_live_record_getTask.
    destruct (fst (getTask (SyncQueueItem.task_id item) w)) as [local|] eqn:Hl;
      destruct (ProcessedItem.resolved_data processed) as [serverTask|] eqn:Hr;
      cbn [is_some andb].
    + rewrite (process_item_conflict_resolved clock _ _ _ _ _ _ _ Hf Hs Hl Hr).
      cbn [fst snd synced failed errors List.length]. rewrite app_nil_r.
      repeat split; try lia. intros t. rewrite live_after_resolution. apply Hlive.
    + rewrite (process_item_conflict_unresolvable clock _ _ _ _ _ Hf Hs (or_intror Hr)).
      now apply after_failure_reports.
    + rewrite (process_item_conflict_unresolvable clock _ _ _ _ _ Hf Hs (or_introl Hl)).
      now apply after_failure_reports.
    + rewrite (process_item_conflict_unresolvable clock _ _ _ _ _ Hf Hs (or_introl Hl)).
      now apply after_failure_reports.
  - rewrite (process_item_error clock _ _ _ _ _ Hf Hs).
    now apply after_failure_reports.
Qed.

Lemma handle_response_reports batch :
  forall items acc w,
    live_as_at d0 w ->
    let r := for_each items (process_item clock batch) acc w in
    map report (errors (fst r)) =
      map report (errors acc) ++ flat_map (failures_of_outcome d0 batch) items /\
    failed (fst r) =
      failed acc + List.length (flat_map (failures_of_outcome d0 batch) items) /\
    synced (fst r) =
      synced acc + list_sum (map (successes_of_outcome d0 batch) items) /\
    live_as_at d0 (snd r).
Proof.
  induction items as [|p items IH]; intros acc w Hlive.
  - cbn. rewrite app_nil_r. repeat split; try lia. exact Hlive.
  - cbv zeta. rewrite for_each_cons.
    destruct (process_item_reports batch p acc w Hlive) as [H1 [H2 [H3 H4]]].
    destruct (IH (fst (process_item clock batch p acc w)) _ H4) as [I1 [I2 [I3 I4]]].
    cbn [flat_map map]. rewrite length_app, list_sum_cons.
    split; [rewrite I1, H1; now rewrite app_assoc|].
    split; [rewrite I2, H2; lia|]. split; [rewrite I3, H3; lia|exact I4].
Qed.

Lemma run_batch_reports batch acc w :
  live_as_at d0 w ->
  let r := run_batch clock remote batch acc w in
  let x := (request_of clock batch w, answer_of clock remote batch w) in
  map report (errors (fst r)) = map report (errors acc) ++ failures_of_exchange d0 x /\
  failed (fst r) = failed acc + List.length (failures_of_exchange d0 x) /\
  synced (fst r) = synced acc + successes_of_exchange d0 x /\
  live_as_at d0 (snd r).
Proof.
  intros Hlive. cbv zeta. rewrite run_batch_run. cbv zeta.
  unfold failures_of_exchange, successes_of_exchange. cbn [fst snd].
  unfold request_of at 1 2 3. cbn [BatchSyncRequest.items].
  set (w1 := mkWorld (db w) (S (ticks w)) _).
  destruct (answer_of clock remote batch w) as [message|response].
  - destruct (fail_batch_tally clock message batch acc w1) as [H1 [H2 H3]].
    split; [exact H3|]. split; [now rewrite length_map|]. split; [lia|].
    intros t. rewrite fail_batch_db, live_fold_failure. apply Hlive.
  - apply handle_response_reports. exact Hlive.
Qed.

Lemma sync_loop_reports batchSize allItems :
  forall fuel i acc w acc' w',
    sync_loop clock remote fuel batchSize allItems i acc w = (Some acc', w') ->
    live_as_at d0 w ->
    exists log,
      sent w' = sent w ++ log /\
      map report (errors acc') =
        map report (errors acc) ++ flat_map (failures_of_exchange d0) log /\
      failed acc' = failed acc + List.length (flat_map (failures_of_exchange d0) log) /\
      synced acc' = synced acc + list_sum (map (successes_of_exchange d0) log) /\
      (forall k x, nth_error log k = Some x ->
         snd x = remote (List.length (sent w) + k) (fst x)).
Proof.
  induction fuel as [|fuel IH]; intros i acc w acc' w' Hrun Hlive; [discriminate|].
  rewrite sync_loop_step in Hrun. destruct (i <? List.length allItems).
  - set (batch := slice allItems i (i + batchSize)) in *.
    destruct (run_batch_reports batch acc w Hlive) as [H1 [H2 [H3 H4]]].
    destruct (IH _ _ _ _ _ Hrun H4) as [log [L0 [L1 [L2 [L3 L4]]]]].
    rewrite run_batch_sent in L0, L4.
    exists ((request_of clock batch w, answer_of clock remote batch w) :: log).
    split; [rewrite L0, <- app_assoc; reflexivity|].
    cbn [flat_map map]. rewrite length_app, list_sum_cons.
    split; [rewrite L1, H1; now rewrite app_assoc|].
    split; [rewrite L2, H2; lia|]. split; [rewrite L3, H3; lia|].
    intros [|k] x Hx.
    + injection Hx as <-. cbn [fst snd]. unfold answer_of.
      now rewrite Nat.add_0_r.
    + cbn [nth_error] in Hx. rewrite (L4 k x Hx), length_app. cbn [List.length].
      f_equal. lia.
  - injection Hrun as <- <-. exists []. cbn. rewrite !app_nil_r.
    repeat split; try lia. intros [|k] x Hx; discriminate.
Qed.

End FailureReports.

(** * The claims *)

(** C1. The conflict resolver returns the local record when its [updated_at]
    is at least the remote one (a tie favours local) and the remote record
    otherwise; it leaves the world as it is and its result does not depend on
    the world, so resolving the same pair again yields the same winner. *)
Theorem resolveConflict_last_write_wins :
  forall (L R : Task.t) (w w' : World),
    ((Task.updated_at L >= Task.updated_at R)%Z -> fst (resolveConflict L R w) = L) /\
    ((Task.updated_at L < Task.updated_at R)%Z -> fst (resolveConflict L R w) = R) /\
    snd (resolveConflict L R w) = w /\
    fst (resolveConflict L R w) = fst (resolveConflict L R w').
Proof.
  intros L R w w'. unfold resolveConflict, ret. simpl.
  repeat split.
  - intros H. apply Z.geb_ge in H. now rewrite H.
  - intros H. destruct (Task.updated_at L >=? Task.updated_at R)%Z eqn:E;
      [apply Z.geb_ge in E; lia | reflexivity].
Qed.

Lemma resolveConflict_last_write_wins_witness :
  fst (resolveConflict task_milk task_milk world_empty) = task_milk.
Proof.
  apply (proj1 (resolveConflict_last_write_wins task_milk task_milk
                  world_empty world_empty)).
  simpl. lia.
Defined.

(** C2, as the code has it. Handling a success outcome with a remote id
    leaves every row of the owning record with that [server_id],
    [sync_status = 'synced'] and [last_synced_at] set, leaves no Change Log
    entry of the record, and adds one to [synced] and nothing to [failed] or
    [errors]. The record and the Change Log are still so at the end of the
    pass when no later outcome of the same response names the record and no
    later batch holds an entry of it. *)
Theorem success_outcome_marks_record_synced :
  (forall (clock : nat -> Z) (batch : list SyncQueueItem.t)
          (processed : ProcessedItem.t) (item : SyncQueueItem.t) (rid : string)
          (acc : Tally) (w : World),
      find (entry_of_task (ProcessedItem.client_id processed)) batch = Some item ->
      ProcessedItem.status processed = r_success ->
      ProcessedItem.server_id processed = Some rid ->
      let r := process_item clock batch processed acc w in
      synced (fst r) = synced acc + 1 /\
      failed (fst r) = failed acc /\
      errors (fst r) = errors acc /\
      (forall row, In row (tasks (db (snd r))) ->
         Task.id row = SyncQueueItem.task_id item ->
         Task.server_id row = Some rid /\ Task.sync_status row = st_synced /\
         Task.last_synced_at row = Some (clock (ticks w))) /\
      no_entries (SyncQueueItem.task_id item) (db (snd r)))
  /\
  (forall (clock : nat -> Z) (remote : nat -> BatchSyncRequest.t -> ExchangeResult)
          (fuel batchSize : nat) (w : World) (result : SyncResult.t) (w' : World)
          (k : nat) (req : BatchSyncRequest.t) (resp : BatchSyncResponse.t)
          (pre : list ProcessedItem.t) (processed : ProcessedItem.t)
          (post : list ProcessedItem.t) (item : SyncQueueItem.t) (rid : string),
      sync clock remote fuel batchSize w = (Some result, w') ->
      nth_error (sent w') (List.length (sent w) + k) = Some (req, inr resp) ->
      BatchSyncResponse.processed_items resp = pre ++ processed :: post ->
      find (entry_of_task (ProcessedItem.client_id processed))
        (BatchSyncRequest.items req) = Some item ->
      ProcessedItem.status processed = r_success ->
      ProcessedItem.server_id processed = Some rid ->
      (forall p', In p' post ->
         ProcessedItem.client_id p' <> SyncQueueItem.task_id item) ->
      (forall e, In e (skipn ((k + 1) * batchSize) (drain (db w))) ->
         SyncQueueItem.task_id e <> SyncQueueItem.task_id item) ->
      (forall row, In row (tasks (db w')) ->
         Task.id row = SyncQueueItem.task_id item ->
         Task.server_id row = Some rid /\ Task.sync_status row = st_synced /\
         exists at_time, Task.last_synced_at row = Some at_time) /\
      no_entries (SyncQueueItem.task_id item) (db w')).
Proof.
  split.
  - intros. eapply success_step; eassumption.
  - intros. eapply success_lasts; eassumption.
Qed.

Lemma success_outcome_marks_record_synced_witness :
  no_entries "t1"
    (db (snd (sync ex_clock (remote_up_at 0 success_srv_1) 2 1 world_one_entry))).
Proof.
  apply (proj2 success_outcome_marks_record_synced ex_clock
           (remote_up_at 0 success_srv_1) 2 1 world_one_entry
           (SyncResult.mk true 1 0 [])
           (snd (sync ex_clock (remote_up_at 0 success_srv_1) 2 1 world_one_entry))
           0 (BatchSyncRequest.mk [entry_create] 1000)
           (BatchSyncResponse.mk [success_srv_1]) []
           success_srv_1 [] entry_create "srv_1"%string).
  - reflexivity.
  - reflexivity.
  - reflexivity.
  - reflexivity.
  - reflexivity.
  - reflexivity.
  - intros p' [].
  - intros e [].
Defined.

(** C2, as stated, fails. Two entries of one record, batch size 1, after two
    passes in which the remote authority could not be reached: in the third
    pass the first batch is acknowledged with [success] and a remote id, the
    second fails in transport. At the end of that pass the record has
    [sync_status = 'error'], not ['synced'], and no entry in the Change Log. *)
Lemma success_then_transport_failure_ends_in_error :
  exists result w' req,
    sync ex_clock (remote_up_at 4 success_srv_1) 3 1 world_after_two_outages =
      (Some result, w') /\
    nth_error (sent w') (List.length (sent world_after_two_outages) + 0) =
      Some (req, inr (BatchSyncResponse.mk [success_srv_1])) /\
    find (entry_of_task (ProcessedItem.client_id success_srv_1))
      (BatchSyncRequest.items req) = Some entry_create_failed_twice /\
    ProcessedItem.status success_srv_1 = r_success /\
    ProcessedItem.server_id success_srv_1 = Some "srv_1"%string /\
    SyncResult.synced_items result = 1 /\
    tasks (db w') =
      [Task.mk "t1" "Buy milk" None false 10 10 false st_error
         (Some "srv_1"%string) (Some 1009%Z)] /\
    sync_queue (db w') = [] /\
    ~ (forall row, In row (tasks (db w')) ->
         Task.id row = SyncQueueItem.task_id entry_create_failed_twice ->
         Task.sync_status row = st_synced).
Proof.
  pose (w' := snd (sync ex_clock (remote_up_at 4 success_srv_1) 3 1
                     world_after_two_outages)).
  assert (Ht : tasks (db w') =
               [Task.mk "t1" "Buy milk" None false 10 10 false st_error
                  (Some "srv_1"%string) (Some 1009%Z)])
    by (vm_compute; reflexivity).
  exists (SyncResult.mk false 1 1
            [SyncError.mk "t1" op_update "Network Error" 1012]),
         w', (BatchSyncRequest.mk [entry_create_failed_twice] 1008).
  split; [vm_compute; reflexivity|]. split; [vm_compute; reflexivity|].
  split; [vm_compute; reflexivity|]. split; [reflexivity|].
  split; [reflexivity|]. split; [reflexivity|]. split; [exact Ht|].
  split; [vm_compute; reflexivity|].
  intros H. rewrite Ht in H.
  specialize (H _ (or_introl eq_refl) eq_refl). discriminate H.
Qed.




(** C4, as the code has it. When the exchange of a batch fails as a whole,
    nothing of the batch is counted as synced; [failed] grows by one per
    entry and [errors] gets one entry per batch entry, in batch order, with
    the transport reason; no row leaves the Change Log or enters it; every
    row whose id an entry of the batch has is left with the [retry_count]
    that entry was drained with plus one and the transport reason, and every
    other row as it was, so that nothing is stored for an entry whose row an
    earlier batch of the pass has removed; no record is written except for
    [sync_status] on escalation. *)
Theorem whole_batch_failure_fails_every_entry :
  forall (clock : nat -> Z) (remote : nat -> BatchSyncRequest.t -> ExchangeResult)
         (batch : list SyncQueueItem.t) (acc : Tally) (w : World) (message : string),
    answer_of clock remote batch w = inl message ->
    let r := run_batch clock remote batch acc w in
    synced (fst r) = synced acc /\
    failed (fst r) = failed acc + List.length batch /\
    map report (errors (fst r)) =
      map report (errors acc) ++
      map (fun item => (SyncQueueItem.task_id item, SyncQueueItem.operation item,
                        or_else (Some message) "error")) batch /\
    List.length (sync_queue (db (snd r))) = List.length (sync_queue (db w)) /\
    Forall2 (failed_by_batch batch message)
      (sync_queue (db w)) (sync_queue (db (snd r))) /\
    (NoDup (map SyncQueueItem.id batch) ->
     forall row, In row (sync_queue (db w)) -> In (item_of_row row) batch ->
                 In (marked_failed message row) (sync_queue (db (snd r)))) /\
    Forall2 same_payload (tasks (db w)) (tasks (db (snd r))).
Proof.
  intros clock remote batch acc w message Hfail r. subst r.
  rewrite run_batch_run. cbv zeta. rewrite Hfail.
  destruct (fail_batch_tally clock message batch acc
              (mkWorld (db w) (S (ticks w))
                 (sent w ++ [(request_of clock batch w, inl message)])))
    as [H1 [H2 H3]].
  split; [exact H1|]. split; [exact H2|]. split; [exact H3|].
  rewrite fail_batch_db. cbn [db].
  split; [|split; [|split]].
  - rewrite fold_failure_queue. apply length_map.
  - rewrite fold_failure_queue. apply Forall2_map_r.
    apply retried_failed_by_batch.
  - intros Hnd row Hrow Hitem. rewrite fold_failure_queue.
    apply in_map_iff. exists row. split; [|exact Hrow].
    rewrite (retried_stable message batch row row (or_introl eq_refl)).
    + assert (E : existsb (fun item => String.eqb (SyncQueueItem.id row)
                                         (SyncQueueItem.id item)) batch = true).
      { apply existsb_exists. exists (item_of_row row). split; [exact Hitem|].
        apply String.eqb_refl. }
      now rewrite E.
    + intros item Hin Hid.
      assert (item = item_of_row row) as ->.
      { apply (NoDup_map_inj SyncQueueItem.id batch); auto. }
      reflexivity.
  - apply fold_failure_payload.
Qed.

Lemma whole_batch_failure_fails_every_entry_witness :
  failed (fst (run_batch ex_clock remote_down [entry_create; entry_update]
                 (mkTally 0 0 []) world_two_entries)) = 2.
Proof.
  apply (whole_batch_failure_fails_every_entry ex_clock remote_down
           [entry_create; entry_update] (mkTally 0 0 []) world_two_entries
           "Network Error").
  reflexivity.
Defined.

(** C4, as stated, fails. A record with a [create] and an [update] entry,
    neither tried before, batch size 1: the first batch is acknowledged with
    [success], which removes both entries; the exchange of the second batch,
    the drained copy of the [update] entry, fails as a whole. The entry is
    counted as failed and reported with the transport reason, but no
    [retry_count] is incremented and no message is stored: the Change Log is
    empty. *)
Lemma stale_batch_fails_without_a_row :
  exists result w' req,
    sync ex_clock (remote_up_at 0 success_srv_1) 3 1 world_two_entries =
      (Some result, w') /\
    nth_error (sent w') 1 = Some (req, inl "Network Error"%string) /\
    BatchSyncRequest.items req = [entry_update] /\
    SyncResult.synced_items result = 1 /\
    SyncResult.failed_items result = 1 /\
    map report (SyncResult.errors result) =
      [("t1"%string, op_update, "Network Error"%string)] /\
    sync_queue (db w') = [].
Proof.
  exists (SyncResult.mk false 1 1
            [SyncError.mk "t1" op_update "Network Error" 1003]),
         (snd (sync ex_clock (remote_up_at 0 success_srv_1) 3 1 world_two_entries)),
         (BatchSyncRequest.mk [entry_update] 1002).
  repeat split; vm_compute; reflexivity.
Qed.

(** C5, as the code has it. Handling a conflict outcome whose snapshot is
    newer than the local record found by [getTask] leaves every row of the
    record with the title, description and completed flag of the snapshot,
    [sync_status = 'synced'], the snapshot's [server_id] or, when it has
    none, the one of the outcome, [updated_at] and [last_synced_at] read
    from the clock; it leaves no Change Log entry of the record and adds one
    to [synced]. The same holds at the end of the pass, for the local record
    as it was at the start, when no other outcome of that response names the
    record and no other batch holds an entry of it. *)
Theorem newer_remote_snapshot_overwrites_record :
  (forall (clock : nat -> Z) (batch : list SyncQueueItem.t)
          (processed : ProcessedItem.t) (item : SyncQueueItem.t)
          (local snapshot : Task.t) (acc : Tally) (w : World),
      find (entry_of_task (ProcessedItem.client_id processed)) batch = Some item ->
      ProcessedItem.status processed = r_conflict ->
      ProcessedItem.resolved_data processed = Some snapshot ->
      fst (getTask (SyncQueueItem.task_id item) w) = Some local ->
      (Task.updated_at local < Task.updated_at snapshot)%Z ->
      let r := process_item clock batch processed acc w in
      synced (fst r) = synced acc + 1 /\
      failed (fst r) = failed acc /\
      errors (fst r) = errors acc /\
      (forall row, In row (tasks (db (snd r))) ->
         Task.id row = SyncQueueItem.task_id item ->
         Task.title row = Task.title snapshot /\
         Task.description row = Task.description snapshot /\
         Task.completed row = Task.completed snapshot /\
         Task.updated_at row = clock (ticks w) /\
         Task.sync_status row = st_synced /\
         Task.server_id row =
           nullish (Task.server_id snapshot) (ProcessedItem.server_id processed) /\
         Task.last_synced_at row = Some (clock (S (ticks w)))) /\
      no_entries (SyncQueueItem.task_id item) (db (snd r)))
  /\
  (forall (clock : nat -> Z) (remote : nat -> BatchSyncRequest.t -> ExchangeResult)
          (fuel batchSize : nat) (w : World) (result : SyncResult.t) (w' : World)
          (k : nat) (req : BatchSyncRequest.t) (resp : BatchSyncResponse.t)
          (pre : list ProcessedItem.t) (processed : ProcessedItem.t)
          (post : list ProcessedItem.t) (item : SyncQueueItem.t)
          (local snapshot : Task.t),
      sync clock remote fuel batchSize w = (Some result, w') ->
      nth_error (sent w') (List.length (sent w) + k) = Some (req, inr resp) ->
      BatchSyncResponse.processed_items resp = pre ++ processed :: post ->
      find (entry_of_task (ProcessedItem.client_id processed))
        (BatchSyncRequest.items req) = Some item ->
      ProcessedItem.status processed = r_conflict ->
      ProcessedItem.resolved_data processed = Some snapshot ->
      fst (getTask (SyncQueueItem.task_id item) w) = Some local ->
      (Task.updated_at local < Task.updated_at snapshot)%Z ->
      (forall p', In p' (pre ++ post) ->
         ProcessedItem.client_id p' <> SyncQueueItem.task_id item) ->
      (forall e, In e (firstn (k * batchSize) (drain (db w)) ++
                       skipn ((k + 1) * batchSize) (drain (db w))) ->
         SyncQueueItem.task_id e <> SyncQueueItem.task_id item) ->
      (forall row, In row (tasks (db w')) ->
         Task.id row = SyncQueueItem.task_id item ->
         Task.title row = Task.title snapshot /\
         Task.description row = Task.description snapshot /\
         Task.completed row = Task.completed snapshot /\
         Task.sync_status row = st_synced /\
         Task.server_id row =
           nullish (Task.server_id snapshot) (ProcessedItem.server_id processed)) /\
      no_entries (SyncQueueItem.task_id item) (db w')).
Proof.
  split.
  - intros. eapply resolution_step; eassumption.
  - intros. eapply resolution_lasts; eassumption.
Qed.

Lemma newer_remote_snapshot_overwrites_record_witness :
  no_entries "t1"
    (db (snd (sync ex_clock (remote_up_at 0 conflict_with_snapshot) 2 1 world_one_entry))).
Proof.
  apply (proj2 newer_remote_snapshot_overwrites_record ex_clock
           (remote_up_at 0 conflict_with_snapshot) 2 1 world_one_entry
           (SyncResult.mk true 1 0 [])
           (snd (sync ex_clock (remote_up_at 0 conflict_with_snapshot) 2 1 world_one_entry))
           0 (BatchSyncRequest.mk [entry_create] 1000)
           (BatchSyncResponse.mk [conflict_with_snapshot]) []
           conflict_with_snapshot [] entry_create task_milk task_oat_milk).
  - reflexivity.
  - reflexivity.
  - reflexivity.
  - reflexivity.
  - reflexivity.
  - reflexivity.
  - reflexivity.
  - reflexivity.
  - intros p' [].
  - intros e [].
Defined.

(** C5, as stated, fails. Two entries of one record, batch size 1, after two
    passes in which the remote authority could not be reached: in the third
    pass the first batch is answered with a conflict whose snapshot is newer
    than the local record and has no [server_id] of its own, the second
    fails in transport. At the end of that pass the record has the
    [server_id] of the outcome, which is not in the snapshot, and
    [sync_status = 'error']. *)
Lemma conflict_then_transport_failure_ends_in_error :
  exists result w' req,
    sync ex_clock (remote_up_at 4 conflict_with_snapshot) 3 1 world_after_two_outages =
      (Some result, w') /\
    nth_error (sent w') (List.length (sent world_after_two_outages) + 0) =
      Some (req, inr (BatchSyncResponse.mk [conflict_with_snapshot])) /\
    find (entry_of_task (ProcessedItem.client_id conflict_with_snapshot))
      (BatchSyncRequest.items req) = Some entry_create_failed_twice /\
    ProcessedItem.status conflict_with_snapshot = r_conflict /\
    ProcessedItem.resolved_data conflict_with_snapshot = Some task_oat_milk /\
    fst (getTask (SyncQueueItem.task_id entry_create_failed_twice)
           world_after_two_outages) = Some task_milk /\
    (Task.updated_at task_milk < Task.updated_at task_oat_milk)%Z /\
    tasks (db w') =
      [Task.mk "t1" "Buy oat milk" (Some "2 l"%string) true 10 1009
         false st_error (Some "srv_9"%string) (Some 1010%Z)] /\
    ~ (forall row, In row (tasks (db w')) ->
         Task.id row = SyncQueueItem.task_id entry_create_failed_twice ->
         Task.server_id row = Task.server_id task_oat_milk) /\
    ~ (forall row, In row (tasks (db w')) ->
         Task.id row = SyncQueueItem.task_id entry_create_failed_twice ->
         Task.sync_status row = st_synced).
Proof.
  pose (w' := snd (sync ex_clock (remote_up_at 4 conflict_with_snapshot) 3 1
                     world_after_two_outages)).
  assert (Ht : tasks (db w') =
               [Task.mk "t1" "Buy oat milk" (Some "2 l"%string) true
                  10 1009 false st_error (Some "srv_9"%string) (Some 1010%Z)])
    by (vm_compute; reflexivity).
  exists (SyncResult.mk false 1 1
            [SyncError.mk "t1" op_update "Network Error" 1013]),
         w', (BatchSyncRequest.mk [entry_create_failed_twice] 1008).
  split; [vm_compute; reflexivity|]. split; [vm_compute; reflexivity|].
  split; [vm_compute; reflexivity|]. split; [reflexivity|].
  split; [reflexivity|]. split; [vm_compute; reflexivity|].
  split; [reflexivity|]. split; [exact Ht|]. split.
  - intros H. rewrite Ht in H.
    specialize (H _ (or_introl eq_refl) eq_refl). discriminate H.
  - intros H. rewrite Ht in H.
    specialize (H _ (or_introl eq_refl) eq_refl). discriminate H.
Qed.

(** C6. With a Change Log of N entries and a batch size B > 0, a pass
    performs exactly ceil(N/B) exchanges, one after the other, none of more
    than B entries; put end to end the batches are the whole Change Log in
    creation-time order. *)
Theorem sync_exchanges_in_batches :
  forall (clock : nat -> Z) (remote : nat -> BatchSyncRequest.t -> ExchangeResult)
         (fuel batchSize : nat) (w : World),
    0 < batchSize ->
    List.length (sync_queue (db w)) < fuel ->
    exists result w',
      sync clock remote fuel batchSize w = (Some result, w') /\
      List.length (exchanged w w') =
        ceil_div (List.length (sync_queue (db w))) batchSize /\
      (List.length (sync_queue (db w)) <=
         ceil_div (List.length (sync_queue (db w))) batchSize * batchSize /\
       forall k, List.length (sync_queue (db w)) <= k * batchSize ->
                 ceil_div (List.length (sync_queue (db w))) batchSize <= k) /\
      Forall (fun batch => List.length batch <= batchSize) (exchanged w w') /\
      List.concat (exchanged w w') = drain (db w) /\
      StronglySorted created_le (drain (db w)) /\
      Permutation (map item_of_row (sync_queue (db w))) (drain (db w)).
Proof.
  intros clock remote fuel batchSize w Hb Hfuel.
  destruct (sync_pass_exchanges clock remote fuel batchSize w Hb Hfuel)
    as [result [w' [Hrun [Hlen [Hall Hcat]]]]].
  exists result, w'. split; [exact Hrun|]. split; [exact Hlen|].
  split; [now apply ceil_div_spec|]. split; [exact Hall|]. split; [exact Hcat|].
  split; [apply drain_sorted|apply drain_perm].
Qed.

Lemma sync_exchanges_in_batches_witness :
  exists result w',
    sync ex_clock (remote_up_at 0 success_srv_1) 3 1 world_two_entries = (Some result, w') /\
    List.length (exchanged world_two_entries w') = 2.
Proof.
  destruct (sync_exchanges_in_batches ex_clock (remote_up_at 0 success_srv_1) 3 1
              world_two_entries) as [result [w' [H1 [H2 _]]]].
  - lia.
  - simpl. lia.
  - exists result, w'. split; [exact H1|]. rewrite H2. reflexivity.
Defined.

(** C7, as the code has it. With a batch size above 0 (or an empty Change
    Log), whatever the Change Log holds and whatever the remote authority
    answers, exchanges that throw included, a pass returns a result. Its
    exchanges carry the whole drained Change Log, each answered by the remote
    authority. The failures are exactly: every entry of a batch whose
    exchange threw, and every outcome of a response that matches an entry of
    its batch and is an [error], or a [conflict] without snapshot or for a
    record without live row. Each is reported by one entry of [errors], in
    the order of the exchanges, and counted once in [failed_items]; nothing
    else is reported or counted. [synced_items] counts the other matched
    outcomes, and [success] is true exactly when [failed_items] is zero. On
    an empty Change Log the result is success with zero counts and no error,
    and nothing is exchanged or written. *)
Theorem sync_returns_normally :
  forall (clock : nat -> Z) (remote : nat -> BatchSyncRequest.t -> ExchangeResult)
         (fuel batchSize : nat) (w : World),
    0 < batchSize \/ sync_queue (db w) = [] ->
    List.length (sync_queue (db w)) < fuel ->
    exists result w',
      sync clock remote fuel batchSize w = (Some result, w') /\
      List.concat (exchanged w w') = drain (db w) /\
      answered_by remote w w' /\
      map report (SyncResult.errors result) = failures_of_pass w w' /\
      SyncResult.failed_items result = List.length (failures_of_pass w w') /\
      SyncResult.synced_items result = successes_of_pass w w' /\
      (SyncResult.success result = true <-> SyncResult.failed_items result = 0) /\
      (sync_queue (db w) = [] ->
       result = SyncResult.mk true 0 0 [] /\ w' = w).
Proof.
  intros clock remote fuel batchSize w Hb Hfuel.
  assert (Hrun : exists acc' w',
            sync_loop clock remote fuel batchSize (drain (db w)) 0
              (mkTally 0 0 []) w = (Some acc', w') /\
            List.concat (exchanged w w') = drain (db w) /\
            (sync_queue (db w) = [] -> acc' = mkTally 0 0 [] /\ w' = w)).
  { destruct (sync_queue (db w)) as [|q rest] eqn:Hq.
    - destruct fuel as [|fuel]; [simpl in Hfuel; lia|].
      rewrite (drain_empty _ Hq), sync_loop_empty.
      exists (mkTally 0 0 []), w. split; [reflexivity|]. split; [|auto].
      unfold exchanged. now rewrite skipn_all.
    - destruct Hb as [Hb|Hb]; [|discriminate].
      destruct (sync_loop_returns clock remote batchSize (drain (db w)) Hb fuel 0
                  (mkTally 0 0 []) w) as [acc' [w' [Hrun _]]].
      + rewrite drain_length, Hq. lia.
      + reflexivity.
      + exists acc', w'. split; [exact Hrun|]. split; [|discriminate].
        destruct (sync_loop_exchanges clock remote batchSize (drain (db w)) Hb
                    _ _ _ _ _ _ Hrun) as [log [Hlog [Hcat _]]].
        rewrite (exchanged_app _ _ _ Hlog). exact Hcat. }
  destruct Hrun as [acc' [w' [Hrun [Hcat Hempty]]]].
  destruct (sync_loop_reports clock remote (db w) batchSize (drain (db w))
              _ _ _ _ _ _ Hrun (fun t => eq_refl))
    as [log [Hlog [H1 [H2 [H3 H4]]]]].
  assert (Hx : exchanges w w' = log)
    by (unfold exchanges; rewrite Hlog; apply skipn_length_app).
  exists (result_of acc'), w'. rewrite sync_run, Hrun.
  split; [reflexivity|]. split; [exact Hcat|].
  unfold answered_by, failures_of_pass, successes_of_pass. rewrite Hx.
  split; [exact H4|]. split; [exact H1|]. split; [exact H2|]. split; [exact H3|].
  split.
  - simpl. apply Nat.eqb_eq.
  - intros Hq. destruct (Hempty Hq) as [-> ->]. split; reflexivity.
Qed.

Lemma sync_returns_normally_witness :
  exists result w',
    sync ex_clock remote_down 3 1 world_two_entries = (Some result, w') /\
    SyncResult.success result = false /\
    SyncResult.failed_items result = 2 /\
    map report (SyncResult.errors result) =
      [("t1"%string, op_create, "Network Error"%string);
       ("t1"%string, op_update, "Network Error"%string)].
Proof.
  destruct (sync_returns_normally ex_clock remote_down 3 1 world_two_entries)
    as [result [w' [H1 [_ [_ [H4 [H5 [_ [H7 _]]]]]]]]].
  - left. lia.
  - simpl. lia.
  - assert (Hw : w' = snd (sync ex_clock remote_down 3 1 world_two_entries))
      by (rewrite H1; reflexivity).
    assert (Hf : failures_of_pass world_two_entries w' =
                 [("t1"%string, op_create, "Network Error"%string);
                  ("t1"%string, op_update, "Network Error"%string)])
      by (rewrite Hw; vm_compute; reflexivity).
    rewrite Hf in H4, H5. exists result, w'.
    split; [exact H1|]. split; [|split; [exact H5|exact H4]].
    destruct (SyncResult.success result); [|reflexivity].
    destruct H7 as [H7 _]. rewrite (H7 eq_refl) in H5. discriminate H5.
Defined.

(** C7, as stated, fails when the batch size is 0: over a Change Log that
    is not empty the pass never returns, however long it runs. *)
Lemma pass_with_batch_size_zero_does_not_return :
  sync_queue (db world_one_entry) = [entry_create] /\
  forall fuel : nat,
    fst (sync ex_clock (remote_up_at 0 success_srv_1) fuel 0 world_one_entry) = None.
Proof.
  split; [reflexivity|]. intros fuel. rewrite sync_run. cbn [fst].
  rewrite sync_loop_zero_batch_size; [reflexivity|].
  vm_compute. discriminate.
Qed.

(** C8, as the code has it. A conflict outcome for which the lookup finds
    no local record, or which carries no [resolved_data], is a failure of the
    matched entry: [failed] grows by one, [synced] does not; [errors] gets
    one entry for the record and operation, whose text is ["Conflict"]; the
    row of the entry, where the Change Log still holds it, gets the
    [retry_count] the entry was drained with plus one and the message
    ["Conflict without resolvable data"], every other row is left as it is,
    and nothing is stored when an earlier outcome of the pass has removed
    the row; no row leaves the Change Log and no field of any record is
    written, [sync_status] on escalation apart. *)
Theorem unresolvable_conflict_is_a_failure :
  forall (clock : nat -> Z) (batch : list SyncQueueItem.t)
         (processed : ProcessedItem.t) (item : SyncQueueItem.t)
         (acc : Tally) (w : World),
    find (entry_of_task (ProcessedItem.client_id processed)) batch = Some item ->
    ProcessedItem.status processed = r_conflict ->
    fst (getTask (SyncQueueItem.task_id item) w) = None \/
    ProcessedItem.resolved_data processed = None ->
    let r := process_item clock batch processed acc w in
    synced (fst r) = synced acc /\
    failed (fst r) = failed acc + 1 /\
    map report (errors (fst r)) =
      map report (errors acc) ++
      [(SyncQueueItem.task_id item, SyncQueueItem.operation item, "Conflict"%string)] /\
    Forall2 (failed_by item "Conflict without resolvable data")
      (sync_queue (db w)) (sync_queue (db (snd r))) /\
    (forall row, In row (sync_queue (db w)) ->
       SyncQueueItem.id row = SyncQueueItem.id item ->
       SyncQueueItem.retry_count row = SyncQueueItem.retry_count item ->
       In (marked_failed "Conflict without resolvable data" row)
          (sync_queue (db (snd r)))) /\
    ((forall row, In row (sync_queue (db w)) ->
        SyncQueueItem.id row <> SyncQueueItem.id item) ->
     sync_queue (db (snd r)) = sync_queue (db w)) /\
    List.length (sync_queue (db (snd r))) = List.length (sync_queue (db w)) /\
    Forall2 same_payload (tasks (db w)) (tasks (db (snd r))).
Proof.
  intros clock batch processed item acc w Hf Hs Hno r. subst r.
  rewrite (process_item_conflict_unresolvable clock _ _ _ _ _ Hf Hs Hno).
  destruct (after_failure_effect clock item "Conflict without resolvable data"
              "Conflict" acc w) as [H1 [H2 [H3 [H4 [H5 H6]]]]].
  pose proof (failure_db_failed_by item "Conflict without resolvable data" (db w))
    as Hq.
  rewrite <- (after_failure_db clock item "Conflict without resolvable data"
                "Conflict" acc w) in Hq.
  split; [exact H1|]. split; [exact H2|]. split; [exact H3|].
  split; [exact Hq|]. split; [exact H4|]. split; [|split; [exact H5|exact H6]].
  intros Habsent. now apply (failed_by_absent item "Conflict without resolvable data").
Qed.

Lemma unresolvable_conflict_is_a_failure_witness :
  failed (fst (process_item ex_clock [entry_create] conflict_without_data
                 (mkTally 0 0 []) world_one_entry)) = 1.
Proof.
  apply (unresolvable_conflict_is_a_failure ex_clock [entry_create]
           conflict_without_data entry_create (mkTally 0 0 []) world_one_entry).
  - reflexivity.
  - reflexivity.
  - right. reflexivity.
Defined.

(** C8, as stated, fails: for a conflict reported without [resolved_data]
    the fixed message is stored on the entry, but the text reported in
    [errors] is ["Conflict"], not that message. *)
Lemma unresolvable_conflict_reports_short_text :
  let r := process_item ex_clock [entry_create] conflict_without_data
             (mkTally 0 0 []) world_one_entry in
  ProcessedItem.status conflict_without_data = r_conflict /\
  ProcessedItem.resolved_data conflict_without_data = None /\
  sync_queue (db (snd r)) =
    [marked_failed "Conflict without resolvable data" entry_create] /\
  map SyncError.error (errors (fst r)) = ["Conflict"%string] /\
  ~ In "Conflict without resolvable data"%string (map SyncError.error (errors (fst r))) /\
  ~ In "conflict without resolvable data"%string (map SyncError.error (errors (fst r))).
Proof.
  cbv zeta. repeat split; try reflexivity.
  - simpl. intros [H|[]]. discriminate.
  - simpl. intros [H|[]]. discriminate.
Qed.

(** The fixed message is stored only where the Change Log still has the row
    of the entry. A record with a [create] and an [update] entry sent in one
    batch, answered with [success] and then with a conflict without
    [resolved_data]: both outcomes name the record, so both are matched to
    the [create] entry; the success removes the entries of the record, the
    conflict is counted and reported as a failure, and the message is stored
    nowhere. *)
Lemma unresolvable_conflict_after_success_stores_nothing :
  exists result w',
    sync ex_clock (remote_answering [success_srv_1; conflict_without_data]) 3 2
      world_two_entries = (Some result, w') /\
    SyncResult.synced_items result = 1 /\
    SyncResult.failed_items result = 1 /\
    map report (SyncResult.errors result) =
      [("t1"%string, op_create, "Conflict"%string)] /\
    sync_queue (db w') = [].
Proof.
  exists (SyncResult.mk false 1 1 [SyncError.mk "t1" op_create "Conflict" 1002]),
         (snd (sync ex_clock (remote_answering [success_srv_1; conflict_without_data])
                 3 2 world_two_entries)).
  repeat split; vm_compute; reflexivity.
Qed.

(** C9, as the code has it. A conflict outcome for a record whose rows are
    all soft-deleted finds no local record ([getTask] filters on
    [is_deleted = 0]); whatever [resolved_data] the response carries, a valid
    snapshot included, the outcome is handled as a failure: [failed] grows by
    one, [synced] does not, one error is recorded, and nothing of a snapshot
    is written to any record; the row of the matched entry, where the Change
    Log still holds it, gets the [retry_count] the entry was drained with
    plus one, every other row is left as it is, and no [retry_count] is
    incremented when an earlier outcome of the pass has removed the row. *)
Theorem conflict_on_deleted_record_fails :
  forall (clock : nat -> Z) (batch : list SyncQueueItem.t)
         (processed : ProcessedItem.t) (item : SyncQueueItem.t)
         (acc : Tally) (w : World),
    find (entry_of_task (ProcessedItem.client_id processed)) batch = Some item ->
    ProcessedItem.status processed = r_conflict ->
    (forall row, In row (tasks (db w)) ->
       Task.id row = SyncQueueItem.task_id item -> Task.is_deleted row = true) ->
    fst (getTask (SyncQueueItem.task_id item) w) = None /\
    let r := process_item clock batch processed acc w in
    synced (fst r) = synced acc /\
    failed (fst r) = failed acc + 1 /\
    List.length (errors (fst r)) = List.length (errors acc) + 1 /\
    Forall2 (failed_by item "Conflict without resolvable data")
      (sync_queue (db w)) (sync_queue (db (snd r))) /\
    (forall row, In row (sync_queue (db w)) ->
       SyncQueueItem.id row = SyncQueueItem.id item ->
       exists row', In row' (sync_queue (db (snd r))) /\
         SyncQueueItem.id row' = SyncQueueItem.id row /\
         SyncQueueItem.retry_count row' = SyncQueueItem.retry_count item + 1) /\
    ((forall row, In row (sync_queue (db w)) ->
        SyncQueueItem.id row <> SyncQueueItem.id item) ->
     sync_queue (db (snd r)) = sync_queue (db w)) /\
    Forall2 same_payload (tasks (db w)) (tasks (db (snd r))).
Proof.
  intros clock batch processed item acc w Hf Hs Hdel.
  assert (Hnone : fst (getTask (SyncQueueItem.task_id item) w) = None)
    by now apply getTask_none.
  split; [exact Hnone|]. intros r. subst r.
  rewrite (process_item_conflict_unresolvable clock _ _ _ _ _ Hf Hs (or_introl Hnone)).
  destruct (after_failure_effect clock item "Conflict without resolvable data"
              "Conflict" acc w) as [H1 [H2 [H3 [_ [_ H6]]]]].
  pose proof (failure_db_failed_by item "Conflict without resolvable data" (db w))
    as Hq.
  rewrite <- (after_failure_db clock item "Conflict without resolvable data"
                "Conflict" acc w) in Hq.
  split; [exact H1|]. split; [exact H2|].
  split; [|split; [exact Hq|split; [|split; [|exact H6]]]].
  - simpl. rewrite length_app. reflexivity.
  - intros row Hin Hid. eexists.
    split; [apply (failed_by_In _ _ _ _ row Hq Hin Hid)|]. split; reflexivity.
  - intros Habsent. now apply (failed_by_absent item "Conflict without resolvable data").
Qed.

Lemma conflict_on_deleted_record_fails_witness :
  failed (fst (process_item ex_clock [entry_create] conflict_with_snapshot
                 (mkTally 0 0 []) world_deleted)) = 1.
Proof.
  apply (conflict_on_deleted_record_fails ex_clock [entry_create]
           conflict_with_snapshot entry_create (mkTally 0 0 []) world_deleted).
  - reflexivity.
  - reflexivity.
  - simpl. intros row [<-|[]] _. reflexivity.
Defined.

(** C9, as stated, fails. A record created and soft-deleted before any
    pass, its [create] and [delete] entries sent in one batch; the remote
    authority acknowledges the first with [success] and answers the second
    with a conflict that carries a snapshot. Both outcomes name the record,
    so both are matched to the [create] entry. The success removes the
    entries of the record; the conflict finds no live record and is handled
    as a failure, counted and reported, but no [retry_count] is incremented:
    the Change Log is empty. *)
Lemma conflict_on_deleted_record_after_success_increments_nothing :
  exists result w',
    sync ex_clock (remote_answering [success_srv_1; conflict_with_snapshot]) 3 2
      world_created_then_deleted = (Some result, w') /\
    fst (getTask "t1" world_created_then_deleted) = None /\
    SyncResult.synced_items result = 1 /\
    SyncResult.failed_items result = 1 /\
    map report (SyncResult.errors result) =
      [("t1"%string, op_create, "Conflict"%string)] /\
    sync_queue (db w') = [].
Proof.
  exists (SyncResult.mk false 1 1 [SyncError.mk "t1" op_create "Conflict" 1002]),
         (snd (sync ex_clock (remote_answering [success_srv_1; conflict_with_snapshot])
                 3 2 world_created_then_deleted)).
  repeat split; vm_compute; reflexivity.
Qed.

(** C10. A processed item whose [client_id] is the [task_id] of no entry of
    the dispatched batch is skipped: the counters, the error list, both
    tables and the rest of the world are what they were. *)
Theorem unmatched_item_is_skipped :
  forall (clock : nat -> Z) (batch : list SyncQueueItem.t)
         (processed : ProcessedItem.t) (acc : Tally) (w : World),
    (forall b, In b batch ->
       SyncQueueItem.task_id b <> ProcessedItem.client_id processed) ->
    process_item clock batch processed acc w = (acc, w).
Proof.
  intros clock batch processed acc w H.
  apply process_item_unmatched. now apply find_entry_none.
Qed.

Lemma unmatched_item_is_skipped_witness :
  process_item ex_clock [entry_create]
    (ProcessedItem.mk "t2" (Some "srv_2"%string) r_success None None)
    (mkTally 0 0 []) world_one_entry
  = (mkTally 0 0 [], world_one_entry).
Proof.
  apply unmatched_item_is_skipped.
  simpl. intros b [<-|[]]. simpl. discriminate.
Defined.

(** * Further properties: the local mutations *)

Lemma find_app_none {A : Type} (p : A -> bool) (l l' : list A) :
  find p l = None -> find p (l ++ l') = find p l'.
Proof.
  induction l as [|x l IH]; simpl; intros H; [reflexivity|].
  destruct (p x); [discriminate|auto].
Qed.

Lemma find_app_some {A : Type} (p : A -> bool) (l l' : list A) x :
  find p l = Some x -> find p (l ++ l') = Some x.
Proof.
  induction l as [|y l IH]; simpl; intros H; [discriminate|].
  destruct (p y); auto.
Qed.

Lemma find_task_none id rows :
  find (task_has_id id) rows = None <->
  (forall row, In row rows -> Task.id row <> id).
Proof.
  rewrite find_none_iff. split; intros H row Hrow.
  - apply task_has_id_false. now apply H.
  - apply task_has_id_false. now apply H.
Qed.

Lemma sql_update_find {A : Type} (p q : A -> bool) (f : A -> A) rows x :
  (forall r, p (f r) = p r) ->
  (forall r, p r = true -> q r = true) ->
  find p rows = Some x ->
  find p (sql_update q f rows) = Some (f x).
Proof.
  intros Hp Hq. induction rows as [|r rows IH]; simpl; intros H; [discriminate|].
  destruct (p r) eqn:E.
  - inversion H; subst. rewrite (Hq _ E), Hp, E. reflexivity.
  - assert (E' : p (if q r then f r else r) = false)
      by (destruct (q r); [rewrite Hp|]; exact E).
    rewrite E'. auto.
Qed.

Lemma tasks_of_update_other_rows t t' f rows :
  t' <> t -> (forall r, Task.id (f r) = Task.id r) ->
  filter (task_has_id t) (sql_update (task_has_id t') f rows) =
  filter (task_has_id t) rows.
Proof.
  intros Hne Hid. apply filter_sql_update_other.
  intros r Hr. apply task_has_id_true in Hr.
  split; apply task_has_id_false; [|rewrite Hid]; congruence.
Qed.

Section MutationFacts.

Variable clock : nat -> Z.
Variable trim : string -> string.
Variable JSON_stringify : Payload -> string.

Lemma createTask_run id queueId taskData w :
  trim (or_else (TaskData.title taskData) "") <> ""%string ->
  let title := trim (or_else (TaskData.title taskData) "") in
  let description := or_null (TaskData.description taskData) in
  let completed := truthy (TaskData.completed taskData) in
  let created :=
    Task.mk id title description completed (clock (ticks w)) (clock (ticks w))
      false st_pending None None in
  createTask clock trim JSON_stringify id queueId taskData w =
  (inr created,
   mkWorld
     (mkDatabase
        (tasks (db w) ++ [created])
        (sync_queue (db w) ++
         [new_queue_row queueId id op_create
            (JSON_stringify (payload_create id title description completed))
            (clock (S (ticks w)))]))
     (S (S (ticks w))) (sent w)).
Proof.
  intros Hne. cbv zeta. unfold createTask. rewrite bind_run. cbn [fst snd now].
  apply String.eqb_neq in Hne. rewrite Hne. reflexivity.
Qed.

Lemma updateTask_run queueId id updates w existing :
  find (task_has_id id) (tasks (db w)) = Some existing ->
  let newTitle := if_defined (TaskData.title updates) (Task.title existing) in
  let newDescription :=
    if_defined (TaskData.description updates) (Task.description existing) in
  let newCompleted :=
    if_defined (TaskData.completed updates) (Task.completed existing) in
  let w' :=
    mkWorld
      (mkDatabase
         (sql_update (task_has_id id)
            (set_edited newTitle newDescription newCompleted (clock (ticks w)))
            (tasks (db w)))
         (sync_queue (db w) ++
          [new_queue_row queueId id op_update
             (JSON_stringify (payload_update id newTitle newDescription newCompleted))
             (clock (S (ticks w)))]))
      (S (S (ticks w))) (sent w) in
  updateTask clock JSON_stringify queueId id updates w = (fst (getTask id w'), w').
Proof.
  intros Hfind. cbv zeta. unfold updateTask. rewrite bind_run.
  unfold get_task at 1. cbn [fst snd]. rewrite Hfind. reflexivity.
Qed.

Lemma deleteTask_run queueId id w existing :
  find (task_has_id id) (tasks (db w)) = Some existing ->
  deleteTask clock JSON_stringify queueId id w =
  (true,
   mkWorld
     (mkDatabase
        (sql_update (task_has_id id) (set_deleted (clock (ticks w))) (tasks (db w)))
        (sync_queue (db w) ++
         [new_queue_row queueId id op_delete (JSON_stringify (payload_delete id))
            (clock (S (ticks w)))]))
     (S (S (ticks w))) (sent w)).
Proof.
  intros Hfind. unfold deleteTask. rewrite bind_run.
  unfold get_task at 1. cbn [fst snd]. rewrite Hfind. reflexivity.
Qed.

End MutationFacts.

(** X1. [createTask] throws ['Title is required'] when the title is absent
    or blank after trimming, and has then written nothing: both tables are as
    they were. *)
Theorem createTask_rejects_blank_title :
  forall (clock : nat -> Z) (trim : string -> string)
         (JSON_stringify : Payload -> string) (id queueId : string)
         (taskData : TaskData.t) (w : World),
    trim (or_else (TaskData.title taskData) "") = ""%string ->
    let r := createTask clock trim JSON_stringify id queueId taskData w in
    fst r = inl "Title is required"%string /\
    db (snd r) = db w /\ sent (snd r) = sent w.
Proof.
  intros clock trim JSON_stringify id queueId taskData w Hblank r. subst r.
  unfold createTask. rewrite bind_run. cbn [fst snd now].
  rewrite Hblank. repeat split.
Qed.

Lemma createTask_rejects_blank_title_witness :
  fst (createTask ex_clock ex_trim ex_stringify "t2" "q9" data_untitled world_empty)
  = inl "Title is required"%string.
Proof.
  apply (createTask_rejects_blank_title ex_clock ex_trim ex_stringify "t2" "q9"
           data_untitled world_empty).
  reflexivity.
Defined.

(** X2. [createTask] with a title that is not blank, under an id no record
    has yet: it returns the record it stored, with the trimmed title,
    [sync_status = 'pending'], not deleted and without [server_id]; [getTask]
    of that id then returns this record, [getAllTasks] and
    [getTasksNeedingSync] list it, no other record is touched, and exactly
    one [create] entry for it is appended to the Change Log, which the next
    drain returns. *)
Theorem createTask_then_getTask :
  forall (clock : nat -> Z) (trim : string -> string)
         (JSON_stringify : Payload -> string) (id queueId : string)
         (taskData : TaskData.t) (w : World),
    trim (or_else (TaskData.title taskData) "") <> ""%string ->
    (forall row, In row (tasks (db w)) -> Task.id row <> id) ->
    exists created entry,
      let r := createTask clock trim JSON_stringify id queueId taskData w in
      fst r = inr created /\
      Task.id created = id /\
      Task.title created = trim (or_else (TaskData.title taskData) "") /\
      Task.sync_status created = st_pending /\
      Task.is_deleted created = false /\
      Task.server_id created = None /\
      fst (getTask id (snd r)) = Some created /\
      In created (fst (getAllTasks (snd r))) /\
      In created (fst (getTasksNeedingSync (snd r))) /\
      (forall t, t <> id -> tasks_of t (db (snd r)) = tasks_of t (db w)) /\
      sync_queue (db (snd r)) = sync_queue (db w) ++ [entry] /\
      SyncQueueItem.task_id entry = id /\
      SyncQueueItem.operation entry = op_create /\
      SyncQueueItem.id entry = queueId /\
      In (item_of_row entry) (drain (db (snd r))).
Proof.
  intros clock trim JSON_stringify id queueId taskData w Hne Hfresh.
  pose proof (createTask_run clock trim JSON_stringify id queueId taskData w Hne)
    as Hrun. cbv zeta in Hrun.
  eexists. eexists. cbv zeta. rewrite Hrun. cbn [fst snd db tasks sync_queue].
  split; [reflexivity|]. split; [reflexivity|]. split; [reflexivity|].
  split; [reflexivity|]. split; [reflexivity|]. split; [reflexivity|].
  split; [|split; [|split; [|split; [|split; [reflexivity|]]]]].
  - unfold getTask, get_task. cbn [fst db tasks].
    rewrite find_app_none.
    + simpl. unfold task_has_id. cbn [Task.id]. now rewrite String.eqb_refl.
    + apply find_none_iff. intros row Hrow.
      apply andb_false_iff. left. apply task_has_id_false. now apply Hfresh.
  - unfold getAllTasks. cbn [fst db tasks]. apply filter_In. split; [|reflexivity].
    apply in_or_app. right. now left.
  - unfold getTasksNeedingSync. cbn [fst db tasks]. apply filter_In.
    split; [|reflexivity]. apply in_or_app. right. now left.
  - intros t Ht. unfold tasks_of. cbn [tasks]. rewrite filter_app. simpl.
    unfold task_has_id at 2. cbn [Task.id].
    apply not_eq_sym in Ht. apply String.eqb_neq in Ht. rewrite Ht.
    now rewrite app_nil_r.
  - split; [reflexivity|]. split; [reflexivity|]. split; [reflexivity|].
    apply drain_every_row. cbn [sync_queue]. apply in_or_app. right. now left.
Qed.

Lemma createTask_then_getTask_witness :
  exists created entry,
    fst (createTask ex_clock ex_trim ex_stringify "t2" "q9" data_buy_milk world_empty)
      = inr created /\
    Task.id created = "t2"%string /\
    SyncQueueItem.task_id entry = "t2"%string.
Proof.
  destruct (createTask_then_getTask ex_clock ex_trim ex_stringify "t2" "q9"
              data_buy_milk world_empty) as [created [entry H]].
  - discriminate.
  - simpl. intros row [<-|[]]. discriminate.
  - cbv zeta in H. exists created, entry. tauto.
Defined.

(** X3. [updateTask] and [deleteTask] on an id no record has: the first
    returns [null], the second [false], and neither reads the clock, writes
    a table or queues an entry. *)
Theorem mutations_of_unknown_record_are_noops :
  forall (clock : nat -> Z) (JSON_stringify : Payload -> string)
         (queueId id : string) (updates : TaskData.t) (w : World),
    (forall row, In row (tasks (db w)) -> Task.id row <> id) ->
    updateTask clock JSON_stringify queueId id updates w = (None, w) /\
    deleteTask clock JSON_stringify queueId id w = (false, w).
Proof.
  intros clock JSON_stringify queueId id updates w Hnone.
  apply find_task_none in Hnone.
  unfold updateTask, deleteTask. rewrite !bind_run.
  unfold get_task. cbn [fst snd]. rewrite Hnone. split; reflexivity.
Qed.

Lemma mutations_of_unknown_record_are_noops_witness :
  updateTask ex_clock ex_stringify "q9" "t2" data_done world_one_entry
  = (None, world_one_entry).
Proof.
  apply (mutations_of_unknown_record_are_noops ex_clock ex_stringify "q9" "t2"
           data_done world_one_entry).
  simpl. intros row [<-|[]]. discriminate.
Defined.

(** X4. [updateTask] on an existing record: every row of the record gets the
    given fields, the fields left [undefined] being taken from the stored
    record, with [sync_status = 'pending'] and [updated_at] read from the
    clock; [id], [created_at], [is_deleted], [server_id] and
    [last_synced_at] are kept; no other record is touched; exactly one
    [update] entry for the record is appended to the Change Log; when the
    record is not soft-deleted the updated record is returned. *)
Theorem updateTask_merges_fields :
  forall (clock : nat -> Z) (JSON_stringify : Payload -> string)
         (queueId id : string) (updates : TaskData.t) (w : World)
         (existing : Task.t),
    find (task_has_id id) (tasks (db w)) = Some existing ->
    let r := updateTask clock JSON_stringify queueId id updates w in
    let newTitle := if_defined (TaskData.title updates) (Task.title existing) in
    let newDescription :=
      if_defined (TaskData.description updates) (Task.description existing) in
    let newCompleted :=
      if_defined (TaskData.completed updates) (Task.completed existing) in
    (forall row, In row (tasks (db (snd r))) -> Task.id row = id ->
       Task.title row = newTitle /\ Task.description row = newDescription /\
       Task.completed row = newCompleted /\ Task.sync_status row = st_pending /\
       Task.updated_at row = clock (ticks w)) /\
    Forall2 (fun a b =>
               Task.id a = Task.id b /\ Task.created_at a = Task.created_at b /\
               Task.is_deleted a = Task.is_deleted b /\
               Task.server_id a = Task.server_id b /\
               Task.last_synced_at a = Task.last_synced_at b)
      (tasks (db w)) (tasks (db (snd r))) /\
    (forall t, t <> id -> tasks_of t (db (snd r)) = tasks_of t (db w)) /\
    (exists entry,
        sync_queue (db (snd r)) = sync_queue (db w) ++ [entry] /\
        SyncQueueItem.task_id entry = id /\
        SyncQueueItem.operation entry = op_update /\
        SyncQueueItem.id entry = queueId) /\
    (Task.is_deleted existing = false ->
     fst r = Some (set_edited newTitle newDescription newCompleted
                     (clock (ticks w)) existing)).
Proof.
  intros clock JSON_stringify queueId id updates w existing Hfind.
  pose proof (updateTask_run clock JSON_stringify queueId id updates w existing Hfind)
    as Hrun. cbv zeta in Hrun. cbv zeta. rewrite Hrun. cbn [fst snd db tasks sync_queue].
  split; [|split; [|split; [|split]]].
  - intros row Hin Hid. apply sql_update_In in Hin. destruct Hin as [r0 [_ ->]].
    destruct (task_has_id id r0) eqn:E; [repeat split|].
    apply task_has_id_false in E. contradiction.
  - apply sql_update_Forall2; intros; repeat split.
  - intros t Ht. unfold tasks_of. cbn [tasks].
    apply tasks_of_update_other_rows; [congruence|reflexivity].
  - eexists. split; [reflexivity|]. repeat split.
  - intros Hlive. unfold getTask, get_task. cbn [fst db tasks].
    apply (sql_update_find
             (fun row => task_has_id id row && negb (Task.is_deleted row))
             (task_has_id id)).
    + reflexivity.
    + intros r0 H0. apply andb_true_iff in H0. tauto.
    + clear Hrun. induction (tasks (db w)) as [|r0 rows IH]; simpl in *;
        [discriminate|].
      destruct (task_has_id id r0) eqn:E.
      * inversion Hfind; subst. rewrite Hlive. reflexivity.
      * simpl. auto.
Qed.

Lemma updateTask_merges_fields_witness :
  fst (updateTask ex_clock ex_stringify "q9" "t1" data_done world_one_entry)
  = Some (set_edited "Buy milk" None true 1000 task_milk).
Proof.
  apply (updateTask_merges_fields ex_clock ex_stringify "q9" "t1" data_done
           world_one_entry task_milk).
  - reflexivity.
  - reflexivity.
Defined.

(** X5. [updateTask] on a soft-deleted record returns [null], as for an
    unknown id, although it has rewritten the record, set it back to
    ['pending'] and queued an [update] entry for it. *)
Theorem updateTask_on_deleted_record_writes_but_returns_null :
  forall (clock : nat -> Z) (JSON_stringify : Payload -> string)
         (queueId id : string) (updates : TaskData.t) (w : World)
         (existing : Task.t),
    find (task_has_id id) (tasks (db w)) = Some existing ->
    (forall row, In row (tasks (db w)) -> Task.id row = id ->
       Task.is_deleted row = true) ->
    let r := updateTask clock JSON_stringify queueId id updates w in
    fst r = None /\
    In (set_edited (if_defined (TaskData.title updates) (Task.title existing))
          (if_defined (TaskData.description updates) (Task.description existing))
          (if_defined (TaskData.completed updates) (Task.completed existing))
          (clock (ticks w)) existing)
       (tasks (db (snd r))) /\
    List.length (sync_queue (db (snd r))) = S (List.length (sync_queue (db w))) /\
    (exists entry,
        In entry (sync_queue (db (snd r))) /\
        SyncQueueItem.id entry = queueId /\
        SyncQueueItem.task_id entry = id /\
        SyncQueueItem.operation entry = op_update).
Proof.
  intros clock JSON_stringify queueId id updates w existing Hfind Hdel.
  pose proof (updateTask_run clock JSON_stringify queueId id updates w existing Hfind)
    as Hrun. cbv zeta in Hrun. cbv zeta. rewrite Hrun. cbn [fst snd db tasks sync_queue].
  split; [|split; [|split]].
  - apply getTask_none. cbn [db tasks]. intros row Hin Hid.
    apply sql_update_In in Hin. destruct Hin as [r0 [Hr0 ->]].
    destruct (task_has_id id r0) eqn:E.
    + cbn [set_edited Task.is_deleted]. apply Hdel; [exact Hr0|].
      now apply task_has_id_true.
    + now apply Hdel.
  - apply sql_update_In. exists existing.
    apply find_some in Hfind. destruct Hfind as [Hin Hid]. split; [exact Hin|].
    now rewrite Hid.
  - rewrite length_app. simpl. lia.
  - eexists. split; [apply in_or_app; right; left; reflexivity|]. repeat split.
Qed.

Lemma updateTask_on_deleted_record_writes_but_returns_null_witness :
  fst (updateTask ex_clock ex_stringify "q9" "t1" data_done world_deleted) = None.
Proof.
  apply (updateTask_on_deleted_record_writes_but_returns_null ex_clock ex_stringify
           "q9" "t1" data_done world_deleted task_milk_deleted).
  - reflexivity.
  - simpl. intros row [<-|[]] _. reflexivity.
Defined.

(** X6. [deleteTask] on an existing record returns [true] and soft-deletes:
    no row leaves the Record Store, every row of the record gets
    [is_deleted = 1] and [sync_status = 'pending'] and keeps its title,
    description, completed flag and [server_id]; [getTask] of the id then
    returns [null] and [getAllTasks] no longer lists the record, while
    [getTasksNeedingSync] does; no other record is touched; exactly one
    [delete] entry is appended to the Change Log; a second [deleteTask] of
    the same id is accepted again. *)
Theorem deleteTask_hides_record :
  forall (clock : nat -> Z) (JSON_stringify : Payload -> string)
         (queueId queueId' id : string) (w : World) (existing : Task.t),
    find (task_has_id id) (tasks (db w)) = Some existing ->
    let r := deleteTask clock JSON_stringify queueId id w in
    fst r = true /\
    Forall2 (fun a b =>
               Task.id a = Task.id b /\ Task.title a = Task.title b /\
               Task.description a = Task.description b /\
               Task.completed a = Task.completed b /\
               Task.created_at a = Task.created_at b /\
               Task.server_id a = Task.server_id b /\
               Task.last_synced_at a = Task.last_synced_at b)
      (tasks (db w)) (tasks (db (snd r))) /\
    (forall row, In row (tasks (db (snd r))) -> Task.id row = id ->
       Task.is_deleted row = true /\ Task.sync_status row = st_pending /\
       In row (fst (getTasksNeedingSync (snd r)))) /\
    fst (getTask id (snd r)) = None /\
    (forall row, In row (fst (getAllTasks (snd r))) -> Task.id row <> id) /\
    (forall t, t <> id -> tasks_of t (db (snd r)) = tasks_of t (db w)) /\
    (exists entry,
        sync_queue (db (snd r)) = sync_queue (db w) ++ [entry] /\
        SyncQueueItem.task_id entry = id /\
        SyncQueueItem.operation entry = op_delete /\
        SyncQueueItem.id entry = queueId) /\
    fst (deleteTask clock JSON_stringify queueId' id (snd r)) = true.
Proof.
  intros clock JSON_stringify queueId queueId' id w existing Hfind.
  pose proof (deleteTask_run clock JSON_stringify queueId id w existing Hfind)
    as Hrun. cbv zeta. rewrite Hrun. cbn [fst snd db tasks sync_queue].
  assert (Hrows : forall row,
             In row (sql_update (task_has_id id) (set_deleted (clock (ticks w)))
                       (tasks (db w))) ->
             Task.id row = id ->
             Task.is_deleted row = true /\ Task.sync_status row = st_pending).
  { intros row Hin Hid. apply sql_update_In in Hin. destruct Hin as [r0 [_ ->]].
    destruct (task_has_id id r0) eqn:E; [split; reflexivity|].
    apply task_has_id_false in E. contradiction. }
  split; [reflexivity|]. split; [|split; [|split; [|split; [|split; [|split]]]]].
  - apply sql_update_Forall2; intros; repeat split.
  - intros row Hin Hid. destruct (Hrows row Hin Hid) as [H1 H2].
    split; [exact H1|]. split; [exact H2|].
    unfold getTasksNeedingSync. cbn [fst db tasks]. apply filter_In.
    split; [exact Hin|]. unfold needs_sync. now rewrite H2.
  - apply getTask_none. cbn [db tasks]. intros row Hin Hid.
    now apply Hrows.
  - unfold getAllTasks. cbn [fst db tasks]. intros row Hin Hid.
    apply filter_In in Hin. destruct Hin as [Hin Hlive].
    destruct (Hrows row Hin Hid) as [Hd _]. rewrite Hd in Hlive. discriminate.
  - intros t Ht. unfold tasks_of. cbn [tasks].
    apply tasks_of_update_other_rows; [congruence|reflexivity].
  - eexists. split; [reflexivity|]. repeat split.
  - assert (Hfind' : find (task_has_id id)
                       (sql_update (task_has_id id) (set_deleted (clock (ticks w)))
                          (tasks (db w))) =
                     Some (set_deleted (clock (ticks w)) existing)).
    { apply sql_update_find; auto. }
    erewrite deleteTask_run; [reflexivity|exact Hfind'].
Qed.

Lemma deleteTask_hides_record_witness :
  fst (getTask "t1"
         (snd (deleteTask ex_clock ex_stringify "q9" "t1" world_one_entry))) = None.
Proof.
  apply (deleteTask_hides_record ex_clock ex_stringify "q9" "q10" "t1"
           world_one_entry task_milk).
  reflexivity.
Defined.

(** * Further properties: outcomes the pass handles *)

Lemma sql_update_twice {A : Type} (p : A -> bool) (f g : A -> A) rows :
  (forall r, p (f r) = p r) -> (forall r, g (f r) = g r) ->
  sql_update p g (sql_update p f rows) = sql_update p g rows.
Proof.
  intros Hp Hg. unfold sql_update. rewrite map_map. apply map_ext.
  intros r. destruct (p r) eqn:E.
  - now rewrite Hp, E, Hg.
  - now rewrite E.
Qed.

(** A second failure of the same drained entry overwrites the first. *)
Lemma failure_db_twice item m1 m2 d :
  failure_db item m2 (failure_db item m1 d) = failure_db item m2 d.
Proof.
  unfold failure_db. cbn [tasks sync_queue]. f_equal.
  - destruct (escalates item); [|reflexivity].
    now apply sql_update_twice.
  - now apply sql_update_twice.
Qed.

(** X7. Two error outcomes of one response that match the same entry (two
    outcomes with the same [client_id]): [failed] grows by two and [errors]
    by two, but the row of the entry ends with [retry_count] one higher than
    drained, not two, and with the message of the second outcome, because
    both are computed from the drained copy. *)
Theorem second_failure_in_a_pass_does_not_count :
  forall (clock : nat -> Z) (batch : list SyncQueueItem.t)
         (first second : ProcessedItem.t) (item : SyncQueueItem.t)
         (acc : Tally) (w : World) (row : SyncQueueItem.t),
    find (entry_of_task (ProcessedItem.client_id first)) batch = Some item ->
    find (entry_of_task (ProcessedItem.client_id second)) batch = Some item ->
    ProcessedItem.status first = r_error ->
    ProcessedItem.status second = r_error ->
    In row (sync_queue (db w)) ->
    item = item_of_row row ->
    let r := for_each [first; second] (process_item clock batch) acc w in
    failed (fst r) = failed acc + 2 /\
    List.length (errors (fst r)) = List.length (errors acc) + 2 /\
    In (marked_failed (or_else (ProcessedItem.error second) "Sync error") row)
       (sync_queue (db (snd r))) /\
    List.length (sync_queue (db (snd r))) = List.length (sync_queue (db w)).
Proof.
  intros clock batch first second item acc w row Hf1 Hf2 Hs1 Hs2 Hin Hitem r.
  subst r. rewrite !for_each_cons. cbn [for_each ret fst snd].
  rewrite (process_item_error clock _ _ _ _ _ Hf2 Hs2).
  rewrite (process_item_error clock _ _ _ _ _ Hf1 Hs1).
  rewrite !after_failure_db, failure_db_twice.
  split; [simpl; lia|]. split; [simpl; rewrite !length_app; simpl; lia|].
  split.
  - apply failure_db_marks; subst item; auto.
  - apply failure_db_queue_length.
Qed.

Lemma second_failure_in_a_pass_does_not_count_witness :
  failed (fst (for_each [error_rejected; error_unexplained]
                 (process_item ex_clock [entry_create; entry_update])
                 (mkTally 0 0 []) world_two_entries)) = 2.
Proof.
  apply (second_failure_in_a_pass_does_not_count ex_clock
           [entry_create; entry_update] error_rejected error_unexplained
           entry_create (mkTally 0 0 []) world_two_entries entry_create).
  - reflexivity.
  - reflexivity.
  - reflexivity.
  - reflexivity.
  - simpl. now left.
  - reflexivity.
Defined.

(** X8. An [error] outcome that matches an entry is a failure of that entry:
    [failed] grows by one, [synced] does not, the row of the entry gets
    [retry_count] one higher and the remote message, or ['Sync error'] when
    the outcome has none, and [errors] gets one entry with the remote
    message, or ['error'] when there is none; no row leaves the Change Log
    and no record field is written, [sync_status] on escalation apart. In
    full, the row with the id of the entry, where the Change Log still holds
    it, gets the [retry_count] the entry was drained with plus one and that
    message, and every other row is left as it is. *)
Theorem error_outcome_is_recorded :
  forall (clock : nat -> Z) (batch : list SyncQueueItem.t)
         (processed : ProcessedItem.t) (item : SyncQueueItem.t)
         (acc : Tally) (w : World),
    find (entry_of_task (ProcessedItem.client_id processed)) batch = Some item ->
    ProcessedItem.status processed = r_error ->
    let r := process_item clock batch processed acc w in
    synced (fst r) = synced acc /\
    failed (fst r) = failed acc + 1 /\
    map report (errors (fst r)) =
      map report (errors acc) ++
      [(SyncQueueItem.task_id item, SyncQueueItem.operation item,
        or_else (ProcessedItem.error processed) "error")] /\
    (forall row, In row (sync_queue (db w)) ->
       SyncQueueItem.id row = SyncQueueItem.id item ->
       SyncQueueItem.retry_count row = SyncQueueItem.retry_count item ->
       In (marked_failed (or_else (ProcessedItem.error processed) "Sync error") row)
          (sync_queue (db (snd r)))) /\
    List.length (sync_queue (db (snd r))) = List.length (sync_queue (db w)) /\
    Forall2 same_payload (tasks (db w)) (tasks (db (snd r))) /\
    (forall message, ProcessedItem.error processed = Some message ->
       message <> ""%string ->
       or_else (ProcessedItem.error processed) "error" = message /\
       or_else (ProcessedItem.error processed) "Sync error" = message) /\
    Forall2 (failed_by item (or_else (ProcessedItem.error processed) "Sync error"))
      (sync_queue (db w)) (sync_queue (db (snd r))).
Proof.
  intros clock batch processed item acc w Hf Hs r. subst r.
  rewrite (process_item_error clock _ _ _ _ _ Hf Hs).
  destruct (after_failure_effect clock item
              (or_else (ProcessedItem.error processed) "Sync error")
              (or_else (ProcessedItem.error processed) "error") acc w)
    as (H1 & H2 & H3 & H4 & H5 & H6).
  repeat (split; [assumption|]). split.
  - intros message Hm Hne. rewrite Hm.
    destruct message; [contradiction|]. split; reflexivity.
  - rewrite after_failure_db. apply failure_db_failed_by.
Qed.

Lemma error_outcome_is_recorded_witness :
  failed (fst (process_item ex_clock [entry_create] error_rejected
                 (mkTally 0 0 []) world_one_entry)) = 1.
Proof.
  apply (error_outcome_is_recorded ex_clock [entry_create] error_rejected
           entry_create (mkTally 0 0 []) world_one_entry).
  - reflexivity.
  - reflexivity.
Defined.

Lemma resolveConflict_local_wins local remote_version w :
  (Task.updated_at local >= Task.updated_at remote_version)%Z ->
  fst (resolveConflict local remote_version w) = local.
Proof.
  intros H. unfold resolveConflict, ret. simpl.
  apply Z.geb_ge in H. now rewrite H.
Qed.

(** X9. A conflict outcome whose snapshot is not newer than the local record
    found by [getTask]: local wins, so every row of the record is written
    with the title, description and completed flag of that local record, not
    of the snapshot; the record is nevertheless marked ['synced'], its
    Change Log entries are removed and [synced] grows by one; and its
    [server_id] is overwritten with the snapshot's or, failing that, the
    outcome's, so that it is erased when neither carries one. *)
Theorem conflict_local_wins_marks_synced :
  forall (clock : nat -> Z) (batch : list SyncQueueItem.t)
         (processed : ProcessedItem.t) (item : SyncQueueItem.t)
         (local snapshot : Task.t) (acc : Tally) (w : World),
    find (entry_of_task (ProcessedItem.client_id processed)) batch = Some item ->
    ProcessedItem.status processed = r_conflict ->
    ProcessedItem.resolved_data processed = Some snapshot ->
    fst (getTask (SyncQueueItem.task_id item) w) = Some local ->
    (Task.updated_at local >= Task.updated_at snapshot)%Z ->
    let r := process_item clock batch processed acc w in
    synced (fst r) = synced acc + 1 /\
    failed (fst r) = failed acc /\
    errors (fst r) = errors acc /\
    (forall row, In row (tasks (db (snd r))) ->
       Task.id row = SyncQueueItem.task_id item ->
       Task.title row = Task.title local /\
       Task.description row = Task.description local /\
       Task.completed row = Task.completed local /\
       Task.updated_at row = clock (ticks w) /\
       Task.sync_status row = st_synced /\
       Task.server_id row =
         nullish (Task.server_id snapshot) (ProcessedItem.server_id processed)) /\
    (Task.server_id snapshot = None -> ProcessedItem.server_id processed = None ->
     forall row, In row (tasks (db (snd r))) ->
       Task.id row = SyncQueueItem.task_id item -> Task.server_id row = None) /\
    no_entries (SyncQueueItem.task_id item) (db (snd r)) /\
    (forall t, t <> SyncQueueItem.task_id item ->
       tasks_of t (db (snd r)) = tasks_of t (db w)).
Proof.
  intros clock batch processed item local snapshot acc w Hf Hs Hr Hl Hold r.
  subst r.
  rewrite (process_item_conflict_resolved clock _ _ _ _ _ _ _ Hf Hs Hl Hr).
  rewrite (resolveConflict_local_wins _ _ _ Hold). cbn [fst snd].
  destruct (getTask_some _ _ _ Hl) as [_ [Hid _]].
  assert (Hrows : forall row,
             In row (tasks (db (after_resolution clock local local
                                  (nullish (Task.server_id snapshot)
                                     (ProcessedItem.server_id processed)) w))) ->
             Task.id row = SyncQueueItem.task_id item ->
             Task.title row = Task.title local /\
             Task.description row = Task.description local /\
             Task.completed row = Task.completed local /\
             Task.updated_at row = clock (ticks w) /\
             Task.sync_status row = st_synced /\
             Task.server_id row =
               nullish (Task.server_id snapshot) (ProcessedItem.server_id processed)).
  { intros row Hin Hrow.
    destruct (after_resolution_record clock local local _ w row Hin)
      as (H1 & H2 & H3 & H4 & H5 & H6 & _); [congruence|].
    repeat split; assumption. }
  split; [reflexivity|]. split; [reflexivity|]. split; [reflexivity|].
  split; [exact Hrows|]. split; [|split].
  - intros Hs1 Hs2 row Hin Hrow.
    destruct (Hrows row Hin Hrow) as (_ & _ & _ & _ & _ & H6).
    rewrite H6, Hs1, Hs2. reflexivity.
  - unfold after_resolution. cbn [db]. rewrite Hid. apply no_entries_after_delete.
  - intros t Ht. unfold after_resolution. cbn [db].
    apply tasks_of_update_other; [congruence|reflexivity].
Qed.

Lemma conflict_local_wins_marks_synced_witness :
  synced (fst (process_item ex_clock [entry_update] conflict_bare
                 (mkTally 0 0 []) world_edited)) = 1.
Proof.
  apply (conflict_local_wins_marks_synced ex_clock [entry_update] conflict_bare
           entry_update task_milk_edited task_oat_milk (mkTally 0 0 [])
           world_edited).
  - reflexivity.
  - reflexivity.
  - reflexivity.
  - reflexivity.
  - simpl. lia.
Defined.

(** X10. A success outcome writes only sync metadata: every row keeps its
    id, title, description, completed flag, [created_at], [updated_at] and
    [is_deleted], soft-deleted rows of the record included; a row of the
    record takes the remote id when the outcome carries one and keeps its own
    [server_id] when it carries none; rows of other records are not touched
    at all, and no Change Log entry of another record is removed. *)
Theorem success_outcome_writes_only_sync_metadata :
  forall (clock : nat -> Z) (batch : list SyncQueueItem.t)
         (processed : ProcessedItem.t) (item : SyncQueueItem.t)
         (acc : Tally) (w : World),
    find (entry_of_task (ProcessedItem.client_id processed)) batch = Some item ->
    ProcessedItem.status processed = r_success ->
    let r := process_item clock batch processed acc w in
    Forall2 (only_sync_metadata (SyncQueueItem.task_id item)
               (ProcessedItem.server_id processed))
      (tasks (db w)) (tasks (db (snd r))) /\
    (forall q, In q (sync_queue (db w)) ->
       SyncQueueItem.task_id q <> SyncQueueItem.task_id item ->
       In q (sync_queue (db (snd r)))).
Proof.
  intros clock batch processed item acc w Hf Hs r. subst r.
  rewrite (process_item_success clock _ _ _ _ _ Hf Hs). cbn [fst snd].
  unfold after_success. cbn [db tasks sync_queue]. split.
  - unfold sql_update.
    induction (tasks (db w)) as [|a rows IH]; simpl; constructor; [|exact IH].
    unfold only_sync_metadata.
    destruct (task_has_id (SyncQueueItem.task_id item) a) eqn:E.
    + apply task_has_id_true in E.
      repeat split; intros; try reflexivity; contradiction.
    + apply task_has_id_false in E.
      repeat split; intros; try reflexivity; contradiction.
  - intros q Hq Hne. apply sql_delete_In. split; [exact Hq|].
    now apply entry_of_task_false.
Qed.

Lemma success_outcome_writes_only_sync_metadata_witness :
  Forall2 (only_sync_metadata "t1" None) [task_milk_edited]
    (tasks (db (snd (process_item ex_clock [entry_update] success_bare
                       (mkTally 0 0 []) world_edited)))).
Proof.
  apply (success_outcome_writes_only_sync_metadata ex_clock [entry_update]
           success_bare entry_update (mkTally 0 0 []) world_edited).
  - reflexivity.
  - reflexivity.
Defined.

(** * Further properties: what a pass keeps, whatever the remote answers *)

Lemma Forall2_compose {A : Type} (R S T : A -> A -> Prop) l1 l2 l3 :
  (forall a b c, R a b -> S b c -> T a c) ->
  Forall2 R l1 l2 -> Forall2 S l2 l3 -> Forall2 T l1 l3.
Proof.
  intros H H12. revert l3. induction H12; intros l3 H23; inversion H23; subst;
    constructor; eauto.
Qed.

Section PassInvariant.

Variable clock : nat -> Z.
Variable remote : nat -> BatchSyncRequest.t -> ExchangeResult.
Variable allItems : list SyncQueueItem.t.

(** A property of the counters and the database that every branch of the
    pass keeps. *)
Variable P : Tally -> Database -> Prop.

Hypothesis P_success :
  forall acc d t sid at_time,
    P acc d ->
    P (mkTally (synced acc + 1) (failed acc) (errors acc))
      (mkDatabase (sql_update (task_has_id t) (set_synced sid at_time) (tasks d))
         (sql_delete (entry_of_task t) (sync_queue d))).

Hypothesis P_resolved :
  forall acc d t winner sid t1 t2,
    P acc d ->
    P (mkTally (synced acc + 1) (failed acc) (errors acc))
      (mkDatabase (sql_update (task_has_id t) (set_resolved winner t1 sid t2) (tasks d))
         (sql_delete (entry_of_task t) (sync_queue d))).

Hypothesis P_failed :
  forall acc d item message text at_time,
    In item allItems ->
    P acc d ->
    P (mkTally (synced acc) (failed acc + 1)
         (errors acc ++ [SyncError.mk (SyncQueueItem.task_id item)
                           (SyncQueueItem.operation item) text at_time]))
      (failure_db item message d).

Lemma process_item_keeps batch processed acc w :
  (forall e, In e batch -> In e allItems) ->
  P acc (db w) ->
  P (fst (process_item clock batch processed acc w))
    (db (snd (process_item clock batch processed acc w))).
Proof.
  intros Hsub HP.
  pose proof (process_item_outcome clock batch processed acc w) as H.
  remember (process_item clock batch processed acc w) as r eqn:E.
  destruct H as [Hf|item Hf Hs|item local serverTask Hf Hs Hl Hr|item message text Hf];
    cbn [fst snd].
  - exact HP.
  - unfold after_success. cbn [db]. now apply P_success.
  - unfold after_resolution. cbn [db]. now apply P_resolved.
  - rewrite after_failure_db. unfold after_failure. cbn [fst].
    apply P_failed; [|exact HP]. apply Hsub. apply find_entry_some in Hf. tauto.
Qed.

Lemma fail_item_keeps message item acc w :
  In item allItems ->
  P acc (db w) ->
  P (fst (fail_item clock message item acc w))
    (db (snd (fail_item clock message item acc w))).
Proof.
  intros Hin HP. rewrite fail_item_run, after_failure_db.
  unfold after_failure. cbn [fst]. now apply P_failed.
Qed.

Lemma run_batch_keeps batch acc w :
  (forall e, In e batch -> In e allItems) ->
  P acc (db w) ->
  P (fst (run_batch clock remote batch acc w))
    (db (snd (run_batch clock remote batch acc w))).
Proof.
  intros Hsub HP. rewrite run_batch_run. cbv zeta.
  destruct (answer_of clock remote batch w) as [message|response].
  - apply (for_each_invariant (fun a w' => P a (db w'))).
    + intros e a w' He. apply fail_item_keeps. now apply Hsub.
    + exact HP.
  - apply (for_each_invariant (fun a w' => P a (db w'))).
    + intros p a w' _. now apply process_item_keeps.
    + exact HP.
Qed.

Lemma sync_loop_keeps batchSize :
  forall fuel i acc w r w',
    sync_loop clock remote fuel batchSize allItems i acc w = (Some r, w') ->
    P acc (db w) -> P r (db w').
Proof.
  induction fuel as [|fuel IH]; intros i acc w r w' Hrun HP; [discriminate|].
  rewrite sync_loop_step in Hrun. destruct (i <? List.length allItems).
  - eapply IH; [exact Hrun|]. apply run_batch_keeps; [|exact HP].
    intros e He. apply slice_In in He. eapply In_skipn. exact He.
  - inversion Hrun; subst. exact HP.
Qed.

End PassInvariant.

Lemma same_identity_refl a : same_identity a a.
Proof. repeat split. Qed.

Lemma same_identity_trans a b c :
  same_identity a b -> same_identity b c -> same_identity a c.
Proof.
  unfold same_identity. intros (?&?&?) (?&?&?). repeat split; congruence.
Qed.

Lemma same_entry_refl a : same_entry a a.
Proof. repeat split. Qed.

Lemma same_entry_trans a b c : same_entry a b -> same_entry b c -> same_entry a c.
Proof.
  unfold same_entry. intros (?&?&?&?&?) (?&?&?&?&?). repeat split; congruence.
Qed.

Lemma sql_delete_length {A : Type} (p : A -> bool) rows :
  List.length (sql_delete p rows) <= List.length rows.
Proof. unfold sql_delete. apply filter_length_le. Qed.

Lemma carried_over_tasks d0 acc acc' d p f q :
  (forall r, same_identity r (f r)) ->
  carried_over d0 acc d ->
  carried_over d0 acc' (mkDatabase (sql_update p f (tasks d)) (sql_delete q (sync_queue d))).
Proof.
  intros Hf (H1 & H2 & H3). split; [|split]; cbn [tasks sync_queue].
  - eapply (Forall2_compose same_identity same_identity); [|exact H1|].
    + apply same_identity_trans.
    + apply sql_update_Forall2; auto using same_identity_refl.
  - intros q' Hq'. apply sql_delete_In in Hq'. apply H2. tauto.
  - pose proof (sql_delete_length q (sync_queue d)). lia.
Qed.

Lemma carried_over_failure d0 acc acc' d item message :
  carried_over d0 acc d -> carried_over d0 acc' (failure_db item message d).
Proof.
  intros (H1 & H2 & H3). split; [|split].
  - eapply (Forall2_compose same_identity same_identity); [|exact H1|].
    + apply same_identity_trans.
    + unfold failure_db. cbn [tasks]. destruct (escalates item).
      * apply sql_update_Forall2; intros; repeat split.
      * clear. induction (tasks d); constructor; auto using same_identity_refl.
  - intros q' Hq'. cbn [failure_db sync_queue] in Hq'.
    apply sql_update_In in Hq'. destruct Hq' as [q0 [Hq0 ->]].
    destruct (H2 q0 Hq0) as [q [Hq Hsame]]. exists q. split; [exact Hq|].
    destruct (entry_has_id (SyncQueueItem.id item) q0); [|exact Hsame].
    eapply same_entry_trans; [exact Hsame|]. repeat split.
  - rewrite failure_db_queue_length. exact H3.
Qed.

(** X11. Whatever the remote authority answers, a pass creates, removes and
    undeletes no record (the Record Store keeps its rows in place, each with
    its id, [created_at] and [is_deleted]); it creates no Change Log entry,
    and every entry still in the log has the id, record, operation, payload
    and creation time it had: only [retry_count] and [error_message] are
    ever rewritten. *)
Theorem pass_keeps_records_and_entries :
  forall (clock : nat -> Z) (remote : nat -> BatchSyncRequest.t -> ExchangeResult)
         (fuel batchSize : nat) (w : World) (result : SyncResult.t) (w' : World),
    sync clock remote fuel batchSize w = (Some result, w') ->
    Forall2 same_identity (tasks (db w)) (tasks (db w')) /\
    (forall q', In q' (sync_queue (db w')) ->
       exists q, In q (sync_queue (db w)) /\ same_entry q q') /\
    List.length (sync_queue (db w')) <= List.length (sync_queue (db w)).
Proof.
  intros clock remote fuel batchSize w result w' Hsync.
  destruct (sync_some _ _ _ _ _ _ _ Hsync) as [acc' [Hrun _]].
  apply (sync_loop_keeps clock remote (drain (db w)) (carried_over (db w)))
    with (acc := mkTally 0 0 []) (r := acc') in Hrun.
  - exact Hrun.
  - intros. apply (carried_over_tasks (db w) acc); [|assumption].
    intros r. repeat split.
  - intros. apply (carried_over_tasks (db w) acc); [|assumption].
    intros r. repeat split.
  - intros. now apply (carried_over_failure (db w) acc).
  - split; [|split].
    + clear. induction (tasks (db w)); constructor; auto using same_identity_refl.
    + intros q' Hq'. exists q'. split; [exact Hq'|apply same_entry_refl].
    + lia.
Qed.

Lemma pass_keeps_records_and_entries_witness :
  Forall2 same_identity (tasks (db world_two_entries))
    (tasks (db (snd (sync ex_clock (remote_up_at 0 success_srv_1) 3 1
                       world_two_entries)))).
Proof.
  apply (pass_keeps_records_and_entries ex_clock (remote_up_at 0 success_srv_1) 3 1
           world_two_entries
           (SyncResult.mk false 1 1 [SyncError.mk "t1" op_update "Network Error" 1003])
           (snd (sync ex_clock (remote_up_at 0 success_srv_1) 3 1 world_two_entries))).
  vm_compute. reflexivity.
Defined.

(** X12. Every entry of the [errors] list a pass returns names the record
    and the operation of an entry that was in the Change Log when the pass
    began. *)
Theorem errors_name_queued_entries :
  forall (clock : nat -> Z) (remote : nat -> BatchSyncRequest.t -> ExchangeResult)
         (fuel batchSize : nat) (w : World) (result : SyncResult.t) (w' : World),
    sync clock remote fuel batchSize w = (Some result, w') ->
    forall e, In e (SyncResult.errors result) ->
      exists row, In row (sync_queue (db w)) /\
        SyncError.task_id e = SyncQueueItem.task_id row /\
        SyncError.operation e = SyncQueueItem.operation row.
Proof.
  intros clock remote fuel batchSize w result w' Hsync.
  destruct (sync_some _ _ _ _ _ _ _ Hsync) as [acc' [Hrun ->]].
  set (P := fun (acc : Tally) (_ : Database) =>
              forall e, In e (errors acc) ->
                exists row, In row (sync_queue (db w)) /\
                  SyncError.task_id e = SyncQueueItem.task_id row /\
                  SyncError.operation e = SyncQueueItem.operation row).
  assert (HP : P acc' (db w')).
  { refine (sync_loop_keeps clock remote (drain (db w)) P _ _ _ batchSize fuel 0
              (mkTally 0 0 []) w acc' w' Hrun _).
    - intros acc d t sid at_time H. exact H.
    - intros acc d t winner sid t1 t2 H. exact H.
    - intros acc d item message text at_time Hitem H e He. cbn [errors] in He.
      apply in_app_or in He. destruct He as [He|[<-|[]]]; [now apply H|].
      unfold drain in Hitem. apply in_map_iff in Hitem.
      destruct Hitem as [row [<- Hrow]].
      exists row. split; [|split; reflexivity].
      eapply Permutation_in;
        [apply Permutation_sym, order_by_created_at_perm|exact Hrow].
    - intros e []. }
  exact HP.
Qed.

Lemma errors_name_queued_entries_witness :
  exists row, In row (sync_queue (db world_two_entries)) /\
    "t1"%string = SyncQueueItem.task_id row /\ op_update = SyncQueueItem.operation row.
Proof.
  apply (errors_name_queued_entries ex_clock (remote_up_at 0 success_srv_1) 3 1
           world_two_entries
           (SyncResult.mk false 1 1 [SyncError.mk "t1" op_update "Network Error" 1003])
           (snd (sync ex_clock (remote_up_at 0 success_srv_1) 3 1 world_two_entries))
           eq_refl (SyncError.mk "t1" op_update "Network Error" 1003)).
  simpl. now left.
Defined.

(** * Further properties: a pass while the remote authority is out of reach *)

Lemma existsb_false_iff {A : Type} (p : A -> bool) (l : list A) :
  existsb p l = false <-> (forall x, In x l -> p x = false).
Proof.
  induction l as [|a l IH]; simpl.
  - split; [intros _ x []|reflexivity].
  - rewrite orb_false_iff, IH. split.
    + intros [Ha Hl] x [<-|Hx]; auto.
    + intros H. split; [apply H; now left|intros x Hx; apply H; now right].
Qed.

Lemma retried_other message batch q :
  (forall e, In e batch -> SyncQueueItem.id e <> SyncQueueItem.id q) ->
  retried message batch q = q.
Proof.
  intros Hother.
  rewrite (retried_stable message batch q q (or_introl eq_refl)).
  - assert (E : existsb (fun item => String.eqb (SyncQueueItem.id q)
                                       (SyncQueueItem.id item)) batch = false).
    { apply existsb_false_iff. intros e He. apply String.eqb_neq.
      apply not_eq_sym. now apply Hother. }
    now rewrite E.
  - intros item Hin Hid. exfalso. exact (Hother item Hin Hid).
Qed.

Lemma NoDup_map_app_disjoint {A B : Type} (f : A -> B) (l1 l2 : list A) x y :
  NoDup (map f (l1 ++ l2)) -> In x l1 -> In y l2 -> f x <> f y.
Proof.
  induction l1 as [|a l1 IH]; simpl; intros Hnd Hx Hy; [contradiction|].
  inversion Hnd as [|? ? Hnotin Hnd']; subst.
  destruct Hx as [->|Hx]; [|now apply IH].
  intros Heq. apply Hnotin. rewrite Heq. apply in_map.
  apply in_or_app. now right.
Qed.

Lemma NoDup_map_app_r {A B : Type} (f : A -> B) (l1 l2 : list A) :
  NoDup (map f (l1 ++ l2)) -> NoDup (map f l2).
Proof.
  rewrite map_app. induction (map f l1) as [|b bs IH]; simpl; [auto|].
  intros H. inversion H; subst. auto.
Qed.

Lemma skipn_batch_split {A : Type} (l : list A) i b :
  skipn i l = slice l i (i + b) ++ skipn (i + b) l.
Proof.
  rewrite slice_batch. replace (i + b) with (b + i) by lia.
  rewrite <- skipn_skipn. symmetry. apply firstn_skipn.
Qed.

Section Offline.

Variable clock : nat -> Z.
Variable remote : nat -> BatchSyncRequest.t -> ExchangeResult.
Variable batchSize : nat.
Variable allItems : list SyncQueueItem.t.

Hypothesis remote_is_down : forall k req, exists message, remote k req = inl message.

Lemma run_batch_down batch acc w :
  exists message,
    run_batch clock remote batch acc w =
    for_each batch (fail_item clock message) acc
      (mkWorld (db w) (S (ticks w))
         (sent w ++ [(request_of clock batch w, answer_of clock remote batch w)])).
Proof.
  rewrite run_batch_run. cbv zeta.
  destruct (remote_is_down (List.length (sent w)) (request_of clock batch w))
    as [message Hm].
  exists message. unfold answer_of at 1. now rewrite Hm.
Qed.

Lemma offline_loop_counts :
  forall fuel i acc w r w',
    sync_loop clock remote fuel batchSize allItems i acc w = (Some r, w') ->
    synced r = synced acc /\
    failed r = failed acc + List.length (skipn i allItems) /\
    Forall2 same_payload (tasks (db w)) (tasks (db w')) /\
    List.length (sync_queue (db w')) = List.length (sync_queue (db w)).
Proof.
  induction fuel as [|fuel IH]; intros i acc w r w' Hrun; [discriminate|].
  rewrite sync_loop_step in Hrun. destruct (i <? List.length allItems) eqn:E.
  - apply IH in Hrun. destruct Hrun as (H1 & H2 & H3 & H4).
    destruct (run_batch_down (slice allItems i (i + batchSize)) acc w)
      as [message Hm].
    rewrite Hm in H1, H2, H3, H4.
    destruct (fail_batch_tally clock message (slice allItems i (i + batchSize)) acc
                (mkWorld (db w) (S (ticks w))
                   (sent w ++ [(request_of clock (slice allItems i (i + batchSize)) w,
                                answer_of clock remote
                                  (slice allItems i (i + batchSize)) w)])))
      as (T1 & T2 & _).
    rewrite fail_batch_db in H3, H4. cbn [db] in H3, H4.
    split; [congruence|]. split; [|split].
    + rewrite H2, T2, (skipn_batch_split allItems i batchSize), length_app. lia.
    + eapply Forall2_same_payload_trans; [apply fold_failure_payload|exact H3].
    + rewrite H4, fold_failure_queue. apply length_map.
  - apply Nat.ltb_ge in E. inversion Hrun; subst.
    rewrite skipn_all2 by exact E. simpl. repeat split; try lia.
    apply Forall2_same_payload_refl.
Qed.

Lemma offline_loop_keeps_row :
  forall fuel i acc w r w' q,
    sync_loop clock remote fuel batchSize allItems i acc w = (Some r, w') ->
    In q (sync_queue (db w)) ->
    (forall e, In e (skipn i allItems) -> SyncQueueItem.id e <> SyncQueueItem.id q) ->
    In q (sync_queue (db w')).
Proof.
  induction fuel as [|fuel IH]; intros i acc w r w' q Hrun Hq Hother; [discriminate|].
  rewrite sync_loop_step in Hrun. destruct (i <? List.length allItems).
  - eapply IH; [exact Hrun| |].
    + destruct (run_batch_down (slice allItems i (i + batchSize)) acc w)
        as [message Hm].
      rewrite Hm, fail_batch_db, fold_failure_queue. cbn [db].
      apply in_map_iff. exists q. split; [|exact Hq].
      apply retried_other. intros e He. apply Hother. eapply slice_In. exact He.
    + intros e He. apply Hother.
      rewrite (skipn_batch_split allItems i batchSize). apply in_or_app. now right.
  - inversion Hrun; subst. exact Hq.
Qed.

Lemma offline_loop_marks_row :
  forall fuel i acc w r w' row,
    sync_loop clock remote fuel batchSize allItems i acc w = (Some r, w') ->
    NoDup (map SyncQueueItem.id (skipn i allItems)) ->
    In row (sync_queue (db w)) ->
    In (item_of_row row) (skipn i allItems) ->
    exists message, In (marked_failed message row) (sync_queue (db w')).
Proof.
  induction fuel as [|fuel IH]; intros i acc w r w' row Hrun Hnd Hrow Hitem;
    [discriminate|].
  rewrite sync_loop_step in Hrun. destruct (i <? List.length allItems) eqn:E.
  2:{ apply Nat.ltb_ge in E. rewrite skipn_all2 in Hitem by exact E. contradiction. }
  set (batch := slice allItems i (i + batchSize)) in *.
  pose proof (skipn_batch_split allItems i batchSize) as Hsplit. fold batch in Hsplit.
  rewrite Hsplit in Hnd, Hitem.
  destruct (run_batch_down batch acc w) as [message Hm].
  apply in_app_or in Hitem. destruct Hitem as [Hitem|Hitem].
  - exists message.
    eapply offline_loop_keeps_row; [exact Hrun| |].
    + rewrite Hm, fail_batch_db, fold_failure_queue. cbn [db].
      apply in_map_iff. exists row. split; [|exact Hrow].
      rewrite (retried_stable message batch row row (or_introl eq_refl)).
      * assert (Ex : existsb (fun item => String.eqb (SyncQueueItem.id row)
                                            (SyncQueueItem.id item)) batch = true).
        { apply existsb_exists. exists (item_of_row row). split; [exact Hitem|].
          apply String.eqb_refl. }
        now rewrite Ex.
      * intros item Hin Hid.
        assert (item = item_of_row row) as ->; [|reflexivity].
        apply (NoDup_map_inj SyncQueueItem.id (batch ++ skipn (i + batchSize) allItems));
          auto; apply in_or_app; now left.
    + intros e He Heq.
      apply (NoDup_map_app_disjoint SyncQueueItem.id _ _ (item_of_row row) e Hnd Hitem He).
      symmetry. exact Heq.
  - eapply IH; [exact Hrun| | |exact Hitem].
    + eapply NoDup_map_app_r. exact Hnd.
    + rewrite Hm, fail_batch_db, fold_failure_queue. cbn [db].
      apply in_map_iff. exists row. split; [|exact Hrow].
      apply retried_other. intros e He Heq.
      exact (NoDup_map_app_disjoint SyncQueueItem.id _ _ e (item_of_row row)
               Hnd He Hitem Heq).
Qed.

End Offline.

(** X13. A pass during which every exchange fails in transport (batch size
    positive, entry ids distinct): nothing is counted as synced, every entry
    of the Change Log is counted as failed once, [success] is false unless
    the log was empty, no entry leaves the log, the row of every entry ends
    with [retry_count] one higher and a transport message, and no record
    field is written, [sync_status] on escalation apart. *)
Theorem offline_pass_fails_every_entry_once :
  forall (clock : nat -> Z) (remote : nat -> BatchSyncRequest.t -> ExchangeResult)
         (fuel batchSize : nat) (w : World),
    0 < batchSize ->
    List.length (sync_queue (db w)) < fuel ->
    (forall k req, exists message, remote k req = inl message) ->
    NoDup (map SyncQueueItem.id (sync_queue (db w))) ->
    exists result w',
      sync clock remote fuel batchSize w = (Some result, w') /\
      SyncResult.synced_items result = 0 /\
      SyncResult.failed_items result = List.length (sync_queue (db w)) /\
      List.length (SyncResult.errors result) = List.length (sync_queue (db w)) /\
      SyncResult.success result = (List.length (sync_queue (db w)) =? 0) /\
      List.length (sync_queue (db w')) = List.length (sync_queue (db w)) /\
      (forall row, In row (sync_queue (db w)) ->
         exists message, In (marked_failed message row) (sync_queue (db w'))) /\
      Forall2 same_payload (tasks (db w)) (tasks (db w')).
Proof.
  intros clock remote fuel batchSize w Hb Hfuel Hdown Hnd.
  destruct (sync_loop_returns clock remote batchSize (drain (db w)) Hb fuel 0
              (mkTally 0 0 []) w) as [acc' [w' [Hrun Hok]]].
  { rewrite drain_length. lia. }
  { reflexivity. }
  exists (result_of acc'), w'. rewrite sync_run, Hrun. split; [reflexivity|].
  destruct (offline_loop_counts clock remote batchSize (drain (db w)) Hdown
              _ _ _ _ _ _ Hrun) as (H1 & H2 & H3 & H4).
  cbn [skipn synced failed] in H1, H2. rewrite drain_length in H2.
  cbn [result_of SyncResult.synced_items SyncResult.failed_items
         SyncResult.errors SyncResult.success].
  split; [exact H1|]. split; [exact H2|].
  split; [unfold tally_ok in Hok; lia|].
  split; [now rewrite H2|]. split; [exact H4|]. split; [|exact H3].
  intros row Hrow.
  apply (offline_loop_marks_row clock remote batchSize (drain (db w)) Hdown
           _ _ _ _ _ _ row Hrun).
  - cbn [skipn]. unfold drain. rewrite map_map. cbn [item_of_row SyncQueueItem.id].
    eapply Permutation_NoDup; [|exact Hnd].
    apply Permutation_map. apply order_by_created_at_perm.
  - exact Hrow.
  - cbn [skipn]. now apply drain_every_row.
Qed.

Lemma offline_pass_fails_every_entry_once_witness :
  exists result w',
    sync ex_clock remote_down 3 1 world_two_entries = (Some result, w') /\
    SyncResult.failed_items result = 2.
Proof.
  destruct (offline_pass_fails_every_entry_once ex_clock remote_down 3 1
              world_two_entries) as [result [w' [H1 [_ [H3 _]]]]].
  - lia.
  - simpl. lia.
  - intros k req. exists "Network Error"%string. reflexivity.
  - simpl. repeat constructor; simpl; intuition discriminate.
  - exists result, w'. split; [exact H1|exact H3].
Defined.

(** * Further properties: batch size 0 *)

Section ZeroBatch.

Variable clock : nat -> Z.
Variable remote : nat -> BatchSyncRequest.t -> ExchangeResult.

Lemma empty_batch_matches_nothing items acc w :
  for_each items (process_item clock []) acc w = (acc, w).
Proof.
  revert w. induction items as [|p ps IH]; intros w; [reflexivity|].
  rewrite for_each_cons, process_item_unmatched by reflexivity. apply IH.
Qed.

Lemma run_batch_empty acc w :
  run_batch clock remote [] acc w =
  (acc, mkWorld (db w) (S (ticks w))
          (sent w ++ [(request_of clock [] w, answer_of clock remote [] w)])).
Proof.
  rewrite run_batch_run. cbv zeta.
  destruct (answer_of clock remote [] w) as [message|response]; [reflexivity|].
  apply empty_batch_matches_nothing.
Qed.

Lemma sync_loop_zero_spins allItems :
  allItems <> [] ->
  forall fuel acc w,
    let r := sync_loop clock remote fuel 0 allItems 0 acc w in
    fst r = None /\ db (snd r) = db w /\
    List.length (sent (snd r)) = List.length (sent w) + fuel /\
    Forall (fun x => BatchSyncRequest.items (fst x) = [])
      (skipn (List.length (sent w)) (sent (snd r))).
Proof.
  intros Hne. induction fuel as [|fuel IH]; intros acc w; cbv zeta.
  - simpl. repeat split; try lia. rewrite skipn_all. constructor.
  - rewrite sync_loop_step.
    destruct allItems as [|x rest]; [contradiction|]. cbn [Nat.ltb Nat.leb List.length].
    change (0 + 0) with 0.
    replace (slice (x :: rest) 0 0) with (@nil SyncQueueItem.t) by reflexivity.
    rewrite run_batch_empty. cbn [fst snd].
    specialize (IH acc (mkWorld (db w) (S (ticks w))
                          (sent w ++ [(request_of clock [] w,
                                       answer_of clock remote [] w)]))).
    cbv zeta in IH. destruct IH as (H1 & H2 & H3 & H4).
    cbn [db sent] in H2, H3, H4. rewrite length_app in H3, H4. simpl in H3, H4.
    split; [exact H1|]. split; [exact H2|]. split; [lia|].
    destruct (sync_loop_sent_extends clock remote 0 (x :: rest) fuel 0 acc
                (mkWorld (db w) (S (ticks w))
                   (sent w ++ [(request_of clock [] w, answer_of clock remote [] w)]))
                _ _ (surjective_pairing _)) as [log Hlog].
    cbn [sent] in Hlog. rewrite Hlog in H4 |- *.
    rewrite <- app_assoc. rewrite skipn_app, skipn_all, Nat.sub_diag. simpl.
    constructor; [reflexivity|].
    replace (List.length (sent w) + 1) with (List.length (sent w ++ [(request_of clock [] w, answer_of clock remote [] w)]))
      in H4 by (rewrite length_app; reflexivity).
    rewrite skipn_app, skipn_all, Nat.sub_diag in H4. exact H4.
Qed.

End ZeroBatch.

(** X14. With a batch size of 0 a pass over a non-empty Change Log never
    returns: however long it runs, every iteration posts one more request
    with an empty batch, and neither table changes. *)
Theorem zero_batch_size_never_returns :
  forall (clock : nat -> Z) (remote : nat -> BatchSyncRequest.t -> ExchangeResult)
         (fuel : nat) (w : World),
    sync_queue (db w) <> [] ->
    let r := sync clock remote fuel 0 w in
    fst r = None /\ db (snd r) = db w /\
    List.length (exchanged w (snd r)) = fuel /\
    Forall (fun batch => batch = []) (exchanged w (snd r)).
Proof.
  intros clock remote fuel w Hne r. subst r. rewrite sync_run. cbn [fst snd].
  assert (Hne' : drain (db w) <> []).
  { intros H. apply Hne. apply length_zero_iff_nil.
    rewrite <- drain_length, H. reflexivity. }
  destruct (sync_loop_zero_spins clock remote (drain (db w)) Hne' fuel
              (mkTally 0 0 []) w) as (H1 & H2 & H3 & H4).
  rewrite H1. split; [reflexivity|]. split; [exact H2|].
  unfold exchanged. rewrite length_map, length_skipn, H3. split; [lia|].
  rewrite Forall_map. exact H4.
Qed.

Lemma zero_batch_size_never_returns_witness :
  fst (sync ex_clock remote_down 5 0 world_one_entry) = None.
Proof.
  apply (zero_batch_size_never_returns ex_clock remote_down 5 world_one_entry).
  discriminate.
Defined.

(** * Further properties: a pass against the echo endpoint of the repository *)

Lemma firstn_add {A : Type} (l : list A) i b :
  firstn (i + b) l = firstn i l ++ firstn b (skipn i l).
Proof.
  revert l. induction i as [|i IH]; intros l; [reflexivity|].
  destruct l as [|x l]; simpl.
  - now rewrite firstn_nil.
  - now rewrite IH.
Qed.

Lemma find_entry_exists batch e :
  In e batch ->
  exists item,
    find (entry_of_task (SyncQueueItem.task_id e)) batch = Some item /\
    SyncQueueItem.task_id item = SyncQueueItem.task_id e.
Proof.
  intros He.
  destruct (find (entry_of_task (SyncQueueItem.task_id e)) batch) as [item|] eqn:E.
  - exists item. split; [reflexivity|]. apply find_entry_some in E. tauto.
  - exfalso. rewrite find_entry_none in E. now apply (E e He).
Qed.

Lemma acknowledged_for_incl h1 h2 d :
  (forall e, In e h2 -> In e h1) -> acknowledged_for h1 d -> acknowledged_for h2 d.
Proof. intros Hincl H row e Hrow He. apply (H row e); auto. Qed.

Lemma acknowledged_for_success clock handled e t sid w :
  SyncQueueItem.task_id e = t ->
  acknowledged_for handled (db w) ->
  acknowledged_for (handled ++ [e]) (db (after_success clock t (Some sid) w)).
Proof.
  intros Ht H row e' Hrow He' Hid.
  unfold after_success in Hrow. cbn [db tasks] in Hrow.
  apply sql_update_In in Hrow. destruct Hrow as [r0 [Hr0 ->]].
  destruct (task_has_id t r0) eqn:E.
  - unfold acknowledged. cbn [set_synced Task.sync_status Task.server_id
                                Task.last_synced_at nullish].
    split; [reflexivity|]. split; eexists; reflexivity.
  - apply in_app_or in He'. destruct He' as [He'|[<-|[]]].
    + now apply (H r0 e').
    + apply task_has_id_false in E. congruence.
Qed.

Lemma same_content_trans a b c : same_content a b -> same_content b c -> same_content a c.
Proof.
  unfold same_content. intros (?&?&?&?&?&?&?) (?&?&?&?&?&?&?).
  repeat split; congruence.
Qed.

Lemma Forall2_same_content_refl rows : Forall2 same_content rows rows.
Proof. induction rows; constructor; auto. repeat split. Qed.

Section Echo.

Variable clock : nat -> Z.
Variable data_server_id : string -> option string.
Variable random_suffix : nat -> nat -> string.
Variable batch : list SyncQueueItem.t.

Lemma echo_response_run :
  forall items k j acc w,
    (forall e, In e items -> In e batch) ->
    let r := for_each (echo_items data_server_id random_suffix k j items)
               (process_item clock batch) acc w in
    synced (fst r) = synced acc + List.length items /\
    failed (fst r) = failed acc /\
    errors (fst r) = errors acc /\
    (forall q, In q (sync_queue (db (snd r))) <->
       In q (sync_queue (db w)) /\
       forall e, In e items -> SyncQueueItem.task_id q <> SyncQueueItem.task_id e) /\
    (forall handled, acknowledged_for handled (db w) ->
       acknowledged_for (handled ++ items) (db (snd r))) /\
    Forall2 same_content (tasks (db w)) (tasks (db (snd r))).
Proof.
  induction items as [|e rest IH]; intros k j acc w Hsub; cbv zeta.
  - simpl. split; [lia|]. split; [reflexivity|]. split; [reflexivity|].
    split; [intros q; tauto|]. split; [|apply Forall2_same_content_refl].
    intros handled H. now rewrite app_nil_r.
  - cbn [echo_items]. rewrite for_each_cons.
    destruct (find_entry_exists batch e (Hsub e (or_introl eq_refl)))
      as [item [Hfind Hitem]].
    rewrite (process_item_success clock batch
               (ProcessedItem.mk (SyncQueueItem.task_id e)
                  (Some (or_else (data_server_id (SyncQueueItem.data e))
                           (String.append "srv_" (random_suffix k j))))
                  r_success None None)
               item acc w Hfind eq_refl).
    cbn [fst snd ProcessedItem.server_id].
    specialize (IH k (S j) (mkTally (synced acc + 1) (failed acc) (errors acc))
                  (after_success clock (SyncQueueItem.task_id item)
                     (Some (or_else (data_server_id (SyncQueueItem.data e))
                              (String.append "srv_" (random_suffix k j)))) w)
                  (fun e' He' => Hsub e' (or_intror He'))).
    cbv zeta in IH. destruct IH as (H1 & H2 & H3 & H4 & H5 & H6).
    cbn [synced failed errors] in H1, H2, H3.
    split; [rewrite H1; simpl; lia|]. split; [exact H2|]. split; [exact H3|].
    split; [|split].
    + intros q. rewrite H4. unfold after_success. cbn [db sync_queue].
      rewrite sql_delete_In, entry_of_task_false, Hitem. split.
      * intros [[Hq Hne] Hrest]. split; [exact Hq|].
        intros e' [<-|He']; auto.
      * intros [Hq Hall]. split; [split; [exact Hq|]|].
        -- apply Hall. now left.
        -- intros e' He'. apply Hall. now right.
    + intros handled H.
      apply (acknowledged_for_incl ((handled ++ [e]) ++ rest)).
      * intros e' He'. rewrite <- app_assoc. exact He'.
      * apply H5. now apply acknowledged_for_success.
    + eapply (Forall2_compose same_content same_content);
        [apply same_content_trans| |exact H6].
      unfold after_success. cbn [db tasks].
      apply sql_update_Forall2; intros; repeat split.
Qed.

End Echo.

Section EchoPass.

Variable clock : nat -> Z.
Variable data_server_id : string -> option string.
Variable random_suffix : nat -> nat -> string.
Variable batchSize : nat.
Variable allItems : list SyncQueueItem.t.

Lemma echo_loop :
  forall fuel i acc w r w',
    sync_loop clock (batch_route data_server_id random_suffix) fuel batchSize
      allItems i acc w = (Some r, w') ->
    acknowledged_for (firstn i allItems) (db w) ->
    covered_by (skipn i allItems) (db w) ->
    synced r = synced acc + List.length (skipn i allItems) /\
    failed r = failed acc /\
    errors r = errors acc /\
    sync_queue (db w') = [] /\
    acknowledged_for allItems (db w') /\
    Forall2 same_content (tasks (db w)) (tasks (db w')).
Proof.
  induction fuel as [|fuel IH]; intros i acc w r w' Hrun Hack Hcov; [discriminate|].
  rewrite sync_loop_step in Hrun. destruct (i <? List.length allItems) eqn:E.
  - set (batch := slice allItems i (i + batchSize)) in *.
    assert (Hrb : run_batch clock (batch_route data_server_id random_suffix) batch acc w =
                  for_each (echo_items data_server_id random_suffix
                              (List.length (sent w)) 0 batch)
                    (process_item clock batch) acc
                    (mkWorld (db w) (S (ticks w))
                       (sent w ++ [(request_of clock batch w,
                                    answer_of clock
                                      (batch_route data_server_id random_suffix)
                                      batch w)]))).
    { rewrite run_batch_run. reflexivity. }
    rewrite Hrb in Hrun.
    destruct (echo_response_run clock data_server_id random_suffix batch batch
                (List.length (sent w)) 0 acc
                (mkWorld (db w) (S (ticks w))
                   (sent w ++ [(request_of clock batch w,
                                answer_of clock
                                  (batch_route data_server_id random_suffix)
                                  batch w)]))
                (fun e He => He)) as (R1 & R2 & R3 & R4 & R5 & R6).
    cbn [db] in R4, R5, R6.
    pose proof (skipn_batch_split allItems i batchSize) as Hsplit. fold batch in Hsplit.
    apply IH in Hrun.
    + destruct Hrun as (H1 & H2 & H3 & H4 & H5 & H6).
      split; [rewrite H1, R1, Hsplit, length_app; lia|].
      split; [congruence|]. split; [congruence|]. split; [exact H4|].
      split; [exact H5|].
      eapply (Forall2_compose same_content same_content);
        [apply same_content_trans|exact R6|exact H6].
    + apply (acknowledged_for_incl (firstn i allItems ++ batch)).
      * intros e He. rewrite firstn_add in He. unfold batch.
        now rewrite slice_batch.
      * now apply R5.
    + intros q Hq. apply R4 in Hq. destruct Hq as [Hq Hne].
      destruct (Hcov q Hq) as [e [He Hte]].
      rewrite Hsplit in He. apply in_app_or in He. destruct He as [He|He].
      * exfalso. apply (Hne e He). now symmetry.
      * exists e. split; assumption.
  - apply Nat.ltb_ge in E. inversion Hrun; subst.
    rewrite skipn_all2 in * by exact E. rewrite firstn_all2 in Hack by exact E.
    split; [simpl; lia|]. split; [reflexivity|]. split; [reflexivity|].
    split; [|split; [exact Hack|apply Forall2_same_content_refl]].
    unfold covered_by in Hcov.
    destruct (sync_queue (db w')) as [|q rest]; [reflexivity|].
    destruct (Hcov q (or_introl eq_refl)) as [e [[] _]].
Qed.

End EchoPass.

Lemma echo_pass :
  forall (clock : nat -> Z) (data_server_id : string -> option string)
         (random_suffix : nat -> nat -> string) (fuel batchSize : nat) (w : World),
    0 < batchSize ->
    List.length (sync_queue (db w)) < fuel ->
    exists w',
      sync clock (batch_route data_server_id random_suffix) fuel batchSize w =
        (Some (SyncResult.mk true (List.length (sync_queue (db w))) 0 []), w') /\
      sync_queue (db w') = [] /\
      (forall row q, In row (tasks (db w')) -> In q (sync_queue (db w)) ->
         SyncQueueItem.task_id q = Task.id row -> acknowledged row) /\
      (forall t, (forall q, In q (sync_queue (db w)) -> SyncQueueItem.task_id q <> t) ->
         tasks_of t (db w') = tasks_of t (db w)) /\
      Forall2 same_content (tasks (db w)) (tasks (db w')).
Proof.
  intros clock data_server_id random_suffix fuel batchSize w Hb Hfuel.
  destruct (sync_loop_returns clock (batch_route data_server_id random_suffix)
              batchSize (drain (db w)) Hb fuel 0 (mkTally 0 0 []) w)
    as [acc' [w' [Hrun _]]].
  { rewrite drain_length. lia. }
  { reflexivity. }
  destruct (echo_loop clock data_server_id random_suffix batchSize (drain (db w))
              _ _ _ _ _ _ Hrun) as (H1 & H2 & H3 & H4 & H5 & H6).
  { intros row e _ []. }
  { intros q Hq. exists (item_of_row q). split; [|reflexivity].
    cbn [skipn]. now apply drain_every_row. }
  cbn [skipn synced failed errors] in H1, H2, H3. rewrite drain_length in H1.
  exists w'. rewrite sync_run, Hrun. cbn [fst snd option_map].
  split.
  { unfold result_of. rewrite H1, H2, H3. reflexivity. }
  split; [exact H4|]. split; [|split; [|exact H6]].
  - intros row q Hrow Hq Hid.
    apply (H5 row (item_of_row q)); [exact Hrow| |exact Hid].
    now apply drain_every_row.
  - intros t Ht.
    apply (sync_loop_frame clock (batch_route data_server_id random_suffix) t
             batchSize (drain (db w)) _ _ _ _ _ _ Hrun).
    intros e He. cbn [skipn] in He. unfold drain in He.
    apply in_map_iff in He. destruct He as [q [<- Hq]].
    change (SyncQueueItem.task_id q <> t).
    apply Ht. eapply Permutation_in;
      [apply Permutation_sym, order_by_created_at_perm|exact Hq].
Qed.

(** X15. A pass against the [/batch] endpoint the repository itself serves
    (batch size positive): it returns [success] with every entry of the
    Change Log counted as synced and none as failed, it leaves the Change
    Log empty, every row of a record that had an entry ends ['synced'] with
    a [server_id] and [last_synced_at] set, and the records that had no
    entry are as they were; no record is created or removed, and no title,
    description, completed flag, timestamp or delete flag is written. *)
Theorem echo_pass_drains_the_log :
  forall (clock : nat -> Z) (data_server_id : string -> option string)
         (random_suffix : nat -> nat -> string) (fuel batchSize : nat) (w : World),
    0 < batchSize ->
    List.length (sync_queue (db w)) < fuel ->
    exists w',
      sync clock (batch_route data_server_id random_suffix) fuel batchSize w =
        (Some (SyncResult.mk true (List.length (sync_queue (db w))) 0 []), w') /\
      sync_queue (db w') = [] /\
      (forall row q, In row (tasks (db w')) -> In q (sync_queue (db w)) ->
         SyncQueueItem.task_id q = Task.id row -> acknowledged row) /\
      (forall t, (forall q, In q (sync_queue (db w)) -> SyncQueueItem.task_id q <> t) ->
         tasks_of t (db w') = tasks_of t (db w)) /\
      Forall2 same_content (tasks (db w)) (tasks (db w')).
Proof.
  intros. now apply echo_pass.
Qed.

Lemma echo_pass_drains_the_log_witness :
  exists w',
    sync ex_clock (batch_route ex_data_server_id ex_random_suffix) 3 1
      world_two_entries = (Some (SyncResult.mk true 2 0 []), w') /\
    sync_queue (db w') = [].
Proof.
  destruct (echo_pass_drains_the_log ex_clock ex_data_server_id ex_random_suffix
              3 1 world_two_entries) as [w' [H1 [H2 _]]].
  - lia.
  - simpl. lia.
  - exists w'. split; [exact H1|exact H2].
Defined.

Lemma find_Forall2 {A : Type} (R : A -> A -> Prop) (p : A -> bool) l l' a :
  Forall2 R l l' -> (forall x y, R x y -> p x = p y) ->
  find p l = Some a -> exists b, find p l' = Some b /\ R a b /\ In b l'.
Proof.
  intros H Hp. induction H as [|x y l l' Hxy Hrest IH]; simpl; intros Hf;
    [discriminate|].
  rewrite <- (Hp x y Hxy). destruct (p x).
  - inversion Hf; subst. exists y. auto.
  - destruct (IH Hf) as [b [H1 [H2 H3]]]. exists b. auto.
Qed.

(** X16. A record created with [createTask] (title not blank, id not yet in
    use) and then synchronised by a pass against the [/batch] endpoint of
    the repository: the pass reports success with every entry synced, the
    Change Log is empty, and [getTask] returns the record with the title it
    was created with, now ['synced'] with a [server_id] and
    [last_synced_at]. *)
Theorem created_task_is_synced_by_echo_pass :
  forall (clock : nat -> Z) (trim : string -> string)
         (JSON_stringify : Payload -> string)
         (data_server_id : string -> option string)
         (random_suffix : nat -> nat -> string)
         (id queueId : string) (taskData : TaskData.t)
         (fuel batchSize : nat) (w : World),
    trim (or_else (TaskData.title taskData) "") <> ""%string ->
    (forall row, In row (tasks (db w)) -> Task.id row <> id) ->
    0 < batchSize ->
    S (List.length (sync_queue (db w))) < fuel ->
    exists w' stored,
      sync clock (batch_route data_server_id random_suffix) fuel batchSize
        (snd (createTask clock trim JSON_stringify id queueId taskData w)) =
      (Some (SyncResult.mk true (S (List.length (sync_queue (db w)))) 0 []), w') /\
      sync_queue (db w') = [] /\
      fst (getTask id w') = Some stored /\
      Task.title stored = trim (or_else (TaskData.title taskData) "") /\
      Task.is_deleted stored = false /\
      acknowledged stored.
Proof.
  intros clock trim JSON_stringify data_server_id random_suffix id queueId taskData
    fuel batchSize w Hne Hfresh Hb Hfuel.
  pose proof (createTask_run clock trim JSON_stringify id queueId taskData w Hne)
    as Hrun. cbv zeta in Hrun. rewrite Hrun. cbn [snd].
  set (created := Task.mk id (trim (or_else (TaskData.title taskData) ""))
                    (or_null (TaskData.description taskData))
                    (truthy (TaskData.completed taskData))
                    (clock (ticks w)) (clock (ticks w)) false st_pending None None)
    in *.
  set (entry := new_queue_row queueId id op_create
                  (JSON_stringify
                     (payload_create id (trim (or_else (TaskData.title taskData) ""))
                        (or_null (TaskData.description taskData))
                        (truthy (TaskData.completed taskData))))
                  (clock (S (ticks w)))) in *.
  set (w1 := mkWorld (mkDatabase (tasks (db w) ++ [created])
                        (sync_queue (db w) ++ [entry]))
               (S (S (ticks w))) (sent w)).
  destruct (echo_pass clock data_server_id random_suffix fuel batchSize w1 Hb)
    as [w' [Hsync [Hempty [Hack [_ Hsame]]]]].
  { unfold w1. cbn [db sync_queue]. rewrite length_app. simpl. lia. }
  assert (Hlen : List.length (sync_queue (db w1)) = S (List.length (sync_queue (db w)))).
  { unfold w1. cbn [db sync_queue]. rewrite length_app. simpl. lia. }
  rewrite Hlen in Hsync.
  assert (Hfind : fst (getTask id w1) = Some created).
  { unfold getTask, get_task, w1. cbn [fst db tasks].
    rewrite find_app_none.
    - simpl. unfold task_has_id, created. cbn [Task.id Task.is_deleted].
      now rewrite String.eqb_refl.
    - apply find_none_iff. intros row Hrow.
      apply andb_false_iff. left. apply task_has_id_false. now apply Hfresh. }
  destruct (find_Forall2 same_content
              (fun row => task_has_id id row && negb (Task.is_deleted row))
              (tasks (db w1)) (tasks (db w')) created Hsame)
    as [stored [Hstored [Hcontent Hin]]].
  { intros x y (H1 & _ & _ & _ & _ & _ & H7). unfold task_has_id.
    now rewrite H1, H7. }
  { exact Hfind. }
  exists w', stored. split; [exact Hsync|]. split; [exact Hempty|].
  split; [exact Hstored|].
  destruct Hcontent as (C1 & C2 & _ & _ & _ & _ & C7).
  split; [now rewrite <- C2|]. split; [now rewrite <- C7|].
  apply (Hack stored entry Hin).
  - unfold w1. cbn [db sync_queue]. apply in_or_app. right. now left.
  - rewrite <- C1. reflexivity.
Qed.

Lemma created_task_is_synced_by_echo_pass_witness :
  exists w' stored,
    sync ex_clock (batch_route ex_data_server_id ex_random_suffix) 3 1
      (snd (createTask ex_clock ex_trim ex_stringify "t2" "q9" data_buy_milk
              world_empty)) =
    (Some (SyncResult.mk true 1 0 []), w') /\
    fst (getTask "t2" w') = Some stored /\
    acknowledged stored.
Proof.
  destruct (created_task_is_synced_by_echo_pass ex_clock ex_trim ex_stringify
              ex_data_server_id ex_random_suffix "t2" "q9" data_buy_milk 3 1
              world_empty) as [w' [stored H]].
  - discriminate.
  - simpl. intros row [<-|[]]. discriminate.
  - lia.
  - simpl. lia.
  - exists w', stored. tauto.
Defined.

(** * Further properties: escalation *)

(** X17. [handleSyncError] below the threshold (new [retry_count] under 3)
    writes nothing to the Record Store and does not read the clock; at or
    above it, the only rows it writes are those of the owning record, and of
    these only [sync_status]; in both cases the rows of every other record
    are untouched and nothing is exchanged. *)
Theorem escalation_touches_only_the_owning_record :
  forall (clock : nat -> Z) (item : SyncQueueItem.t) (message : string) (w : World),
    let w' := snd (handleSyncError clock item message w) in
    (SyncQueueItem.retry_count item + 1 < 3 ->
     tasks (db w') = tasks (db w) /\ ticks w' = ticks w) /\
    (forall t, t <> SyncQueueItem.task_id item ->
       tasks_of t (db w') = tasks_of t (db w)) /\
    Forall2 same_payload (tasks (db w)) (tasks (db w')) /\
    sent w' = sent w.
Proof.
  intros clock item message w w'. subst w'.
  rewrite handleSyncError_run. cbn [snd db tasks ticks sent].
  split; [|split; [|split; [|reflexivity]]].
  - intros Hlow. unfold escalates.
    destruct (3 <=? SyncQueueItem.retry_count item + 1) eqn:E.
    + apply Nat.leb_le in E. lia.
    + split; reflexivity.
  - intros t Ht.
    change (tasks_of t (failure_db item message (db w)) = tasks_of t (db w)).
    apply tasks_of_failure. congruence.
  - apply (failure_db_payload item message (db w)).
Qed.

Lemma escalation_touches_only_the_owning_record_witness :
  tasks (db (snd (handleSyncError ex_clock entry_create "Network Error"
                    world_one_entry)))
  = tasks (db world_one_entry).
Proof.
  apply (escalation_touches_only_the_owning_record ex_clock entry_create
           "Network Error" world_one_entry).
  simpl. lia.
Defined.

Lemma failure_db_keeps_error t item message d :
  (forall row, In row (tasks d) -> Task.id row = t -> Task.sync_status row = st_error) ->
  forall row, In row (tasks (failure_db item message d)) -> Task.id row = t ->
    Task.sync_status row = st_error.
Proof.
  intros H row Hin Hid. unfold failure_db in Hin. cbn [tasks] in Hin.
  destruct (escalates item); [|now apply H].
  apply sql_update_In in Hin. destruct Hin as [r0 [Hr0 ->]].
  destruct (task_has_id (SyncQueueItem.task_id item) r0); [reflexivity|].
  now apply H.
Qed.

Lemma fold_failure_keeps_error t message batch d :
  (forall row, In row (tasks d) -> Task.id row = t -> Task.sync_status row = st_error) ->
  forall row,
    In row (tasks (fold_left (fun d item => failure_db item message d) batch d)) ->
    Task.id row = t -> Task.sync_status row = st_error.
Proof.
  revert d. induction batch as [|item batch IH]; intros d H; simpl; [exact H|].
  apply IH. now apply failure_db_keeps_error.
Qed.

Lemma fold_failure_escalates message batch d item :
  In item batch -> 3 <= SyncQueueItem.retry_count item + 1 ->
  forall row,
    In row (tasks (fold_left (fun d item => failure_db item message d) batch d)) ->
    Task.id row = SyncQueueItem.task_id item -> Task.sync_status row = st_error.
Proof.
  revert d. induction batch as [|item0 batch IH]; intros d Hin H3; simpl;
    [contradiction|].
  destruct Hin as [->|Hin].
  - apply fold_failure_keeps_error. intros row Hrow Hid.
    eapply failure_db_escalation; eauto.
  - now apply IH.
Qed.

Section OfflineEscalation.

Variable clock : nat -> Z.
Variable remote : nat -> BatchSyncRequest.t -> ExchangeResult.
Variable batchSize : nat.
Variable allItems : list SyncQueueItem.t.

Hypothesis remote_is_down : forall k req, exists message, remote k req = inl message.

Lemma offline_loop_keeps_error t :
  forall fuel i acc w r w',
    sync_loop clock remote fuel batchSize allItems i acc w = (Some r, w') ->
    (forall row, In row (tasks (db w)) -> Task.id row = t ->
       Task.sync_status row = st_error) ->
    forall row, In row (tasks (db w')) -> Task.id row = t ->
      Task.sync_status row = st_error.
Proof.
  induction fuel as [|fuel IH]; intros i acc w r w' Hrun H; [discriminate|].
  rewrite sync_loop_step in Hrun. destruct (i <? List.length allItems).
  - eapply IH; [exact Hrun|].
    destruct (run_batch_down clock remote remote_is_down
                (slice allItems i (i + batchSize)) acc w) as [message Hm].
    rewrite Hm, fail_batch_db. cbn [db]. now apply fold_failure_keeps_error.
  - inversion Hrun; subst. exact H.
Qed.

Lemma offline_loop_escalates item :
  3 <= SyncQueueItem.retry_count item + 1 ->
  forall fuel i acc w r w',
    sync_loop clock remote fuel batchSize allItems i acc w = (Some r, w') ->
    In item (skipn i allItems) ->
    forall row, In row (tasks (db w')) ->
      Task.id row = SyncQueueItem.task_id item -> Task.sync_status row = st_error.
Proof.
  intros H3. induction fuel as [|fuel IH]; intros i acc w r w' Hrun Hitem;
    [discriminate|].
  rewrite sync_loop_step in Hrun. destruct (i <? List.length allItems) eqn:E.
  2:{ apply Nat.ltb_ge in E. rewrite skipn_all2 in Hitem by exact E. contradiction. }
  rewrite (skipn_batch_split allItems i batchSize) in Hitem.
  apply in_app_or in Hitem. destruct Hitem as [Hitem|Hitem].
  - eapply offline_loop_keeps_error; [exact Hrun|].
    destruct (run_batch_down clock remote remote_is_down
                (slice allItems i (i + batchSize)) acc w) as [message Hm].
    rewrite Hm, fail_batch_db. cbn [db].
    now apply fold_failure_escalates.
  - eapply IH; eassumption.
Qed.

End OfflineEscalation.

(** X18. A pass during which every exchange fails in transport escalates
    every record one of whose entries had already failed twice or more: at
    the end of the pass every row of such a record has
    [sync_status = 'error']. *)
Theorem offline_pass_escalates_at_third_failure :
  forall (clock : nat -> Z) (remote : nat -> BatchSyncRequest.t -> ExchangeResult)
         (fuel batchSize : nat) (w : World) (result : SyncResult.t) (w' : World),
    (forall k req, exists message, remote k req = inl message) ->
    sync clock remote fuel batchSize w = (Some result, w') ->
    forall entry row,
      In entry (sync_queue (db w)) ->
      2 <= SyncQueueItem.retry_count entry ->
      In row (tasks (db w')) ->
      Task.id row = SyncQueueItem.task_id entry ->
      Task.sync_status row = st_error.
Proof.
  intros clock remote fuel batchSize w result w' Hdown Hsync entry row Hentry H2
    Hrow Hid.
  destruct (sync_some _ _ _ _ _ _ _ Hsync) as [acc' [Hrun _]].
  assert (H3 : 3 <= SyncQueueItem.retry_count (item_of_row entry) + 1)
    by (cbn [item_of_row SyncQueueItem.retry_count]; lia).
  assert (Hin : In (item_of_row entry) (skipn 0 (drain (db w))))
    by (cbn [skipn]; now apply drain_every_row).
  exact (offline_loop_escalates clock remote batchSize (drain (db w)) Hdown
           (item_of_row entry) H3 fuel 0 (mkTally 0 0 []) w acc' w' Hrun Hin
           row Hrow Hid).
Qed.

Lemma offline_pass_escalates_at_third_failure_witness :
  Forall (fun row => Task.sync_status row = st_pending)
         (tasks (db world_after_two_outages)) /\
  Forall (fun row => Task.sync_status row = st_error)
         (tasks (db (snd (sync ex_clock remote_down 3 1 world_after_two_outages)))).
Proof.
  split; [repeat constructor|].
  apply Forall_forall. intros row Hrow.
  assert (Hid : Task.id row = "t1"%string)
    by (revert Hrow; vm_compute; intros [<-|[]]; reflexivity).
  apply (offline_pass_escalates_at_third_failure ex_clock remote_down 3 1
           world_after_two_outages
           (SyncResult.mk false 0 2
              [SyncError.mk "t1" op_create "Network Error" 1010;
               SyncError.mk "t1" op_update "Network Error" 1013])
           (snd (sync ex_clock remote_down 3 1 world_after_two_outages))
           (fun k req => ex_intro _ "Network Error"%string eq_refl)
           ltac:(vm_compute; reflexivity)
           entry_create_failed_twice row); auto.
  vm_compute. now left.
Defined.

(** * Further properties: reads and the enqueue helper *)

Lemma find_filter {A : Type} (p q : A -> bool) (rows : list A) :
  find p (filter q rows) = find (fun row => p row && q row) rows.
Proof.
  induction rows as [|row rows IH]; [reflexivity|].
  cbn [filter find]. destruct (q row) eqn:Eq.
  - cbn [find]. rewrite IH. destruct (p row); reflexivity.
  - rewrite IH. rewrite andb_false_r. reflexivity.
Qed.

(** X19. The two reads of the Record Store agree: [getTask id] returns the
    first row with that id of the list [getAllTasks] returns ([null] when
    the list has none), and neither read changes the state. *)
Theorem getTask_agrees_with_getAllTasks :
  forall (id : string) (w : World),
    fst (getTask id w) = find (task_has_id id) (fst (getAllTasks w)) /\
    snd (getTask id w) = w /\ snd (getAllTasks w) = w.
Proof.
  intros id w. split; [|split; reflexivity].
  unfold getTask, get_task, getAllTasks. cbn [fst].
  symmetry. apply find_filter.
Qed.

Lemma addToSyncQueue_run clock JSON_stringify itemId taskId operation data w :
  addToSyncQueue clock JSON_stringify itemId taskId operation data w =
  (tt,
   mkWorld
     (mkDatabase (tasks (db w))
        (sync_queue (db w) ++
         [new_queue_row itemId taskId operation (JSON_stringify data)
            (clock (ticks w))]))
     (S (ticks w)) (sent w)).
Proof. reflexivity. Qed.

(** X20. An entry enqueued with [addToSyncQueue] leaves the Record Store as
    it is, and the next pass (batch size above 0) sends it to the remote
    authority in one of its exchanges, with the id, record id, operation and
    serialised payload it was enqueued with and a [retry_count] of 0. *)
Theorem enqueued_entry_is_sent_by_the_next_pass :
  forall (clock : nat -> Z) (JSON_stringify : Payload -> string)
         (remote : nat -> BatchSyncRequest.t -> ExchangeResult)
         (fuel batchSize : nat) (itemId taskId : string) (operation : Operation)
         (data : Payload) (w : World),
    0 < batchSize ->
    S (List.length (sync_queue (db w))) < fuel ->
    let w1 := snd (addToSyncQueue clock JSON_stringify itemId taskId operation data w) in
    tasks (db w1) = tasks (db w) /\
    exists result w',
      sync clock remote fuel batchSize w1 = (Some result, w') /\
      exists batch,
        In batch (exchanged w1 w') /\
        In (SyncQueueItem.mk itemId taskId operation (JSON_stringify data)
              (clock (ticks w)) 0 None) batch.
Proof.
  intros clock JSON_stringify remote fuel batchSize itemId taskId operation data w
    Hb Hfuel w1. subst w1. rewrite addToSyncQueue_run. cbn [snd].
  split; [reflexivity|].
  set (w1 := mkWorld _ _ _).
  assert (Hlen : List.length (sync_queue (db w1)) < fuel).
  { unfold w1. cbn [db sync_queue]. rewrite length_app. cbn [List.length]. lia. }
  destruct (sync_pass_exchanges clock remote fuel batchSize w1 Hb Hlen)
    as [result [w' [Hrun [_ [_ Hcat]]]]].
  exists result, w'. split; [exact Hrun|].
  apply in_concat. rewrite Hcat.
  change (SyncQueueItem.mk itemId taskId operation (JSON_stringify data)
            (clock (ticks w)) 0 None)
    with (item_of_row (new_queue_row itemId taskId operation (JSON_stringify data)
                         (clock (ticks w)))).
  apply drain_every_row. unfold w1. cbn [db sync_queue].
  apply in_or_app. right. now left.
Qed.

Lemma enqueued_entry_is_sent_by_the_next_pass_witness :
  exists result w',
    sync ex_clock remote_down 3 1
      (snd (addToSyncQueue ex_clock ex_stringify "q9" "t1" op_update
              (payload_delete "t1") world_empty)) = (Some result, w') /\
    exists batch,
      In batch (exchanged
                  (snd (addToSyncQueue ex_clock ex_stringify "q9" "t1" op_update
                          (payload_delete "t1") world_empty)) w') /\
      In (SyncQueueItem.mk "q9" "t1" op_update (ex_stringify (payload_delete "t1"))
            (ex_clock (ticks world_empty)) 0 None) batch.
Proof.
  apply (enqueued_entry_is_sent_by_the_next_pass ex_clock ex_stringify remote_down
           3 1 "q9" "t1" op_update (payload_delete "t1") world_empty).
  - lia.
  - simpl. lia.
Defined.
